(** * Cyclone: review orchestration and response parsing

    A shallow embedding of the pure core of the Cyclone review bot
    (event filter, repository configuration lookup, size gate, prompt
    substitution and the parser of the model's reply), followed by the
    properties proved about it.

    Go strings are byte sequences: they are modelled as lists of [ascii]
    (one [ascii] per byte, so a non-ASCII rune takes several elements).
    Go's [int] is taken to be 64 bits wide.  Calls to [log.Printf] only
    write to the log and are left out. *)

From Stdlib Require Import Ascii String DecimalString ZArith Lia Bool Arith List.
Import ListNotations.

Local Open Scope list_scope.

(** ** Go strings *)

Definition gostring := list ascii.

(** A string literal of the source, as the bytes of its UTF-8 text. *)
Definition str (s : string) : gostring := list_ascii_of_string s.

Definition len (s : gostring) : Z := Z.of_nat (length s).

Fixpoint gostring_eqb (a b : gostring) : bool :=
  match a, b with
  | [], [] => true
  | x :: a', y :: b' => Ascii.eqb x y && gostring_eqb a' b'
  | _, _ => false
  end.

(** Line feed and the double quote, for multi-line literals. *)
Definition nl : gostring := [ascii_of_nat 10].
Definition dq : gostring := [ascii_of_nat 34].

(** ** Run-time outcomes

    A Go function either returns or panics (here: a slice expression
    whose bounds are out of range). *)

Inductive outcome (A : Type) : Type :=
| Returned (a : A)
| Panicked.
Arguments Returned {A} a.
Arguments Panicked {A}.

Definition bind {A B : Type} (m : outcome A) (k : A -> outcome B) : outcome B :=
  match m with
  | Returned a => k a
  | Panicked => Panicked
  end.

Notation "x <- m ;; k" := (bind m (fun x => k))
  (at level 61, m at next level, right associativity).

(** [s[lo:hi]]: Go checks [0 <= lo <= hi <= len(s)] and panics otherwise. *)
Definition slice (s : gostring) (lo hi : nat) : outcome gostring :=
  if (lo <=? hi) && (hi <=? length s)
  then Returned (firstn (hi - lo) (skipn lo s))
  else Panicked.

(** [s[lo:]] is [s[lo:len(s)]]. *)
Definition slice_from (s : gostring) (lo : nat) : outcome gostring :=
  slice s lo (length s).

(** [s[:hi]] is [s[0:hi]]. *)
Definition slice_to (s : gostring) (hi : nat) : outcome gostring :=
  slice s 0 hi.

(** ** Package strings (Go standard library)

    The functions of package [strings] that the program calls, following
    the library's implementation.  [Index] and [LastIndex] return
    [None] where Go returns [-1]. *)

Module strings.

Fixpoint HasPrefix (s prefix : gostring) {struct prefix} : bool :=
  match prefix with
  | [] => true
  | p :: prefix' =>
      match s with
      | [] => false
      | c :: s' => Ascii.eqb c p && HasPrefix s' prefix'
      end
  end.

(** Index of the first instance of [substr] in [s]. *)
Fixpoint Index (s substr : gostring) : option nat :=
  if HasPrefix s substr then Some 0
  else match s with
       | [] => None
       | _ :: s' => option_map S (Index s' substr)
       end.

(** Index of the last instance of [substr] in [s]. *)
Fixpoint LastIndex (s substr : gostring) : option nat :=
  match s with
  | [] => if HasPrefix [] substr then Some 0 else None
  | _ :: s' =>
      match LastIndex s' substr with
      | Some i => Some (S i)
      | None => if HasPrefix s substr then Some 0 else None
      end
  end.

(** [Count] for a non-empty [substr]: the number of non-overlapping
    instances, found left to right.  Each round consumes at least one
    byte, so [length s] rounds are enough. *)
Fixpoint Count_from (fuel : nat) (s substr : gostring) : nat :=
  match fuel with
  | 0 => 0
  | S fuel' =>
      match Index s substr with
      | None => 0
      | Some i => S (Count_from fuel' (skipn (i + length substr) s) substr)
      end
  end.

Definition Count (s substr : gostring) : nat :=
  Count_from (length s) s substr.

(** The loop of [genSplit]: at most [k] cuts, then the rest. *)
Fixpoint genSplit_loop (k : nat) (s sep : gostring) : list gostring :=
  match k with
  | 0 => [s]
  | S k' =>
      match Index s sep with
      | None => [s]
      | Some m =>
          firstn m s :: genSplit_loop k' (skipn (m + length sep) s) sep
      end
  end.

(** [genSplit s sep 0 n] for a non-empty [sep] (the program only
    splits on the literals "PR_COMMENT:" and ":"). *)
Definition genSplit (s sep : gostring) (n : Z) : list gostring :=
  if (n =? 0)%Z then []
  else
    let n := if (n <? 0)%Z then (Z.of_nat (Count s sep) + 1)%Z else n in
    let n := if (n >? len s + 1)%Z then (len s + 1)%Z else n in
    genSplit_loop (Z.to_nat (n - 1)) s sep.

Definition Split (s sep : gostring) : list gostring := genSplit s sep (-1).

Definition SplitN (s sep : gostring) (n : Z) : list gostring := genSplit s sep n.

(** The loop of [Replace]: [n] replacements, left to right. *)
Fixpoint Replace_loop (n : nat) (s old new : gostring) : gostring :=
  match n with
  | 0 => s
  | S n' =>
      match Index s old with
      | Some j =>
          firstn j s ++ new ++ Replace_loop n' (skipn (j + length old) s) old new
      | None => s (* not reached: [n] never exceeds [Count s old] *)
      end
  end.

(** [Replace] for a non-empty [old]. *)
Definition Replace (s old new : gostring) (n : Z) : gostring :=
  if gostring_eqb old new || (n =? 0)%Z then s
  else
    let m := Count s old in
    if (m =? 0)%nat then s
    else
      let n := if (n <? 0)%Z || (Z.of_nat m <? n)%Z then m else Z.to_nat n in
      Replace_loop n s old new.

Definition ReplaceAll (s old new : gostring) : gostring := Replace s old new (-1).

(** *** TrimSpace

    [TrimSpace] removes the leading and the trailing white-space runes
    ([unicode.IsSpace]).  A rune decoded at a position is a white-space
    rune exactly when the bytes there start with the UTF-8 encoding of
    one: U+0009..U+000D, U+0020, U+0085, U+00A0, U+1680,
    U+2000..U+200A, U+2028, U+2029, U+202F, U+205F, U+3000. *)

Definition asciiSpace (c : ascii) : bool :=
  let n := nat_of_ascii c in
  ((9 <=? n) && (n <=? 13)) || (n =? 32).

(** Second byte of a two-byte white-space rune led by 0xC2. *)
Definition space2 (b1 b2 : nat) : bool :=
  (b1 =? 194) && ((b2 =? 133) || (b2 =? 160)).

(** Three-byte white-space runes. *)
Definition space3 (b1 b2 b3 : nat) : bool :=
  ((b1 =? 225) && (b2 =? 154) && (b3 =? 128))
  || ((b1 =? 226) && (b2 =? 128)
      && (((128 <=? b3) && (b3 <=? 138)) || (b3 =? 168) || (b3 =? 169) || (b3 =? 175)))
  || ((b1 =? 226) && (b2 =? 129) && (b3 =? 159))
  || ((b1 =? 227) && (b2 =? 128) && (b3 =? 128)).

(** Drops the white-space runes at the front of [s]. *)
Fixpoint TrimLeftSpace (s : gostring) : gostring :=
  match s with
  | [] => []
  | c1 :: s1 =>
      if asciiSpace c1 then TrimLeftSpace s1
      else
        match s1 with
        | [] => s
        | c2 :: s2 =>
            if space2 (nat_of_ascii c1) (nat_of_ascii c2) then TrimLeftSpace s2
            else
              match s2 with
              | [] => s
              | c3 :: s3 =>
                  if space3 (nat_of_ascii c1) (nat_of_ascii c2) (nat_of_ascii c3)
                  then TrimLeftSpace s3
                  else s
              end
        end
  end.

(** The same scan over the reversed string, whose runes are met last
    byte first. *)
Fixpoint TrimLeftSpace_rev (r : gostring) : gostring :=
  match r with
  | [] => []
  | c1 :: r1 =>
      if asciiSpace c1 then TrimLeftSpace_rev r1
      else
        match r1 with
        | [] => r
        | c2 :: r2 =>
            if space2 (nat_of_ascii c2) (nat_of_ascii c1) then TrimLeftSpace_rev r2
            else
              match r2 with
              | [] => r
              | c3 :: r3 =>
                  if space3 (nat_of_ascii c3) (nat_of_ascii c2) (nat_of_ascii c1)
                  then TrimLeftSpace_rev r3
                  else r
              end
        end
  end.

(** Drops the white-space runes at the end of [s]. *)
Definition TrimRightSpace (s : gostring) : gostring :=
  rev (TrimLeftSpace_rev (rev s)).

Definition TrimSpace (s : gostring) : gostring :=
  TrimRightSpace (TrimLeftSpace s).

(** *** HasSuffix and ToLower *)

Definition HasSuffix (s suffix : gostring) : bool :=
  (length suffix <=? length s)
  && gostring_eqb (skipn (length s - length suffix) s) suffix.

(** The ASCII step of [ToLower]: [c += 'a' - 'A'] for an upper-case
    letter. *)
Definition lowerASCII (c : ascii) : ascii :=
  let n := nat_of_ascii c in
  if (65 <=? n) && (n <=? 90) then ascii_of_nat (n + 32) else c.

(** [ToLower].  A string of ASCII bytes is lowered byte by byte.  For a
    string with a byte of 0x80 or more Go maps [unicode.ToLower] over
    its runes; that mapping rests on the Unicode case tables, which are
    no part of this development, and is the parameter [mapLower]. *)
Definition ToLower (mapLower : gostring -> gostring) (s : gostring) : gostring :=
  if forallb (fun c => nat_of_ascii c <? 128) s then map lowerASCII s
  else mapLower s.

End strings.

(** ** Go's int *)

Definition minInt : Z := (- 2 ^ 63)%Z.
Definition maxInt : Z := (2 ^ 63 - 1)%Z.

(** The value of an [int] expression after wrap-around. *)
Definition wrap (z : Z) : Z := ((z + 2 ^ 63) mod 2 ^ 64 - 2 ^ 63)%Z.

Definition int_add (a b : Z) : Z := wrap (a + b).

(** ** Package strconv *)

Module strconv.

Definition digit (c : ascii) : option Z :=
  let n := nat_of_ascii c in
  if (48 <=? n) && (n <=? 57) then Some (Z.of_nat (n - 48)) else None.

(** The digit loop: [n = n*10 + int(ch)], an error on any other byte. *)
Fixpoint digits (n : Z) (s : gostring) : option Z :=
  match s with
  | [] => Some n
  | ch :: s' =>
      match digit ch with
      | None => None
      | Some d => digits (n * 10 + d)%Z s'
      end
  end.

(** [Atoi]: an optional sign and one or more decimal digits, whose
    value fits an [int]; [None] stands for a non-nil error (syntax or
    range).  The short-string fast path and [ParseInt s 10 0] agree on
    this. *)
Definition Atoi (s : gostring) : option Z :=
  let '(neg, s') :=
    match s with
    | c :: r =>
        if Ascii.eqb c "-" then (true, r)
        else if Ascii.eqb c "+" then (false, r)
        else (false, s)
    | [] => (false, s)
    end in
  match s' with
  | [] => None
  | _ :: _ =>
      match digits 0 s' with
      | None => None
      | Some n =>
          let v := if neg then (- n)%Z else n in
          if (minInt <=? v)%Z && (v <=? maxInt)%Z then Some v else None
      end
  end.

(** Decimal text of an [int], as the verb [%d] prints it. *)
Definition Itoa (n : Z) : gostring :=
  str (NilEmpty.string_of_int (Z.to_int n)).

End strconv.

(** ** Package fmt *)

Module fmt.

Inductive arg : Type :=
| Int (n : Z)
| Str (s : gostring).

(** [Sprintf] for the verbs the program uses, [%d] on an [int] and
    [%s] on a string.  Every call site passes as many operands as its
    format has verbs, of the matching kinds; what Go prints for other
    verbs or for missing operands is not modelled (the byte is copied). *)
Fixpoint Sprintf (format : gostring) (args : list arg) : gostring :=
  match format with
  | [] => []
  | c :: rest =>
      if Ascii.eqb c "%" then
        match rest, args with
        | v :: rest', Int n :: args' =>
            if Ascii.eqb v "d" then strconv.Itoa n ++ Sprintf rest' args'
            else c :: Sprintf rest args
        | v :: rest', Str s :: args' =>
            if Ascii.eqb v "s" then s ++ Sprintf rest' args'
            else c :: Sprintf rest args
        | _, _ => c :: Sprintf rest args
        end
      else c :: Sprintf rest args
  end.

(** The message of [Errorf]: as [Sprintf], with the verb [%w] printing
    the text of the wrapped error. *)
Fixpoint Errorf (format : gostring) (args : list arg) : gostring :=
  match format with
  | [] => []
  | c :: rest =>
      if Ascii.eqb c "%" then
        match rest, args with
        | v :: rest', Int n :: args' =>
            if Ascii.eqb v "d" then strconv.Itoa n ++ Errorf rest' args'
            else c :: Errorf rest args
        | v :: rest', Str s :: args' =>
            if Ascii.eqb v "s" || Ascii.eqb v "w" then s ++ Errorf rest' args'
            else c :: Errorf rest args
        | _, _ => c :: Errorf rest args
        end
      else c :: Errorf rest args
  end.

End fmt.

(** A raw (back-quoted) literal, given line by line. *)
Fixpoint raw (lines : list gostring) : gostring :=
  match lines with
  | [] => []
  | [l] => l
  | l :: ls => l ++ nl ++ raw ls
  end.

(** ** Package bufio (Go standard library)

    A [Scanner] over the bytes of a file, with the split function
    [ScanLines] and the buffer it has by default.  The buffer grows up
    to [MaxScanTokenSize] bytes; a line that does not end within it
    stops the scanner with [ErrTooLong], and every later call of [Scan]
    returns false.  A caller that does not look at [Err] sees the lines
    before that one and nothing else. *)

Module bufio.

Definition MaxScanTokenSize : Z := 64 * 1024.

(** [dropCR]: the data without its last byte, if that is a carriage
    return. *)
Definition dropCR (data : gostring) : gostring :=
  match rev data with
  | c :: r => if nat_of_ascii c =? 13 then rev r else data
  | [] => data
  end.

(** The tokens of the successive calls of [Scan], until it returns
    false.  [line] holds, last byte first, the bytes of the current
    line met so far.  A line feed ends the line, which is a token when
    it fits the buffer together with its line feed; the bytes after the
    last line feed are a token when there are any and they leave a byte
    free in the buffer. *)
Fixpoint scanLines (data line : gostring) : list gostring :=
  match data with
  | [] =>
      match line with
      | [] => []
      | _ :: _ =>
          if (len line <? MaxScanTokenSize)%Z then [dropCR (rev line)] else []
      end
  | c :: data' =>
      if nat_of_ascii c =? 10 then
        if (len line <? MaxScanTokenSize)%Z
        then dropCR (rev line) :: scanLines data' []
        else []
      else scanLines data' (c :: line)
  end.

(** [for scanner.Scan() { lines = append(lines, scanner.Text()) }] *)
Definition Lines (data : gostring) : list gostring := scanLines data [].

End bufio.

(** ** Package os: the environment (Unix)

    The environment as a list of bindings, the most recent first. *)

Module os.

Definition environ := list (gostring * gostring).

(** [Getenv]: the value of the variable, or the empty string. *)
Fixpoint Getenv (env : environ) (key : gostring) : gostring :=
  match env with
  | [] => []
  | (k, v) :: rest => if gostring_eqb k key then v else Getenv rest key
  end.

Definition hasByte (n : nat) (s : gostring) : bool :=
  existsb (fun c => nat_of_ascii c =? n) s.

(** [Setenv]: [None] is the error EINVAL, for an empty key, a key with
    an equals sign or a NUL byte, and a value with a NUL byte. *)
Definition Setenv (env : environ) (key value : gostring) : option environ :=
  if (length key =? 0) || hasByte 61 key || hasByte 0 key || hasByte 0 value
  then None
  else Some ((key, value) :: env).

End os.

(** ** Package config *)

Module config.

(** [type ReviewPrecision string] *)
Definition ReviewPrecision := gostring.

Definition PrecisionMinor : ReviewPrecision := str "minor".
Definition PrecisionMedium : ReviewPrecision := str "medium".
Definition PrecisionStrict : ReviewPrecision := str "strict".

Record RepositoryConfig : Type := {
  Name : gostring;
  Precision : ReviewPrecision;
  CustomPrompt : gostring
}.

(** The field [Name] of the organization is [OrgName] here, since the
    repository entry has a field of that name too. *)
Record OrganizationConfig : Type := {
  OrgName : gostring;
  Repositories : list RepositoryConfig
}.

Record ReviewConfig : Type := {
  Organizations : list OrganizationConfig
}.

Definition MAX_FILES_FOR_REVIEW : Z := 25.
Definition MAX_ADDITIONS_FOR_REVIEW : Z := 800.
Definition MAX_TOTAL_CHANGES : Z := 1200.
Definition WARN_FILES_THRESHOLD : Z := 20.
Definition WARN_ADDITIONS_THRESHOLD : Z := 400.

(** [for _, repo := range repos { if p(repo) { return &repo } }] *)
Fixpoint firstRepo (p : RepositoryConfig -> bool) (repos : list RepositoryConfig)
  : option RepositoryConfig :=
  match repos with
  | [] => None
  | repo :: rest => if p repo then Some repo else firstRepo p rest
  end.

Definition isNamed (repoName : gostring) (repo : RepositoryConfig) : bool :=
  gostring_eqb (Name repo) repoName.

Definition isWildcard (repo : RepositoryConfig) : bool :=
  gostring_eqb (Name repo) (str "*") || gostring_eqb (Name repo) (str "default").

(** The loop over [rc.Organizations]. *)
Fixpoint lookupOrganizations (orgs : list OrganizationConfig) (owner repoName : gostring)
  : option RepositoryConfig :=
  match orgs with
  | [] => None
  | org :: rest =>
      if gostring_eqb (OrgName org) owner then
        match firstRepo (isNamed repoName) (Repositories org) with
        | Some repo => Some repo
        | None =>
            match firstRepo isWildcard (Repositories org) with
            | Some repo => Some repo
            | None => lookupOrganizations rest owner repoName
            end
        end
      else lookupOrganizations rest owner repoName
  end.

(** [None] is the nil pointer. *)
Definition GetRepositoryConfig (rc : ReviewConfig) (owner repoName : gostring)
  : option RepositoryConfig :=
  lookupOrganizations (Organizations rc) owner repoName.

(** [type Config struct] *)
Record Config : Type := {
  GitHubToken : gostring;
  Port : gostring;
  WebhookSecret : gostring;
  AnthropicToken : gostring
}.

Definition minorGuidelines : gostring :=
  raw [str "**Review Focus (Minor Precision):**";
       str "- Focus primarily on critical bugs and security issues";
       str "- Skip most style and formatting comments";
       str "- Be lenient with minor code quality issues";
       str "- Emphasize 🚫 **blocking** and ⚠️ **issue** categories"].

Definition strictGuidelines : gostring :=
  raw [str "**Review Focus (Strict Precision):**";
       str "- Review all aspects including style, performance, and maintainability";
       str "- Be thorough with naming conventions and code organization";
       str "- Suggest improvements for readability and best practices";
       str "- Use all categories including 🧰 **nit** and 💡 **suggestion**";
       str "- Consider long-term maintainability and team standards"].

Definition mediumGuidelines : gostring :=
  raw [str "**Review Focus (Medium Precision):**";
       str "- Balance between thoroughness and practicality";
       str "- Focus on significant issues while noting important style concerns";
       str "- Emphasize security, bugs, and maintainability";
       str "- Use ⚠️ **issue**, 💡 **suggestion**, and 🧰 **nit** categories appropriately"].

Definition GetPrecisionGuidelines (precision : ReviewPrecision) : gostring :=
  if gostring_eqb precision PrecisionMinor then minorGuidelines
  else if gostring_eqb precision PrecisionStrict then strictGuidelines
  else mediumGuidelines.

(** The byte [s[i]], read only where the source has checked the length. *)
Definition byteAt (s : gostring) (i : nat) : nat := nat_of_ascii (nth i s zero).

(** The second loop of [loadEnvFile], over the lines the scanner gave;
    the error of [os.Setenv] is dropped, as in the source. *)
Fixpoint loadEnvLines (lines : list gostring) (env : os.environ) : outcome os.environ :=
  match lines with
  | [] => Returned env
  | line :: rest =>
      let line := strings.TrimSpace line in
      if gostring_eqb line [] || strings.HasPrefix line (str "#") then
        loadEnvLines rest env
      else
        match strings.SplitN line (str "=") 2 with
        | [p0; p1] =>
            let key := strings.TrimSpace p0 in
            let value := strings.TrimSpace p1 in
            value <-
              (if (2 <=? length value)
                  && (((byteAt value 0 =? 34) && (byteAt value (length value - 1) =? 34))
                      || ((byteAt value 0 =? 39) && (byteAt value (length value - 1) =? 39)))
               then slice value 1 (length value - 1)
               else Returned value) ;;
            match os.Setenv env key value with
            | Some env' => loadEnvLines rest env'
            | None => loadEnvLines rest env
            end
        | _ => loadEnvLines rest env
        end
  end.

(** [file] holds the bytes of the file, or [None] when it cannot be
    opened.  The first loop collects the lines the scanner gives; its
    error is not looked at. *)
Definition loadEnvFile (file : option gostring) (env : os.environ)
  : outcome os.environ :=
  match file with
  | None => Returned env
  | Some data =>
      let lines := bufio.Lines data in
      loadEnvLines lines env
  end.

Definition getEnv (env : os.environ) (key defaultValue : gostring) : gostring :=
  let value := os.Getenv env key in
  if negb (gostring_eqb value []) then value else defaultValue.

(** What opening and decoding the configuration file gave; the errors
    carry their text. *)
Inductive configFile : Type :=
| OpenFailed (err : gostring)
| DecodeFailed (err : gostring)
| Decoded (rc : ReviewConfig).

(** Errors are their messages. *)
Definition loadReviewConfig (filename : gostring) (file : configFile)
  : ReviewConfig + gostring :=
  match file with
  | OpenFailed err =>
      inr (fmt.Errorf (str "failed to open config file %s: %w")
             [fmt.Str filename; fmt.Str err])
  | DecodeFailed err =>
      inr (fmt.Errorf (str "failed to parse config file %s: %w")
             [fmt.Str filename; fmt.Str err])
  | Decoded rc => inl rc
  end.

(** [Load], given the bytes of .env, the outcome of reading
    review-config.json and the environment of the process. *)
Definition Load (envFile : option gostring) (file : configFile) (env : os.environ)
  : outcome (Config * ReviewConfig + gostring) :=
  env <- loadEnvFile envFile env ;;
  let cfg :=
    {| GitHubToken := os.Getenv env (str "GITHUB_TOKEN");
       Port := getEnv env (str "PORT") (str "8080");
       WebhookSecret := os.Getenv env (str "WEBHOOK_SECRET");
       AnthropicToken := os.Getenv env (str "ANTHROPIC_API_KEY") |} in
  if gostring_eqb (GitHubToken cfg) [] then
    Returned (inr (str "GITHUB_TOKEN environment variable is required"))
  else if gostring_eqb (AnthropicToken cfg) [] then
    Returned (inr (str "ANTHROPIC_API_KEY environment variable is required"))
  else
    match loadReviewConfig (str "review-config.json") file with
    | inr err =>
        Returned (inr (fmt.Errorf (str "failed to load review configuration: %w")
                         [fmt.Str err]))
    | inl reviewCfg => Returned (inl (cfg, reviewCfg))
    end.

End config.

(** ** Package review *)

Module review.

Record ReviewComment : Type := {
  Path : gostring;
  Line : Z;
  Body : gostring;
  Side : gostring
}.

Record ReviewResult : Type := {
  Summary : gostring;
  Comments : list ReviewComment
}.

Record PRSizeCheck : Type := {
  ShouldReview : bool;
  WarningMessage : gostring;
  SkipMessage : gostring
}.

(** The fields of [PromptData] carry the prefix [Prompt], since
    [Body] is a field of [ReviewComment] already. *)
Record PromptData : Type := {
  PromptTitle : gostring;
  PromptBody : gostring;
  PromptPrecision : gostring;
  PromptDiff : gostring;
  PromptCustomPrompt : gostring
}.

Definition substitutePromptVariables (template : gostring) (data : PromptData) : gostring :=
  let result := template in
  let result := strings.ReplaceAll result (str "{{.Title}}") (PromptTitle data) in
  let result := strings.ReplaceAll result (str "{{.Body}}") (PromptBody data) in
  let result := strings.ReplaceAll result (str "{{.Precision}}") (PromptPrecision data) in
  let result := strings.ReplaceAll result (str "{{.Diff}}") (PromptDiff data) in
  let result := strings.ReplaceAll result (str "{{.CustomPrompt}}") (PromptCustomPrompt data) in
  result.

Definition extractSection (text sectionHeader : gostring) : outcome gostring :=
  match strings.Index text sectionHeader with
  | None => Returned []
  | Some startIndex =>
      rest <- slice_from text startIndex ;;
      match strings.Index rest (str "$$") with
      | None => Returned []
      | Some delimStart =>
          let delimStart := delimStart + (startIndex + 2) in
          rest' <- slice_from text delimStart ;;
          match strings.Index rest' (str "$$") with
          | None => Returned []
          | Some delimEnd =>
              let delimEnd := delimEnd + delimStart in
              content <- slice text delimStart delimEnd ;;
              Returned (strings.TrimSpace content)
          end
      end
  end.

(** [None] is the nil pointer. *)
Definition parsePRCommentBlock (block : gostring) : outcome (option ReviewComment) :=
  match strings.Index block (str "$$") with
  | None => Returned None
  | Some startDelim =>
      match strings.LastIndex block (str "$$") with
      | None => Returned None
      | Some endDelim =>
          if endDelim <=? startDelim then Returned None
          else
            header <- slice_to block startDelim ;;
            let header := strings.TrimSpace header in
            content <- slice block (startDelim + 2) endDelim ;;
            let content := strings.TrimSpace content in
            match strings.SplitN header (str ":") 3 with
            | p0 :: p1 :: p2 :: _ =>
                let file := strings.TrimSpace p0 in
                let lineNumStr := strings.TrimSpace p1 in
                let categoryPart := strings.TrimSpace p2 in
                match strconv.Atoi lineNumStr with
                | None => Returned None
                | Some lineNum =>
                    Returned (Some {|
                      Path := file;
                      Line := lineNum;
                      Side := str "RIGHT";
                      Body := fmt.Sprintf (str "%s" ++ nl ++ nl ++ str "%s")
                                [fmt.Str categoryPart; fmt.Str content]
                    |})
                end
            | _ => Returned None
            end
      end
  end.

(** The loop [for i := 1; i < len(parts); i++] over the fragments
    [parts[1:]], appending to [comments]. *)
Fixpoint parseBlocks (parts : list gostring) (comments : list ReviewComment)
  : outcome (list ReviewComment) :=
  match parts with
  | [] => Returned comments
  | part :: rest =>
      comment <- parsePRCommentBlock part ;;
      match comment with
      | Some c => parseBlocks rest (comments ++ [c])
      | None => parseBlocks rest comments
      end
  end.

Definition poemHeading : gostring :=
  nl ++ nl ++ str "---" ++ nl ++ nl
     ++ str "**And now, a little poem about your changes 🌪️✨**" ++ nl.

Definition branding : gostring :=
  str "## 🌪️ Cyclone AI Code Review" ++ nl ++ nl.

Definition parseClaudeResponse (claudeText diff : gostring) : outcome ReviewResult :=
  summary <- extractSection claudeText (str "SUMMARY:") ;;
  poem <- extractSection claudeText (str "POEM:") ;;
  let parts := strings.Split claudeText (str "PR_COMMENT:") in
  comments <- parseBlocks (skipn 1 parts) [] ;;
  let finalSummary := summary in
  let finalSummary :=
    if negb (gostring_eqb poem []) then finalSummary ++ poemHeading ++ poem
    else finalSummary in
  let finalSummary := branding ++ finalSummary in
  Returned {| Summary := finalSummary; Comments := comments |}.

(** [callClaudeAPI] is the call to the model: text in, text out. *)
Definition GenerateReview
    (callClaudeAPI : gostring -> gostring -> gostring -> config.RepositoryConfig -> gostring)
    (diff title body : gostring) (repoConfig : config.RepositoryConfig)
  : outcome ReviewResult :=
  let claudeReview := callClaudeAPI diff title body repoConfig in
  parseClaudeResponse claudeReview diff.

(** *** The hosting platform (github.go) *)

(** A changed file, by the values of its getters. *)
Record CommitFile : Type := {
  Filename : gostring;
  Patch : gostring;
  Changes : Z
}.

Definition binaryExtensions : list gostring :=
  [str ".png"; str ".jpg"; str ".jpeg"; str ".gif"; str ".ico"; str ".svg";
   str ".pdf"; str ".zip"; str ".tar"; str ".gz"; str ".bz2"; str ".xz";
   str ".exe"; str ".dll"; str ".so"; str ".dylib";
   str ".woff"; str ".woff2"; str ".ttf"; str ".eot";
   str ".mp3"; str ".mp4"; str ".avi"; str ".mov";
   str ".class"; str ".jar"; str ".war"].

Definition isBinaryFile (mapLower : gostring -> gostring) (filename : gostring) : bool :=
  let filename := strings.ToLower mapLower filename in
  existsb (fun ext => strings.HasSuffix filename ext) binaryExtensions.

(** The loop of [GetPRDiff] over the files, writing to [diffBuilder]. *)
Fixpoint diffOfFiles (mapLower : gostring -> gostring) (files : list CommitFile)
    (diffBuilder : gostring) : gostring :=
  match files with
  | [] => diffBuilder
  | file :: rest =>
      if gostring_eqb (Patch file) [] || (Changes file >? 500)%Z then
        diffOfFiles mapLower rest diffBuilder
      else
        let filename := Filename file in
        if isBinaryFile mapLower filename then diffOfFiles mapLower rest diffBuilder
        else
          diffOfFiles mapLower rest
            (diffBuilder
               ++ fmt.Sprintf (str "=== %s ===" ++ nl) [fmt.Str filename]
               ++ Patch file
               ++ (nl ++ nl))
  end.

(** [listed] is what [ListFiles] gave: the files, or an error text. *)
Definition GetPRDiff (mapLower : gostring -> gostring) (listed : list CommitFile + gostring)
  : gostring + gostring :=
  match listed with
  | inr err => inr (fmt.Errorf (str "failed to get PR files: %w") [fmt.Str err])
  | inl files => inl (diffOfFiles mapLower files [])
  end.

Record DraftReviewComment : Type := {
  DraftPath : gostring;
  DraftLine : Z;
  DraftSide : gostring;
  DraftBody : gostring
}.

Record PullRequestReviewRequest : Type := {
  RequestBody : gostring;
  Event : gostring;
  RequestComments : list DraftReviewComment
}.

(** The request that [PostReview] builds. *)
Definition reviewRequest (review : ReviewResult) : PullRequestReviewRequest :=
  {| RequestBody := Summary review;
     Event := str "COMMENT";
     RequestComments :=
       map (fun comment =>
              {| DraftPath := Path comment;
                 DraftLine := Line comment;
                 DraftSide := Side comment;
                 DraftBody := Body comment |})
         (Comments review) |}.

(** [CreateReview] is the platform's call, giving an error text or
    nothing; [None] is the nil error. *)
Definition PostReview (CreateReview : PullRequestReviewRequest -> option gostring)
    (review : ReviewResult) : option gostring :=
  match CreateReview (reviewRequest review) with
  | Some err => Some (fmt.Errorf (str "failed to create review: %w") [fmt.Str err])
  | None => None
  end.

(** *** The model (ai.go) *)

Record AIClient : Type := {
  apiKey : gostring;
  model : gostring
}.

Record Message : Type := {
  Role : gostring;
  Content : gostring
}.

Record ClaudeRequest : Type := {
  Model : gostring;
  MaxTokens : Z;
  Messages : list Message
}.

Definition fallbackPromptFormat : gostring :=
  raw [str "You are Cyclone, an AI code review assistant. Please review this GitHub pull request and provide constructive feedback.";
       str "";
       str "**PR Title:** %s";
       str "";
       str "**PR Description:** %s";
       str "";
       str "**Review Precision**: %s";
       str " ";
       str "**Code Changes:**";
       str "%s";
       str "";
       str "Please provide:";
       str "1. A brief overall summary of the changes";
       str "2. Specific feedback categorized by type and priority";
       str "3. End with a short, lighthearted poem (2-4 lines) based on the changes made";
       str "";
       str "**Review Guidelines:**";
       str "- Be constructive and actionable - explain the " ++ dq ++ str "why" ++ dq ++ str " behind suggestions";
       str "- Include code examples when suggesting alternatives";
       str "- Use collaborative language (" ++ dq ++ str "we could" ++ dq ++ str " vs " ++ dq ++ str "you should" ++ dq ++ str ")";
       str "- Focus on logic correctness, security, maintainability, and team conventions";
       str "- Acknowledge good patterns when present";
       str "";
       str "**Comment Categories - Use these prefixes:**";
       str "- 🧰 **nit**: Minor style/preference issues, non-blocking";
       str "- 💡 **suggestion**: Improvements that would be nice but aren't required";
       str "- ⚠️ **issue**: Problems that should be addressed before merging";
       str "- 🚫 **blocking**: Critical issues that must be fixed";
       str "- ❓ **question**: Seeking clarification about intent or approach";
       str "";
       str "**Focus Areas - Use these prefixes when relevant:**";
       str "- 🎨 **style**: Formatting, naming conventions";
       str "- ⚡ **perf**: Performance concerns";
       str "- 🔒 **security**: Security-related issues";
       str "- 📚 **docs**: Documentation needs";
       str "- 🧪 **test**: Testing coverage or quality";
       str "- 🔧 **refactor**: Code organization improvements";
       str "";
       str "**Response Structure:**";
       str "Please structure your response EXACTLY as follows:";
       str "";
       str "SUMMARY: $$";
       str "**A warm, engaging summary** with emojis and thoughtful analysis (not just bullet points) including:**";
       str "- Brief overall analysis of what this PR accomplishes";
       str "- Key changes made ";
       str "- Impact assessment (what this means for the codebase)";
       str "- Good patterns you noticed (acknowledge positive aspects)";
       str "- Any overarching concerns or recommendations";
       str "- Use emojis carefully to make it visually appealing (🚀 ✨ 🎯 📈 🔧 etc.). ";
       str "$$";
       str "";
       str "POEM: $$";
       str "A short, lighthearted poem (2-4 lines) inspired by the changes made formatted in italic.";
       str "Make it fun and relevant to the code changes.";
       str "$$";
       str "";
       str "For any line-specific comments, use this EXACT format:";
       str "PR_COMMENT:filename:line_number: [emoji] **[category]**: $$ ";
       str "your comment here (can be multiple lines)";
       str "include code examples";
       str "end your comment";
       str "$$";
       str "Examples:";
       str "PR_COMMENT:main.go:45: 🔍 **nit**: Consider using a more descriptive variable name like 'userCount' instead of 'cnt'";
       str "PR_COMMENT:utils.js:123: ⚠️ **issue**: This function needs error handling for the API call";
       str "PR_COMMENT:api/handler.py:67: 🚫 **blocking**: 🔒 **security**: Potential SQL injection vulnerability - use parameterized queries";
       str "";
       str "";
       str "**IMPORTANT Rules:**";
       str "- Use SINGLE line numbers only, NOT ranges like " ++ dq ++ str "75-82" ++ dq ++ str "";
       str "- Always include the colon after **[category]**:";
       str "- Always use the $$ delimiters for all sections";
       str "- Keep general analysis in SUMMARY, use PR_COMMENT only for specific line feedback";
       str "- Include code examples in PR_COMMENT when suggesting alternatives";
       str "";
       str "%s";
       str "";
       str "Be constructive, helpful, and focus on actionable feedback."].

Definition getFallbackPrompt (data : PromptData) : gostring :=
  fmt.Sprintf fallbackPromptFormat
    [fmt.Str (PromptTitle data); fmt.Str (PromptBody data);
     fmt.Str (PromptPrecision data); fmt.Str (PromptDiff data);
     fmt.Str (PromptCustomPrompt data)].

(** [promptFile] is the content of prompts/system-prompt.txt, or [None]
    when it cannot be read. *)
Definition loadPromptTemplate (promptFile : option gostring) (data : PromptData) : gostring :=
  match promptFile with
  | Some template => substitutePromptVariables template data
  | None => getFallbackPrompt data
  end.

(** What sending the request gave: a failure before any answer
    (encoding the request, building it, the transport), or an answer
    with its status code and its decoded content blocks ([None] when
    the body does not decode). *)
Inductive apiReply : Type :=
| Failed
| Answered (statusCode : Z) (content : option (list gostring)).

Definition callClaudeAPI (ai : AIClient) (promptFile : option gostring)
    (send : ClaudeRequest -> apiReply)
    (diff title body : gostring) (repoConfig : config.RepositoryConfig) : gostring :=
  let promptData :=
    {| PromptTitle := title;
       PromptBody := body;
       PromptPrecision := config.GetPrecisionGuidelines (config.Precision repoConfig);
       PromptDiff := diff;
       PromptCustomPrompt := config.CustomPrompt repoConfig |} in
  let prompt := loadPromptTemplate promptFile promptData in
  let reqBody :=
    {| Model := model ai;
       MaxTokens := 8000;
       Messages := [ {| Role := str "user"; Content := prompt |} ] |} in
  match send reqBody with
  | Failed => str "Error generating AI review"
  | Answered statusCode content =>
      if negb (statusCode =? 200)%Z then str "Error generating AI review"
      else
        match content with
        | None => str "Error generating AI review"
        | Some (text :: _) => text
        | Some [] => str "No response from Claude"
        end
  end.

End review.

(** ** Package bot *)

Module bot.

(** The fields of [github.PullRequest] the program reads.  They are
    pointers in the client library; the getters give the zero value
    for nil. *)
Record PullRequest : Type := {
  Draft : option bool;
  Number : option Z;
  Title : option gostring;
  Body : option gostring;
  ChangedFiles : option Z;
  Additions : option Z;
  Deletions : option Z
}.

Definition getBool (pr : option PullRequest) (f : PullRequest -> option bool) : bool :=
  match pr with
  | Some p => match f p with Some b => b | None => false end
  | None => false
  end.

Definition getInt (pr : option PullRequest) (f : PullRequest -> option Z) : Z :=
  match pr with
  | Some p => match f p with Some n => n | None => 0%Z end
  | None => 0%Z
  end.

Definition getString (pr : option PullRequest) (f : PullRequest -> option gostring)
  : gostring :=
  match pr with
  | Some p => match f p with Some s => s | None => [] end
  | None => []
  end.

Definition GetDraft (pr : option PullRequest) : bool := getBool pr Draft.
Definition GetNumber (pr : option PullRequest) : Z := getInt pr Number.
Definition GetTitle (pr : option PullRequest) : gostring := getString pr Title.
Definition GetBody (pr : option PullRequest) : gostring := getString pr Body.
Definition GetChangedFiles (pr : option PullRequest) : Z := getInt pr ChangedFiles.
Definition GetAdditions (pr : option PullRequest) : Z := getInt pr Additions.
Definition GetDeletions (pr : option PullRequest) : Z := getInt pr Deletions.

(** [repo.GetOwner().GetLogin()] and [repo.GetName()]. *)
Record Repository : Type := {
  OwnerLogin : gostring;
  RepoName : gostring
}.

Definition shouldTriggerReview (action : gostring) (pr : option PullRequest) : bool :=
  if GetDraft pr then false
  else if gostring_eqb action (str "opened") then true
  else if gostring_eqb action (str "ready_for_review") then true
  else if gostring_eqb action (str "synchronize") then false
  else false.

Definition skipFilesFormat : gostring :=
  raw [str "## 🌪️ Cyclone Notice";
       str "";
       str "**PR Too Large for Automated Review**";
       str "";
       str "This PR modifies **%d files**, which exceeds our limit of %d files for automated review.";
       str "";
       str "**Why we skip large PRs:**";
       str "- 🎯 **Review Quality**: Large PRs are harder to review thoroughly";
       str "- 🧠 **Cognitive Load**: Smaller PRs are easier for humans to understand";
       str "- 🐛 **Bug Detection**: Issues are easier to spot in focused changes";
       str "- 🚀 **Faster Iteration**: Smaller PRs get merged faster";
       str "";
       str "**Suggestions:**";
       str "- Consider breaking this into smaller, focused PRs";
       str "- Each PR should ideally change < 15 files and < 400 lines";
       str "- Group related changes together (e.g., " ++ dq ++ str "Add user authentication" ++ dq ++ str ", " ++ dq ++ str "Update API endpoints" ++ dq ++ str ")";
       str "";
       str "*Happy to review once split into smaller chunks!* 🌪️"].

Definition skipAdditionsFormat : gostring :=
  raw [str "## 🌪️ Cyclone Notice";
       str "";
       str "**PR Too Large for Automated Review**";
       str "";
       str "This PR adds **%d lines**, which exceeds our limit of %d lines for automated review.";
       str "";
       str "**Large PRs are challenging because:**";
       str "- 🔍 **Review Thoroughness**: Hard to catch all issues in large changes";
       str "- ⏱️ **Review Time**: Takes much longer to review properly  ";
       str "- 🤔 **Context Switching**: Difficult to keep all changes in mind";
       str "- 🔄 **Merge Conflicts**: Larger PRs are more likely to conflict";
       str "";
       str "**Best Practices:**";
       str "- Aim for PRs with < 400 lines of additions";
       str "- Split features into logical, reviewable chunks";
       str "- Consider feature flags for large features";
       str "";
       str "*Ready to provide detailed feedback on smaller PRs!* 🌪️"].

Definition skipTotalFormat : gostring :=
  raw [str "## 🌪️ Cyclone Notice";
       str "";
       str "**PR Too Large for Automated Review**";
       str "";
       str "This PR has **%d total changes** (+%d, -%d), exceeding our limit of %d changes.";
       str "";
       str "**Recommendation**: Break this into smaller, focused PRs for better review quality and faster merge times.";
       str "";
       str "*Each PR should tell a focused story about one specific change.* 🌪️"].

Definition warningFormat1 : gostring :=
  raw [str "**⚠️ Large PR Warning:**";
       str "%s";
       str "";
       str "*Smaller PRs are easier to review thoroughly and merge faster.*";
       str "";
       str "---"].

Definition warningFormat2 : gostring :=
  raw [str "**⚠️ Large PR Warning:**";
       str "%s";
       str "%s";
       str "";
       str "*Smaller PRs are easier to review thoroughly and merge faster.*";
       str "";
       str "---"].

Definition warnFilesFormat : gostring :=
  str "📁 **%d files changed** (consider < %d)".

Definition warnAdditionsFormat : gostring :=
  str "📈 **%d lines added** (consider < %d)".

Definition checkPRSize (pr : option PullRequest) : review.PRSizeCheck :=
  let files := GetChangedFiles pr in
  let additions := GetAdditions pr in
  let deletions := GetDeletions pr in
  let totalChanges := int_add additions deletions in
  if (files >? config.MAX_FILES_FOR_REVIEW)%Z then
    {| review.ShouldReview := false;
       review.WarningMessage := [];
       review.SkipMessage :=
         fmt.Sprintf skipFilesFormat
           [fmt.Int files; fmt.Int config.MAX_FILES_FOR_REVIEW] |}
  else if (additions >? config.MAX_ADDITIONS_FOR_REVIEW)%Z then
    {| review.ShouldReview := false;
       review.WarningMessage := [];
       review.SkipMessage :=
         fmt.Sprintf skipAdditionsFormat
           [fmt.Int additions; fmt.Int config.MAX_ADDITIONS_FOR_REVIEW] |}
  else if (totalChanges >? config.MAX_TOTAL_CHANGES)%Z then
    {| review.ShouldReview := false;
       review.WarningMessage := [];
       review.SkipMessage :=
         fmt.Sprintf skipTotalFormat
           [fmt.Int totalChanges; fmt.Int additions; fmt.Int deletions;
            fmt.Int config.MAX_TOTAL_CHANGES] |}
  else
    let warnings : list gostring := [] in
    let warnings :=
      if (files >? config.WARN_FILES_THRESHOLD)%Z then
        warnings ++ [fmt.Sprintf warnFilesFormat
                       [fmt.Int files; fmt.Int config.WARN_FILES_THRESHOLD]]
      else warnings in
    let warnings :=
      if (additions >? config.WARN_ADDITIONS_THRESHOLD)%Z then
        warnings ++ [fmt.Sprintf warnAdditionsFormat
                       [fmt.Int additions; fmt.Int config.WARN_ADDITIONS_THRESHOLD]]
      else warnings in
    let warningMessage :=
      match warnings with
      | [] => []
      | [w0] =>
          fmt.Sprintf warningFormat1
            [fmt.Str (fmt.Sprintf (str "%s" ++ nl) [fmt.Str w0])]
      | w0 :: w1 :: _ =>
          fmt.Sprintf warningFormat2 [fmt.Str w0; fmt.Str w1]
      end in
    {| review.ShouldReview := true;
       review.WarningMessage := warningMessage;
       review.SkipMessage := [] |}.

(** What [ProcessPullRequest] hands to the hosting platform. *)
Inductive posted : Type :=
| PostComment (owner repo : gostring) (number : Z) (body : gostring)
| PostReview (owner repo : gostring) (number : Z) (result : review.ReviewResult)
| NothingPosted.

Section Orchestrator.

(** The collaborators: the loaded configuration, the platform's diff
    (with [None] for an error) and the call to the model. *)
Variable reviewConfig : config.ReviewConfig.
Variable GetPRDiff : gostring -> gostring -> Z -> option gostring.
Variable callClaudeAPI :
  gostring -> gostring -> gostring -> config.RepositoryConfig -> gostring.

(** Lines 62-70: the configuration of the repository, or the default. *)
Definition repoConfigOrDefault (owner repoName : gostring) : config.RepositoryConfig :=
  match config.GetRepositoryConfig reviewConfig owner repoName with
  | Some repoConfig => repoConfig
  | None =>
      {| config.Name := repoName;
         config.Precision := config.PrecisionMedium;
         config.CustomPrompt := [] |}
  end.

Definition ProcessPullRequest (repo : Repository) (pr : option PullRequest)
  : outcome posted :=
  let owner := OwnerLogin repo in
  let repoName := RepoName repo in
  let prNumber := GetNumber pr in
  let repoConfig := repoConfigOrDefault owner repoName in
  let sizeCheck := checkPRSize pr in
  if negb (review.ShouldReview sizeCheck) then
    Returned (PostComment owner repoName prNumber (review.SkipMessage sizeCheck))
  else
    match GetPRDiff owner repoName prNumber with
    | None => Returned NothingPosted
    | Some diff =>
        reviewResult <-
          review.GenerateReview callClaudeAPI diff (GetTitle pr) (GetBody pr) repoConfig ;;
        let reviewResult :=
          if negb (gostring_eqb (review.WarningMessage sizeCheck) []) then
            {| review.Summary :=
                 review.WarningMessage sizeCheck ++ review.Summary reviewResult;
               review.Comments := review.Comments reviewResult |}
          else reviewResult in
        Returned (PostReview owner repoName prNumber reviewResult)
    end.

End Orchestrator.

(** *** The webhook *)

Record WebhookPayload : Type := {
  Action : gostring;
  PayloadPullRequest : option PullRequest;
  PayloadRepository : Repository
}.

(** What the handler answers, and the unit of work it starts, if any. *)
Record webhookResult : Type := {
  StatusCode : Z;
  ResponseBody : gostring;
  Dispatched : option (Repository * option PullRequest)
}.

(** [decoded] is the decoded body of the request, or [None] when it
    does not decode. *)
Definition handleWebhook (method : gostring) (decoded : option WebhookPayload)
  : webhookResult :=
  if negb (gostring_eqb method (str "POST")) then
    {| StatusCode := 405; ResponseBody := str "Method not allowed" ++ nl;
       Dispatched := None |}
  else
    match decoded with
    | None =>
        {| StatusCode := 400; ResponseBody := str "Bad request" ++ nl;
           Dispatched := None |}
    | Some payload =>
        if negb (shouldTriggerReview (Action payload) (PayloadPullRequest payload)) then
          {| StatusCode := 200; ResponseBody := []; Dispatched := None |}
        else
          {| StatusCode := 200; ResponseBody := [];
             Dispatched := Some (PayloadRepository payload, PayloadPullRequest payload) |}
    end.

End bot.

(** * Vocabulary of the properties *)

(** [sub] occurs in [s] at byte offset [i]. *)
Definition occurs_at (sub s : gostring) (i : nat) : Prop :=
  exists pre post, s = pre ++ sub ++ post /\ length pre = i.

Definition Contains (s sub : gostring) : Prop :=
  exists i, occurs_at sub s i.

(** The first and the last occurrence. *)
Definition first_at (sub s : gostring) (i : nat) : Prop :=
  occurs_at sub s i /\ forall j, j < i -> ~ occurs_at sub s j.

Definition last_at (sub s : gostring) (i : nat) : Prop :=
  occurs_at sub s i /\ forall j, i < j -> ~ occurs_at sub s j.

Definition colon : ascii := ":"%char.

(** The comments a fragment contributes to the review. *)
Definition commentsOf (block : gostring) : list review.ReviewComment :=
  match review.parsePRCommentBlock block with
  | Returned (Some c) => [c]
  | _ => []
  end.

(** The fragments of a reply: what follows each marker. *)
Definition fragments (claudeText : gostring) : list gostring :=
  skipn 1 (strings.Split claudeText (str "PR_COMMENT:")).

Definition isDigit (c : ascii) : Prop :=
  48 <= nat_of_ascii c <= 57.

(** An optional sign followed by one or more decimal digits. *)
Definition signedDecimal (s : gostring) : Prop :=
  exists sign ds,
    s = sign ++ ds /\ (sign = [] \/ sign = str "-" \/ sign = str "+")
    /\ ds <> [] /\ Forall isDigit ds.

(** A fragment with a header [h], a body [m] between two delimiters and
    a rest [t]. *)
Definition delimited (h m t : gostring) : gostring :=
  h ++ str "$$" ++ m ++ str "$$" ++ t.

(** The comment for a header [a:n:c] and a body [m]. *)
Definition commentFor (a : gostring) (n : Z) (c m : gostring) : review.ReviewComment :=
  {| review.Path := strings.TrimSpace a;
     review.Line := n;
     review.Side := str "RIGHT";
     review.Body := strings.TrimSpace c ++ nl ++ nl ++ strings.TrimSpace m |}.

(** The three skip verdicts and their messages. *)
Definition skipVerdict (message : gostring) : review.PRSizeCheck :=
  {| review.ShouldReview := false;
     review.WarningMessage := [];
     review.SkipMessage := message |}.

Definition filesExceeded (files : Z) : gostring :=
  fmt.Sprintf bot.skipFilesFormat [fmt.Int files; fmt.Int 25].

Definition additionsExceeded (additions : Z) : gostring :=
  fmt.Sprintf bot.skipAdditionsFormat [fmt.Int additions; fmt.Int 800].

Definition totalExceeded (total additions deletions : Z) : gostring :=
  fmt.Sprintf bot.skipTotalFormat
    [fmt.Int total; fmt.Int additions; fmt.Int deletions; fmt.Int 1200].

(** The two warning lines and the block around them. *)
Definition filesWarning (files : Z) : gostring :=
  str "📁 **" ++ strconv.Itoa files ++ str " files changed** (consider < 20)".

Definition additionsWarning (additions : Z) : gostring :=
  str "📈 **" ++ strconv.Itoa additions ++ str " lines added** (consider < 400)".

Definition warningBlock (lines : gostring) : gostring :=
  str "**⚠️ Large PR Warning:**" ++ nl ++ lines ++ nl
    ++ str "*Smaller PRs are easier to review thoroughly and merge faster.*"
    ++ nl ++ nl ++ str "---".

(** A pull request with the given counts. *)
Definition changeSet (files additions deletions : Z) : option bot.PullRequest :=
  Some {| bot.Draft := None; bot.Number := None; bot.Title := None; bot.Body := None;
          bot.ChangedFiles := Some files;
          bot.Additions := Some additions;
          bot.Deletions := Some deletions |}.

(** [x] is the first element of [l] that satisfies [P]. *)
Definition first_such {A : Type} (P : A -> Prop) (l : list A) (x : A) : Prop :=
  exists before after,
    l = before ++ x :: after /\ P x /\ forall y, In y before -> ~ P y.

Definition wildcardName (name : gostring) : Prop :=
  name = str "*" \/ name = str "default".

(** The organization is named [owner] and has an entry for the
    repository, by its name or by a wildcard. *)
Definition answers (owner repoName : gostring) (org : config.OrganizationConfig) : Prop :=
  config.OrgName org = owner
  /\ exists repo, In repo (config.Repositories org)
                  /\ (config.Name repo = repoName \/ wildcardName (config.Name repo)).

(** The configuration used when the repository has none. *)
Definition defaultConfig (repoName : gostring) : config.RepositoryConfig :=
  {| config.Name := repoName;
     config.Precision := str "medium";
     config.CustomPrompt := [] |}.

(** The summary with the size warning in front, if there is one. *)
Definition withWarning (warning : gostring) (r : review.ReviewResult) : review.ReviewResult :=
  if negb (gostring_eqb warning []) then
    {| review.Summary := warning ++ review.Summary r;
       review.Comments := review.Comments r |}
  else r.

(** Entries and configurations for the examples. *)
Definition starEntry : config.RepositoryConfig :=
  {| config.Name := str "*"; config.Precision := str "minor"; config.CustomPrompt := [] |}.

Definition svcEntry : config.RepositoryConfig :=
  {| config.Name := str "svc"; config.Precision := str "strict"; config.CustomPrompt := [] |}.

(** A configuration with one organization: a wildcard entry first, then
    an entry for svc. *)
Definition acmeOnly : config.ReviewConfig :=
  {| config.Organizations :=
       [ {| config.OrgName := str "acme";
            config.Repositories := [starEntry; svcEntry] |} ] |}.

(** A configuration in which two organizations share a name. *)
Definition acmeDefaults : config.OrganizationConfig :=
  {| config.OrgName := str "acme"; config.Repositories := [starEntry] |}.

Definition acmeServices : config.OrganizationConfig :=
  {| config.OrgName := str "acme"; config.Repositories := [svcEntry] |}.

Definition twoAcme : config.ReviewConfig :=
  {| config.Organizations := [acmeDefaults; acmeServices] |}.

(** ** Templates

    A template as a sequence of literal text and placeholders. *)

Inductive slot : Type :=
| SlotTitle | SlotBody | SlotPrecision | SlotDiff | SlotCustomPrompt.

Definition token (k : slot) : gostring :=
  match k with
  | SlotTitle => str "{{.Title}}"
  | SlotBody => str "{{.Body}}"
  | SlotPrecision => str "{{.Precision}}"
  | SlotDiff => str "{{.Diff}}"
  | SlotCustomPrompt => str "{{.CustomPrompt}}"
  end.

Definition value (data : review.PromptData) (k : slot) : gostring :=
  match k with
  | SlotTitle => review.PromptTitle data
  | SlotBody => review.PromptBody data
  | SlotPrecision => review.PromptPrecision data
  | SlotDiff => review.PromptDiff data
  | SlotCustomPrompt => review.PromptCustomPrompt data
  end.

Inductive piece : Type :=
| Lit (text : gostring)
| Slot (k : slot).

(** The text of the template. *)
Fixpoint render (ps : list piece) : gostring :=
  match ps with
  | [] => []
  | Lit text :: ps' => text ++ render ps'
  | Slot k :: ps' => token k ++ render ps'
  end.

(** The template with every placeholder replaced by its value. *)
Fixpoint fill (data : review.PromptData) (ps : list piece) : gostring :=
  match ps with
  | [] => []
  | Lit text :: ps' => text ++ fill data ps'
  | Slot k :: ps' => value data k ++ fill data ps'
  end.

Definition slot_eqb (a b : slot) : bool :=
  match a, b with
  | SlotTitle, SlotTitle | SlotBody, SlotBody | SlotPrecision, SlotPrecision
  | SlotDiff, SlotDiff | SlotCustomPrompt, SlotCustomPrompt => true
  | _, _ => false
  end.

(** One placeholder replaced by a text. *)
Fixpoint substSlot (k : slot) (v : gostring) (ps : list piece) : list piece :=
  match ps with
  | [] => []
  | Lit text :: ps' => Lit text :: substSlot k v ps'
  | Slot k' :: ps' =>
      (if slot_eqb k' k then Lit v else Slot k') :: substSlot k v ps'
  end.

(** The first and the last delimiter of a fragment overlap. *)
Definition overlapping (block : gostring) : Prop :=
  exists i, first_at (str "$$") block i /\ last_at (str "$$") block (S i).

(** Neither the first nor the last byte is ASCII white space. *)
Definition trimmedEnds (s : gostring) : Prop :=
  (forall c t, s = c :: t -> strings.asciiSpace c = false)
  /\ (forall c t, s = t ++ [c] -> strings.asciiSpace c = false).

(** ** Diffs, file names and the environment *)

(** The file takes part in the diff. *)
Definition included (mapLower : gostring -> gostring) (file : review.CommitFile) : bool :=
  negb (gostring_eqb (review.Patch file) [])
  && (review.Changes file <=? 500)%Z
  && negb (review.isBinaryFile mapLower (review.Filename file)).

(** The part of the diff for one file: the delimiter line, the patch and
    an empty line. *)
Definition framed (file : review.CommitFile) : gostring :=
  str "=== " ++ review.Filename file ++ str " ===" ++ nl
    ++ review.Patch file ++ nl ++ nl.

Definition asciiOnly (s : gostring) : Prop :=
  Forall (fun c => nat_of_ascii c < 128) s.

(** A letter, a digit or an underscore. *)
Definition nameByte (c : ascii) : bool :=
  let n := nat_of_ascii c in
  ((48 <=? n) && (n <=? 57)) || ((65 <=? n) && (n <=? 90))
  || ((97 <=? n) && (n <=? 122)) || (n =? 95).

(** The name of an environment variable: one or more name bytes. *)
Definition envName (key : gostring) : Prop :=
  key <> [] /\ Forall (fun c => nameByte c = true) key.

(** A printable ASCII byte other than the space and the two quotes. *)
Definition valueByte (c : ascii) : bool :=
  let n := nat_of_ascii c in
  (33 <=? n) && (n <=? 126) && negb (n =? 34) && negb (n =? 39).

(** The double or the single quote. *)
Definition quoteByte (q : ascii) : Prop :=
  nat_of_ascii q = 34 \/ nat_of_ascii q = 39.

Definition noNUL (s : gostring) : Prop :=
  Forall (fun c => nat_of_ascii c <> 0) s.

(** The fixed texts of the built-in prompt, around its five operands. *)
Definition fallbackPieces : list gostring :=
  strings.Split review.fallbackPromptFormat (str "%s").

Definition equals : ascii := "="%char.

(** The line feed and the carriage return. *)
Definition lf : ascii := ascii_of_nat 10.
Definition cr : ascii := ascii_of_nat 13.

(** A line of a text file holds no line feed. *)
Definition noLF (line : gostring) : Prop := ~ In lf line.

(** A line that the scanner reads: it is shorter than the buffer. *)
Definition scannable (line : gostring) : Prop :=
  noLF line /\ (len line < bufio.MaxScanTokenSize)%Z.

(** The text of a file: its lines, each ended by a line feed. *)
Definition unlines (lines : list gostring) : gostring :=
  concat (map (fun line => line ++ nl) lines).

(** How the last line of a file ends: with the file, or with a line
    feed. *)
Definition lineEnd (eol : gostring) : Prop := eol = [] \/ eol = nl.

(** The call to the model gave no text: the request failed, the status
    is not 200, the body does not decode, or it holds no content block. *)
Definition noAnswer (reply : review.apiReply) : Prop :=
  match reply with
  | review.Failed => True
  | review.Answered statusCode content =>
      statusCode <> 200%Z \/ content = None \/ content = Some []
  end.

(** The review without a summary, a poem or a comment. *)
Definition bareReview : review.ReviewResult :=
  {| review.Summary := review.branding; review.Comments := [] |}.

(** * Properties *)

(** ** Occurrences of a substring *)

Lemma gostring_eqb_eq (a b : gostring) : gostring_eqb a b = true <-> a = b.
Proof.
  revert b. induction a as [|x a IH]; intros [|y b]; simpl; split; intro H;
    try reflexivity; try discriminate.
  - apply andb_true_iff in H as [Hx Hab]. apply Ascii.eqb_eq in Hx.
    apply IH in Hab. congruence.
  - injection H as -> ->. rewrite Ascii.eqb_refl. simpl. now apply IH.
Qed.

Lemma gostring_eqb_refl (a : gostring) : gostring_eqb a a = true.
Proof. now apply gostring_eqb_eq. Qed.

Lemma gostring_eqb_neq (a b : gostring) : gostring_eqb a b = false <-> a <> b.
Proof.
  split.
  - intros H E. apply gostring_eqb_eq in E. congruence.
  - intro H. destruct (gostring_eqb a b) eqn:E; [|reflexivity].
    apply gostring_eqb_eq in E. contradiction.
Qed.

Lemma HasPrefix_true (s p : gostring) :
  strings.HasPrefix s p = true <-> exists rest, s = p ++ rest.
Proof.
  revert s. induction p as [|c p IH]; intros s; simpl.
  - split; [intros _; now exists s | now destruct s].
  - destruct s as [|d s].
    + split; [discriminate | intros [r Hr]; discriminate].
    + simpl. rewrite andb_true_iff, Ascii.eqb_eq, IH. split.
      * intros [-> [r ->]]. now exists r.
      * intros [r Hr]. injection Hr as -> ->. split; [reflexivity | now exists r].
Qed.

Lemma HasPrefix_app (p rest : gostring) : strings.HasPrefix (p ++ rest) p = true.
Proof. apply HasPrefix_true. now exists rest. Qed.

Lemma occurs_at_skipn (sub s : gostring) (i : nat) :
  occurs_at sub s i <-> i <= length s /\ strings.HasPrefix (skipn i s) sub = true.
Proof.
  split.
  - intros (pre & post & -> & <-). split.
    + rewrite length_app. lia.
    + rewrite skipn_app, Nat.sub_diag, skipn_all. simpl. apply HasPrefix_app.
  - intros [Hi H]. apply HasPrefix_true in H as [post Hpost].
    exists (firstn i s), post. split.
    + rewrite <- Hpost. symmetry. apply firstn_skipn.
    + apply firstn_length_le. exact Hi.
Qed.

Lemma occurs_at_0 (sub s : gostring) :
  occurs_at sub s 0 <-> strings.HasPrefix s sub = true.
Proof.
  rewrite occurs_at_skipn. simpl. split; [tauto | intro; split; [lia | assumption]].
Qed.

Lemma occurs_at_S (sub s : gostring) (c : ascii) (i : nat) :
  occurs_at sub (c :: s) (S i) <-> occurs_at sub s i.
Proof.
  rewrite !occurs_at_skipn. simpl. split; intros [H1 H2]; split; auto; lia.
Qed.

Lemma occurs_at_bound (sub s : gostring) (i : nat) :
  occurs_at sub s i -> i + length sub <= length s.
Proof.
  intros (pre & post & -> & <-). rewrite !length_app. lia.
Qed.

Lemma Index_nil (sub : gostring) :
  strings.Index [] sub = if strings.HasPrefix [] sub then Some 0 else None.
Proof. reflexivity. Qed.

Lemma Index_cons (c : ascii) (s sub : gostring) :
  strings.Index (c :: s) sub =
  if strings.HasPrefix (c :: s) sub then Some 0
  else option_map S (strings.Index s sub).
Proof. reflexivity. Qed.

(** [Index] finds the first occurrence, and fails only if there is none. *)
Lemma Index_Some (s sub : gostring) (i : nat) :
  strings.Index s sub = Some i <-> first_at sub s i.
Proof.
  revert i. induction s as [|c s IH]; intros i;
    [rewrite Index_nil | rewrite Index_cons].
  - destruct (strings.HasPrefix [] sub) eqn:E.
    + split.
      * intros [= <-]. split; [now apply occurs_at_0 | intros j Hj; lia].
      * intros [Ho Hf]. destruct i; [reflexivity|].
        exfalso. apply (Hf 0); [lia | now apply occurs_at_0].
    + split; [discriminate|]. intros [Ho _]. apply occurs_at_skipn in Ho as [Hi Hp].
      simpl in Hi. replace i with 0 in Hp by lia. cbn [skipn] in Hp. congruence.
  - destruct (strings.HasPrefix (c :: s) sub) eqn:E.
    + split.
      * intros [= <-]. split; [now apply occurs_at_0 | intros j Hj; lia].
      * intros [Ho Hf]. destruct i; [reflexivity|].
        exfalso. apply (Hf 0); [lia | now apply occurs_at_0].
    + destruct (strings.Index s sub) as [k|]; simpl.
      * split.
        -- intros [= <-]. destruct (proj1 (IH k) eq_refl) as [Ho Hf]. split.
           ++ now apply occurs_at_S.
           ++ intros [|j] Hj Hc.
              ** apply occurs_at_0 in Hc. congruence.
              ** apply occurs_at_S in Hc. apply (Hf j); [lia | assumption].
        -- intros [Ho Hf]. destruct i as [|i].
           ++ apply occurs_at_0 in Ho. congruence.
           ++ f_equal. assert (Hi : Some k = Some i).
              { apply IH. split; [now apply occurs_at_S in Ho|].
                intros j Hj Hc. apply (Hf (S j)); [lia | now apply occurs_at_S]. }
              congruence.
      * split; [discriminate|]. intros [Ho Hf]. destruct i as [|i].
        -- apply occurs_at_0 in Ho. congruence.
        -- assert (Hi : None = Some i).
           { apply IH. split; [now apply occurs_at_S in Ho|].
             intros j Hj Hc. apply (Hf (S j)); [lia | now apply occurs_at_S]. }
           congruence.
Qed.

Lemma Index_None (s sub : gostring) :
  strings.Index s sub = None <-> ~ Contains s sub.
Proof.
  induction s as [|c s IH]; [rewrite Index_nil | rewrite Index_cons].
  - destruct (strings.HasPrefix [] sub) eqn:E.
    + split; [discriminate|]. intros H. exfalso. apply H. exists 0. now apply occurs_at_0.
    + split; [|reflexivity]. intros _ [i Ho]. apply occurs_at_skipn in Ho as [Hi Hp].
      simpl in Hi. replace i with 0 in Hp by lia. cbn [skipn] in Hp. congruence.
  - destruct (strings.HasPrefix (c :: s) sub) eqn:E.
    + split; [discriminate|]. intros H. exfalso. apply H. exists 0. now apply occurs_at_0.
    + destruct (strings.Index s sub) as [k|] eqn:Ek; simpl.
      * split; [discriminate|]. intros H. exfalso. apply H.
        apply Index_Some in Ek as [Ho _]. exists (S k). now apply occurs_at_S.
      * split; [|reflexivity]. intros _ [[|i] Ho].
        -- apply occurs_at_0 in Ho. congruence.
        -- apply occurs_at_S in Ho. apply (proj1 IH eq_refl). now exists i.
Qed.

Lemma first_at_unique (sub s : gostring) (i j : nat) :
  first_at sub s i -> first_at sub s j -> i = j.
Proof.
  intros Hi Hj. apply Index_Some in Hi, Hj. congruence.
Qed.

Lemma last_at_unique (sub s : gostring) (i j : nat) :
  last_at sub s i -> last_at sub s j -> i = j.
Proof.
  intros [Hi Hi'] [Hj Hj'].
  destruct (Nat.lt_trichotomy i j) as [H | [H | H]]; [|assumption|].
  - exfalso. now apply (Hi' j).
  - exfalso. now apply (Hj' i).
Qed.

Lemma LastIndex_nil (sub : gostring) :
  strings.LastIndex [] sub = if strings.HasPrefix [] sub then Some 0 else None.
Proof. reflexivity. Qed.

Lemma LastIndex_cons (c : ascii) (s sub : gostring) :
  strings.LastIndex (c :: s) sub =
  match strings.LastIndex s sub with
  | Some i => Some (S i)
  | None => if strings.HasPrefix (c :: s) sub then Some 0 else None
  end.
Proof. reflexivity. Qed.

Lemma LastIndex_spec (s sub : gostring) :
  match strings.LastIndex s sub with
  | Some i => last_at sub s i
  | None => ~ Contains s sub
  end.
Proof.
  induction s as [|c s IH]; [rewrite LastIndex_nil | rewrite LastIndex_cons].
  - destruct (strings.HasPrefix [] sub) eqn:E.
    + split; [now apply occurs_at_0|]. intros j Hj Ho.
      apply occurs_at_skipn in Ho as [Hle _]. simpl in Hle. lia.
    + intros [i Ho]. apply occurs_at_skipn in Ho as [Hi Hp]. simpl in Hi.
      replace i with 0 in Hp by lia. cbn [skipn] in Hp. congruence.
  - destruct (strings.LastIndex s sub) as [k|].
    + destruct IH as [Ho Hl]. split; [now apply occurs_at_S|].
      intros [|j] Hj Hc; [lia|]. apply occurs_at_S in Hc. apply (Hl j); [lia | assumption].
    + destruct (strings.HasPrefix (c :: s) sub) eqn:E.
      * split; [now apply occurs_at_0|]. intros [|j] Hj Hc; [lia|].
        apply occurs_at_S in Hc. apply IH. now exists j.
      * intros [[|i] Ho].
        -- apply occurs_at_0 in Ho. congruence.
        -- apply occurs_at_S in Ho. apply IH. now exists i.
Qed.

Lemma LastIndex_Some (s sub : gostring) (i : nat) :
  strings.LastIndex s sub = Some i <-> last_at sub s i.
Proof.
  pose proof (LastIndex_spec s sub) as H.
  destruct (strings.LastIndex s sub) as [k|].
  - split.
    + now intros [= <-].
    + intros Hi. f_equal. eapply last_at_unique; eassumption.
  - split; [discriminate|]. intros [Ho _]. exfalso. apply H. now exists i.
Qed.

Lemma LastIndex_None (s sub : gostring) :
  strings.LastIndex s sub = None <-> ~ Contains s sub.
Proof.
  pose proof (LastIndex_spec s sub) as H.
  destruct (strings.LastIndex s sub) as [k|].
  - split; [discriminate|]. intros Hn. exfalso. apply Hn. exists k. apply H.
  - tauto.
Qed.

(** ** Count, Split and SplitN *)

Lemma Count_from_le (fuel : nat) (s sub : gostring) :
  strings.Count_from fuel s sub <= fuel.
Proof.
  revert s. induction fuel as [|f IH]; intros s; simpl; [lia|].
  destruct (strings.Index s sub); [|lia]. specialize (IH (skipn (n + length sub) s)). lia.
Qed.

(** With a non-empty [sub], [length s] rounds of [Count] are enough. *)
Lemma Count_from_enough (fuel : nat) (s sub : gostring) :
  sub <> [] -> length s <= fuel ->
  strings.Count_from fuel s sub = strings.Count s sub.
Proof.
  intros Hsub. unfold strings.Count.
  remember (length s) as n eqn:Hn. revert s fuel Hn.
  induction n as [n IH] using lt_wf_ind. intros s fuel Hn Hle.
  destruct fuel as [|f], n as [|n']; simpl; try reflexivity; try lia.
  - destruct s; [|discriminate]. rewrite Index_nil.
    destruct sub; [contradiction | reflexivity].
  - destruct (strings.Index s sub) as [i|] eqn:Ei; [|reflexivity]. f_equal.
    assert (Hb : i + length sub <= length s).
    { apply occurs_at_bound. apply Index_Some in Ei. apply Ei. }
    assert (Hpos : 0 < length sub) by (destruct sub; [contradiction | simpl; lia]).
    set (t := skipn (i + length sub) s).
    assert (Ht : length t < S n') by (subst t; rewrite length_skipn; lia).
    rewrite (IH (length t) Ht t f eq_refl) by lia.
    symmetry. apply (IH (length t) Ht t n' eq_refl). lia.
Qed.

Lemma Count_None (s sub : gostring) :
  strings.Index s sub = None -> strings.Count s sub = 0.
Proof.
  intros H. unfold strings.Count. destruct (length s); simpl; [reflexivity|].
  now rewrite H.
Qed.

Lemma Count_Some (s sub : gostring) (i : nat) :
  sub <> [] -> strings.Index s sub = Some i ->
  strings.Count s sub = S (strings.Count (skipn (i + length sub) s) sub).
Proof.
  intros Hsub Hi.
  assert (Hb : i + length sub <= length s).
  { apply occurs_at_bound. apply Index_Some in Hi. apply Hi. }
  assert (Hpos : 0 < length sub) by (destruct sub; [contradiction | simpl; lia]).
  unfold strings.Count at 1. destruct (length s) as [|n] eqn:En; [lia|].
  simpl. rewrite Hi. f_equal. apply Count_from_enough; [assumption|].
  rewrite length_skipn. lia.
Qed.

Lemma Split_loop (s sep : gostring) :
  strings.Split s sep = strings.genSplit_loop (strings.Count s sep) s sep.
Proof.
  unfold strings.Split, strings.genSplit, len. simpl.
  pose proof (Count_from_le (length s) s sep) as Hle. fold (strings.Count s sep) in Hle.
  destruct (Z.gtb_spec (Z.of_nat (strings.Count s sep) + 1) (Z.of_nat (length s) + 1)); [lia|].
  f_equal. lia.
Qed.

(** Without the separator, [Split] returns the string alone. *)
Lemma Split_None (s sep : gostring) :
  strings.Index s sep = None -> strings.Split s sep = [s].
Proof.
  intros H. rewrite Split_loop, (Count_None _ _ H). reflexivity.
Qed.

(** Otherwise it cuts at the first separator and splits the rest. *)
Lemma Split_Some (s sep : gostring) (i : nat) :
  sep <> [] -> strings.Index s sep = Some i ->
  strings.Split s sep = firstn i s :: strings.Split (skipn (i + length sep) s) sep.
Proof.
  intros Hsep Hi. rewrite !Split_loop, (Count_Some _ _ _ Hsep Hi). simpl.
  now rewrite Hi.
Qed.

(** A prefix in which the first byte of [sub] does not occur is skipped
    by [Index]. *)
Lemma Index_app_nochar (l rest sub : gostring) (c : ascii) :
  ~ In c l ->
  strings.Index (l ++ rest) (c :: sub) =
  option_map (Nat.add (length l)) (strings.Index rest (c :: sub)).
Proof.
  intros Hl. induction l as [|d l IH]; simpl app.
  - now destruct (strings.Index rest (c :: sub)).
  - rewrite Index_cons.
    assert (Hd : Ascii.eqb d c = false).
    { apply Ascii.eqb_neq. intros ->. apply Hl. now left. }
    cbn [strings.HasPrefix]. rewrite Hd. cbn [andb].
    rewrite IH by (intros H; apply Hl; now right).
    now destruct (strings.Index rest (c :: sub)).
Qed.

Lemma Index_here (sub rest : gostring) : strings.Index (sub ++ rest) sub = Some 0.
Proof.
  destruct (sub ++ rest) eqn:E.
  - rewrite Index_nil. destruct sub; [reflexivity | discriminate].
  - rewrite Index_cons, <- E, HasPrefix_app. reflexivity.
Qed.

Lemma Index_field (a rest : gostring) :
  ~ In colon a -> strings.Index (a ++ colon :: rest) [colon] = Some (length a).
Proof.
  intros Ha. rewrite (Index_app_nochar a _ [] colon Ha), Index_cons.
  cbn [strings.HasPrefix]. rewrite Ascii.eqb_refl. cbn [andb option_map].
  destruct rest; cbn; now rewrite Nat.add_0_r.
Qed.

Lemma firstn_field (a rest : gostring) : firstn (length a) (a ++ rest) = a.
Proof. now rewrite firstn_app, Nat.sub_diag, firstn_all, app_nil_r. Qed.

Lemma skipn_field (a rest : gostring) (c : ascii) :
  skipn (length a + 1) (a ++ c :: rest) = rest.
Proof.
  rewrite skipn_app, (skipn_all2 a) by lia.
  replace (length a + 1 - length a) with 1 by lia. reflexivity.
Qed.

(** [SplitN header ":" 3] on a header with two colon-free fields
    followed by a tail, which may hold colons of its own. *)
Lemma SplitN_three (a b c : gostring) :
  ~ In colon a -> ~ In colon b ->
  strings.SplitN (a ++ str ":" ++ b ++ str ":" ++ c) (str ":") 3 = [a; b; c].
Proof.
  intros Ha Hb. unfold strings.SplitN, strings.genSplit, len.
  change (str ":") with [colon]. cbn [Z.eqb Z.ltb Z.compare app].
  set (s := a ++ colon :: b ++ colon :: c).
  assert (Hs : 2 <= length s).
  { subst s. rewrite length_app. cbn [length]. rewrite length_app. cbn [length]. lia. }
  destruct (Z.gtb_spec 3 (Z.of_nat (length s) + 1)); [lia|].
  change (Z.to_nat (3 - 1)) with 2. subst s. cbn [strings.genSplit_loop length].
  rewrite (Index_field a _ Ha), firstn_field, skipn_field.
  rewrite (Index_field b _ Hb), firstn_field, skipn_field.
  reflexivity.
Qed.

(** ** Slices *)

Lemma slice_ok (s : gostring) (lo hi : nat) :
  lo <= hi -> hi <= length s ->
  slice s lo hi = Returned (firstn (hi - lo) (skipn lo s)).
Proof.
  intros H1 H2. unfold slice.
  destruct (Nat.leb_spec lo hi); [|lia]. destruct (Nat.leb_spec hi (length s)); [|lia].
  reflexivity.
Qed.

Lemma slice_panics (s : gostring) (lo hi : nat) :
  hi < lo -> slice s lo hi = Panicked.
Proof.
  intros H. unfold slice. destruct (Nat.leb_spec lo hi); [lia | reflexivity].
Qed.

Lemma slice_from_ok (s : gostring) (lo : nat) :
  lo <= length s -> slice_from s lo = Returned (skipn lo s).
Proof.
  intros H. unfold slice_from. rewrite slice_ok by lia. f_equal.
  apply firstn_all2. rewrite length_skipn. lia.
Qed.

Lemma slice_to_ok (s : gostring) (hi : nat) :
  hi <= length s -> slice_to s hi = Returned (firstn hi s).
Proof.
  intros H. unfold slice_to. rewrite slice_ok by lia. now rewrite Nat.sub_0_r.
Qed.

Lemma Index_bound (s sub : gostring) (i : nat) :
  strings.Index s sub = Some i -> i + length sub <= length s.
Proof.
  intros H. apply occurs_at_bound. apply Index_Some in H. apply H.
Qed.

Lemma LastIndex_bound (s sub : gostring) (i : nat) :
  strings.LastIndex s sub = Some i -> i + length sub <= length s.
Proof.
  intros H. apply occurs_at_bound. apply LastIndex_Some in H. apply H.
Qed.

(** ** Sections of the reply *)

(** [extractSection] never panics: its slice bounds come from [Index]. *)
Lemma extractSection_eq (text hdr : gostring) :
  review.extractSection text hdr =
  Returned
    match strings.Index text hdr with
    | None => []
    | Some s =>
        match strings.Index (skipn s text) (str "$$") with
        | None => []
        | Some d =>
            match strings.Index (skipn (d + (s + 2)) text) (str "$$") with
            | None => []
            | Some e => strings.TrimSpace (firstn e (skipn (d + (s + 2)) text))
            end
        end
    end.
Proof.
  unfold review.extractSection.
  destruct (strings.Index text hdr) as [s|] eqn:Es; [|reflexivity].
  pose proof (Index_bound _ _ _ Es) as Hs.
  rewrite slice_from_ok by lia. cbn [bind].
  destruct (strings.Index (skipn s text) (str "$$")) as [d|] eqn:Ed; [|reflexivity].
  pose proof (Index_bound _ _ _ Ed) as Hd. rewrite length_skipn in Hd.
  change (length (str "$$")) with 2 in Hd.
  rewrite slice_from_ok by lia. cbn [bind].
  destruct (strings.Index (skipn (d + (s + 2)) text) (str "$$")) as [e|] eqn:Ee;
    [|reflexivity].
  pose proof (Index_bound _ _ _ Ee) as He. rewrite length_skipn in He.
  change (length (str "$$")) with 2 in He.
  rewrite slice_ok by lia. cbn [bind]. now rewrite Nat.add_sub.
Qed.

Lemma skipn_length_app (pre rest : gostring) : skipn (length pre) (pre ++ rest) = rest.
Proof. now rewrite skipn_app, skipn_all, Nat.sub_diag. Qed.

Lemma skipn_add_app (pre rest : gostring) (k : nat) :
  skipn (k + length pre) (pre ++ rest) = skipn k rest.
Proof.
  rewrite skipn_app, (skipn_all2 pre) by lia. cbn [app]. f_equal. lia.
Qed.

(** ** Fragments of the reply *)

Lemma parseBlocks_app (parts : list gostring) (acc cs : list review.ReviewComment) :
  review.parseBlocks parts acc = Returned cs ->
  cs = acc ++ flat_map commentsOf parts.
Proof.
  revert acc. induction parts as [|p parts IH]; intros acc; simpl.
  - intros [= <-]. now rewrite app_nil_r.
  - unfold commentsOf. destruct (review.parsePRCommentBlock p) as [[c|]|]; simpl.
    + intros H. apply IH in H. now rewrite <- app_assoc in H.
    + apply IH.
    + discriminate.
Qed.

Lemma parseBlocks_returns (parts : list gostring) (acc : list review.ReviewComment) :
  Forall (fun p => review.parsePRCommentBlock p <> Panicked) parts ->
  review.parseBlocks parts acc = Returned (acc ++ flat_map commentsOf parts).
Proof.
  intros H. revert acc. induction H as [|p parts Hp _ IH]; intros acc; simpl.
  - now rewrite app_nil_r.
  - unfold commentsOf. destruct (review.parsePRCommentBlock p) as [[c|]|]; simpl.
    + rewrite IH. now rewrite <- app_assoc.
    + apply IH.
    + contradiction.
Qed.

Lemma parseBlocks_panics (parts : list gostring) (acc : list review.ReviewComment) :
  Exists (fun p => review.parsePRCommentBlock p = Panicked) parts ->
  review.parseBlocks parts acc = Panicked.
Proof.
  intros H. revert acc. induction H as [p parts Hp | p parts _ IH]; intros acc; simpl.
  - now rewrite Hp.
  - destruct (review.parsePRCommentBlock p) as [[c|]|]; simpl; auto.
Qed.

Lemma parseBlocks_Panicked (parts : list gostring) (acc : list review.ReviewComment) :
  review.parseBlocks parts acc = Panicked ->
  Exists (fun p => review.parsePRCommentBlock p = Panicked) parts.
Proof.
  revert acc. induction parts as [|p parts IH]; intros acc; simpl; [discriminate|].
  destruct (review.parsePRCommentBlock p) as [[c|]|] eqn:E; simpl.
  - intros H. right. eapply IH. exact H.
  - intros H. right. eapply IH. exact H.
  - intros _. now left.
Qed.

(** The summary that [parseClaudeResponse] builds from the two sections. *)
Lemma parseClaudeResponse_eq (claudeText diff : gostring) :
  exists summary poem,
    review.extractSection claudeText (str "SUMMARY:") = Returned summary
    /\ review.extractSection claudeText (str "POEM:") = Returned poem
    /\ review.parseClaudeResponse claudeText diff =
       (comments <- review.parseBlocks (fragments claudeText) [] ;;
        Returned {|
          review.Summary :=
            review.branding ++
              (if negb (gostring_eqb poem []) then summary ++ review.poemHeading ++ poem
               else summary);
          review.Comments := comments |}).
Proof.
  unfold review.parseClaudeResponse. rewrite !extractSection_eq.
  eexists. eexists. split; [reflexivity|]. split; reflexivity.
Qed.

(** The comments of a returned result are those of the fragments, in
    the order of the fragments. *)
Lemma parseClaudeResponse_comments (claudeText diff : gostring) (r : review.ReviewResult) :
  review.parseClaudeResponse claudeText diff = Returned r ->
  review.Comments r = flat_map commentsOf (fragments claudeText).
Proof.
  destruct (parseClaudeResponse_eq claudeText diff) as (summary & poem & _ & _ & ->).
  destruct (review.parseBlocks (fragments claudeText) []) as [cs|] eqn:E; simpl;
    [|discriminate].
  intros [= <-]. simpl. now apply parseBlocks_app in E.
Qed.

(** The parser returns unless a fragment panics. *)
Lemma parseClaudeResponse_returns (claudeText diff : gostring) :
  Forall (fun p => review.parsePRCommentBlock p <> Panicked) (fragments claudeText) ->
  exists r, review.parseClaudeResponse claudeText diff = Returned r.
Proof.
  intros H.
  destruct (parseClaudeResponse_eq claudeText diff) as (summary & poem & _ & _ & ->).
  rewrite (parseBlocks_returns _ _ H). simpl. eexists. reflexivity.
Qed.

Lemma fragments_none (claudeText : gostring) :
  ~ Contains claudeText (str "PR_COMMENT:") -> fragments claudeText = [].
Proof.
  intros H. unfold fragments. apply Index_None in H. now rewrite (Split_None _ _ H).
Qed.

Lemma Sprintf_two (a b : gostring) :
  fmt.Sprintf (str "%s" ++ nl ++ nl ++ str "%s") [fmt.Str a; fmt.Str b]
  = a ++ nl ++ nl ++ b.
Proof. cbn. now rewrite app_nil_r. Qed.

(** A fragment between its first and its last delimiter: what is left
    to do is to split the header and read the line. *)
Lemma parsePRCommentBlock_cut (h m t : gostring) :
  first_at (str "$$") (delimited h m t) (length h) ->
  last_at (str "$$") (delimited h m t) (length h + 2 + length m) ->
  review.parsePRCommentBlock (delimited h m t)
  = match strings.SplitN (strings.TrimSpace h) (str ":") 3 with
    | p0 :: p1 :: p2 :: _ =>
        match strconv.Atoi (strings.TrimSpace p1) with
        | None => Returned None
        | Some n => Returned (Some (commentFor p0 n p2 m))
        end
    | _ => Returned None
    end.
Proof.
  intros Hf Hl. unfold review.parsePRCommentBlock.
  apply Index_Some in Hf. apply LastIndex_Some in Hl. rewrite Hf, Hl.
  destruct (Nat.leb_spec (length h + 2 + length m) (length h)); [lia|].
  assert (Hlen : length (delimited h m t) = length h + 2 + length m + 2 + length t).
  { unfold delimited. rewrite !length_app. change (length (str "$$")) with 2. lia. }
  rewrite slice_to_ok by lia. cbn [bind].
  rewrite slice_ok by lia. cbn [bind].
  unfold delimited at 1 2. rewrite firstn_field.
  change (str "$$" ++ m ++ str "$$" ++ t) with ("$"%char :: "$"%char :: m ++ str "$$" ++ t).
  replace (length h + 2) with (2 + length h) by lia. rewrite skipn_add_app.
  cbn [skipn]. replace (2 + length h + length m - (2 + length h)) with (length m) by lia.
  rewrite firstn_field.
  destruct (strings.SplitN (strings.TrimSpace h) (str ":") 3) as [|p0 [|p1 [|p2 ps]]];
    try reflexivity.
  destruct (strconv.Atoi (strings.TrimSpace p1)); [|reflexivity].
  now rewrite Sprintf_two.
Qed.

Lemma parsePRCommentBlock_delimited (h m t a b c : gostring) (n : Z) :
  first_at (str "$$") (delimited h m t) (length h) ->
  last_at (str "$$") (delimited h m t) (length h + 2 + length m) ->
  strings.TrimSpace h = a ++ str ":" ++ b ++ str ":" ++ c ->
  ~ In colon a -> ~ In colon b ->
  strconv.Atoi (strings.TrimSpace b) = Some n ->
  review.parsePRCommentBlock (delimited h m t) = Returned (Some (commentFor a n c m)).
Proof.
  intros Hf Hl Hh Ha Hb Hn.
  now rewrite (parsePRCommentBlock_cut h m t Hf Hl), Hh, (SplitN_three a b c Ha Hb), Hn.
Qed.

(** C1.  A fragment [h $$ m $$ t] whose delimiters are its first and its
    last, and whose trimmed header is [a:b:c] with colon-free [a] and [b]
    and an integer [b], yields one comment: the path is [a], the line is
    that integer, the side is RIGHT and the body is the category tail
    [c], an empty line and the trimmed [m]; the comment is among the
    comments of every reply that has this fragment.  The reply
    PR_COMMENT:main.go:45: (warning sign) **issue**: $$Fix this$$ yields
    exactly one comment, on main.go line 45. *)
Theorem parse_wellformed_fragment :
  (forall (h m t a b c : gostring) (n : Z),
      first_at (str "$$") (delimited h m t) (length h) ->
      last_at (str "$$") (delimited h m t) (length h + 2 + length m) ->
      strings.TrimSpace h = a ++ str ":" ++ b ++ str ":" ++ c ->
      ~ In colon a -> ~ In colon b ->
      strconv.Atoi (strings.TrimSpace b) = Some n ->
      review.parsePRCommentBlock (delimited h m t) = Returned (Some (commentFor a n c m))
      /\ forall claudeText diff r,
          review.parseClaudeResponse claudeText diff = Returned r ->
          In (delimited h m t) (fragments claudeText) ->
          In (commentFor a n c m) (review.Comments r))
  /\ review.parseClaudeResponse
       (str "PR_COMMENT:main.go:45: ⚠️ **issue**: $$Fix this$$") []
     = Returned {|
         review.Summary := review.branding;
         review.Comments :=
           [ {| review.Path := str "main.go";
                review.Line := 45;
                review.Side := str "RIGHT";
                review.Body := str "⚠️ **issue**:" ++ nl ++ nl ++ str "Fix this" |} ] |}.
Proof.
  split.
  - intros h m t a b c n Hf Hl Hh Ha Hb Hn.
    pose proof (parsePRCommentBlock_delimited h m t a b c n Hf Hl Hh Ha Hb Hn) as Hp.
    split; [exact Hp|].
    intros claudeText diff r Hr Hin.
    rewrite (parseClaudeResponse_comments _ _ _ Hr).
    apply in_flat_map. exists (delimited h m t). split; [exact Hin|].
    unfold commentsOf. rewrite Hp. now left.
  - vm_compute. reflexivity.
Qed.

Lemma parse_wellformed_fragment_witness :
  review.parsePRCommentBlock
    (delimited (str "main.go:45: ⚠️ **issue**: ") (str "Fix this") [])
  = Returned (Some (commentFor (str "main.go") 45 (str " ⚠️ **issue**:") (str "Fix this"))).
Proof.
  apply (proj1 parse_wellformed_fragment
           (str "main.go:45: ⚠️ **issue**: ") (str "Fix this") []
           (str "main.go") (str "45") (str " ⚠️ **issue**:") 45%Z).
  - apply Index_Some. vm_compute. reflexivity.
  - apply LastIndex_Some. vm_compute. reflexivity.
  - vm_compute. reflexivity.
  - vm_compute. intuition discriminate.
  - vm_compute. intuition discriminate.
  - vm_compute. reflexivity.
Defined.

Lemma skipn_past_delim (pre gap rest : gostring) :
  skipn (length gap + (length pre + 2)) (pre ++ gap ++ str "$$" ++ rest) = rest.
Proof.
  replace (length gap + (length pre + 2)) with ((length gap + 2) + length pre) by lia.
  rewrite skipn_add_app.
  replace (length gap + 2) with (2 + length gap) by lia.
  rewrite skipn_add_app. reflexivity.
Qed.

Lemma extractSection_absent (text hdr : gostring) :
  ~ Contains text hdr -> review.extractSection text hdr = Returned [].
Proof.
  intros H. apply Index_None in H. now rewrite extractSection_eq, H.
Qed.

Lemma extractSection_content (pre gap content post hdr : gostring) :
  first_at hdr (pre ++ gap ++ str "$$" ++ content ++ str "$$" ++ post) (length pre) ->
  first_at (str "$$") (gap ++ str "$$" ++ content ++ str "$$" ++ post) (length gap) ->
  first_at (str "$$") (content ++ str "$$" ++ post) (length content) ->
  review.extractSection (pre ++ gap ++ str "$$" ++ content ++ str "$$" ++ post) hdr
  = Returned (strings.TrimSpace content).
Proof.
  intros H1 H2 H3. apply Index_Some in H1, H2, H3.
  rewrite extractSection_eq, H1, skipn_length_app, H2, skipn_past_delim, H3.
  now rewrite firstn_field.
Qed.

(** For a marker without a dollar sign, the first delimiter found from
    the marker on lies after the marker. *)
Lemma extractSection_after_marker (pre hdr gap content post : gostring) :
  ~ In "$"%char hdr ->
  first_at hdr (pre ++ hdr ++ gap ++ str "$$" ++ content ++ str "$$" ++ post) (length pre) ->
  first_at (str "$$") (gap ++ str "$$" ++ content ++ str "$$" ++ post) (length gap) ->
  first_at (str "$$") (content ++ str "$$" ++ post) (length content) ->
  review.extractSection (pre ++ hdr ++ gap ++ str "$$" ++ content ++ str "$$" ++ post) hdr
  = Returned (strings.TrimSpace content).
Proof.
  intros Hhdr H1 H2 H3.
  rewrite (app_assoc hdr gap) in *.
  apply extractSection_content; [exact H1 | | exact H3].
  apply Index_Some. rewrite <- app_assoc.
  apply Index_Some in H2.
  rewrite (Index_app_nochar hdr _ ["$"%char] "$"%char Hhdr).
  change ["$"%char; "$"%char] with (str "$$"). rewrite H2. cbn [option_map].
  now rewrite length_app.
Qed.

(** C3.  [extractSection] returns the empty string when the marker does
    not occur, when no delimiter follows the first marker, and when the
    first delimiter after it is not followed by another; otherwise it
    returns the trimmed text between the first delimiter found from the
    first marker on (for SUMMARY: and POEM:, which hold no dollar sign,
    the first delimiter after the marker) and the next one.  A reply
    that has SUMMARY: $$Hello$$ at its first summary marker and no
    POEM: or PR_COMMENT: marker parses to the branding followed by
    Hello, with no comments. *)
Theorem extractSection_delimiters :
  (forall text hdr,
      ~ Contains text hdr -> review.extractSection text hdr = Returned [])
  /\ (forall pre rest hdr,
         first_at hdr (pre ++ rest) (length pre) ->
         ~ Contains rest (str "$$") ->
         review.extractSection (pre ++ rest) hdr = Returned [])
  /\ (forall pre gap rest hdr,
         first_at hdr (pre ++ gap ++ str "$$" ++ rest) (length pre) ->
         first_at (str "$$") (gap ++ str "$$" ++ rest) (length gap) ->
         ~ Contains rest (str "$$") ->
         review.extractSection (pre ++ gap ++ str "$$" ++ rest) hdr = Returned [])
  /\ (forall pre gap content post hdr,
         first_at hdr (pre ++ gap ++ str "$$" ++ content ++ str "$$" ++ post) (length pre) ->
         first_at (str "$$") (gap ++ str "$$" ++ content ++ str "$$" ++ post) (length gap) ->
         first_at (str "$$") (content ++ str "$$" ++ post) (length content) ->
         review.extractSection (pre ++ gap ++ str "$$" ++ content ++ str "$$" ++ post) hdr
         = Returned (strings.TrimSpace content))
  /\ (forall pre hdr gap content post,
         hdr = str "SUMMARY:" \/ hdr = str "POEM:" ->
         first_at hdr (pre ++ hdr ++ gap ++ str "$$" ++ content ++ str "$$" ++ post)
           (length pre) ->
         first_at (str "$$") (gap ++ str "$$" ++ content ++ str "$$" ++ post) (length gap) ->
         first_at (str "$$") (content ++ str "$$" ++ post) (length content) ->
         review.extractSection
           (pre ++ hdr ++ gap ++ str "$$" ++ content ++ str "$$" ++ post) hdr
         = Returned (strings.TrimSpace content))
  /\ (forall pre post diff,
         first_at (str "SUMMARY:") (pre ++ str "SUMMARY: $$Hello$$" ++ post) (length pre) ->
         ~ Contains (pre ++ str "SUMMARY: $$Hello$$" ++ post) (str "POEM:") ->
         ~ Contains (pre ++ str "SUMMARY: $$Hello$$" ++ post) (str "PR_COMMENT:") ->
         review.parseClaudeResponse (pre ++ str "SUMMARY: $$Hello$$" ++ post) diff
         = Returned {| review.Summary := review.branding ++ str "Hello";
                       review.Comments := [] |}).
Proof.
  split; [exact extractSection_absent|].
  split.
  { intros pre rest hdr H1 H2. apply Index_Some in H1. apply Index_None in H2.
    now rewrite extractSection_eq, H1, skipn_length_app, H2. }
  split.
  { intros pre gap rest hdr H1 H2 H3.
    apply Index_Some in H1, H2. apply Index_None in H3.
    now rewrite extractSection_eq, H1, skipn_length_app, H2, skipn_past_delim, H3. }
  split; [exact extractSection_content|].
  split.
  { intros pre hdr gap content post Hhdr. apply extractSection_after_marker.
    destruct Hhdr as [-> | ->]; vm_compute; intuition discriminate. }
  intros pre post diff H1 H2 H3.
  destruct (parseClaudeResponse_eq (pre ++ str "SUMMARY: $$Hello$$" ++ post) diff)
    as (summary & poem & Hs & Hp & ->).
  rewrite (fragments_none _ H3). cbn [review.parseBlocks bind].
  rewrite (extractSection_absent _ _ H2) in Hp. injection Hp as <-.
  change (pre ++ str "SUMMARY: $$Hello$$" ++ post)
    with (pre ++ str "SUMMARY: " ++ str "$$" ++ str "Hello" ++ str "$$" ++ post) in Hs, H1.
  rewrite extractSection_content in Hs.
  - injection Hs as <-. reflexivity.
  - exact H1.
  - apply Index_Some. vm_compute. reflexivity.
  - apply Index_Some. vm_compute. reflexivity.
Qed.

Lemma extractSection_delimiters_witness :
  review.extractSection (str "Intro. SUMMARY: $$ Hello $$ and POEM: $$x") (str "SUMMARY:")
  = Returned (str "Hello")
  /\ review.extractSection (str "Intro. SUMMARY: $$ Hello $$ and POEM: $$x") (str "POEM:")
     = Returned []
  /\ review.extractSection (str "Intro. SUMMARY: Hello") (str "SUMMARY:") = Returned []
  /\ review.extractSection (str "Intro.") (str "SUMMARY:") = Returned []
  /\ review.extractSection (str "POEM: $$ Roses $$ SUMMARY: $$ Fine $$") (str "SUMMARY:")
     = Returned (str "Fine")
  /\ review.parseClaudeResponse (str "Intro. " ++ str "SUMMARY: $$Hello$$" ++ str " Bye.") []
     = Returned {| review.Summary := review.branding ++ str "Hello";
                   review.Comments := [] |}.
Proof.
  destruct extractSection_delimiters as (H1 & H2 & H3 & H4 & H5 & H6).
  split; [|split; [|split; [|split; [|split]]]].
  - apply (H4 (str "Intro. ") (str "SUMMARY: ") (str " Hello ") (str " and POEM: $$x")
              (str "SUMMARY:")); apply Index_Some; vm_compute; reflexivity.
  - apply (H3 (str "Intro. SUMMARY: $$ Hello $$ and ") (str "POEM: ") (str "x") (str "POEM:")).
    + apply Index_Some. vm_compute. reflexivity.
    + apply Index_Some. vm_compute. reflexivity.
    + apply Index_None. vm_compute. reflexivity.
  - apply (H2 (str "Intro. ") (str "SUMMARY: Hello") (str "SUMMARY:")).
    + apply Index_Some. vm_compute. reflexivity.
    + apply Index_None. vm_compute. reflexivity.
  - apply H1. apply Index_None. vm_compute. reflexivity.
  - apply (H5 (str "POEM: $$ Roses $$ ") (str "SUMMARY:") (str " ") (str " Fine ") []).
    + left. reflexivity.
    + apply Index_Some. vm_compute. reflexivity.
    + apply Index_Some. vm_compute. reflexivity.
    + apply Index_Some. vm_compute. reflexivity.
  - apply (H6 (str "Intro. ") (str " Bye.") []).
    + apply Index_Some. vm_compute. reflexivity.
    + apply Index_None. vm_compute. reflexivity.
    + apply Index_None. vm_compute. reflexivity.
Defined.

(** ** Line numbers *)

Lemma digit_isDigit (c : ascii) (d : Z) : strconv.digit c = Some d -> isDigit c.
Proof.
  unfold strconv.digit, isDigit.
  destruct (Nat.leb_spec 48 (nat_of_ascii c)); simpl; [|discriminate].
  destruct (Nat.leb_spec (nat_of_ascii c) 57); [|discriminate]. lia.
Qed.

Lemma digits_Forall (s : gostring) (n v : Z) :
  strconv.digits n s = Some v -> Forall isDigit s.
Proof.
  revert n. induction s as [|c s IH]; intros n; simpl; [constructor|].
  destruct (strconv.digit c) as [d|] eqn:E; [|discriminate].
  intros H. constructor; [eapply digit_isDigit; eassumption | eapply IH; eassumption].
Qed.

Lemma Atoi_digits (neg : bool) (ds : gostring) (v : Z) :
  match ds with
  | [] => None
  | _ :: _ =>
      match strconv.digits 0 ds with
      | None => None
      | Some n =>
          let v := if neg then (- n)%Z else n in
          if (minInt <=? v)%Z && (v <=? maxInt)%Z then Some v else None
      end
  end = Some v ->
  ds <> [] /\ Forall isDigit ds /\ (minInt <= v <= maxInt)%Z.
Proof.
  destruct ds as [|c ds]; [discriminate|].
  destruct (strconv.digits 0 (c :: ds)) as [n|] eqn:E; [|discriminate].
  cbv zeta. destruct (Z.leb_spec minInt (if neg then (- n)%Z else n)); simpl; [|discriminate].
  destruct (Z.leb_spec (if neg then (- n)%Z else n) maxInt); [|discriminate].
  intros [= <-]. split; [discriminate|]. split; [eapply digits_Forall; eassumption | lia].
Qed.

(** [Atoi] accepts signed decimals within the range of [int] only. *)
Lemma Atoi_Some (s : gostring) (v : Z) :
  strconv.Atoi s = Some v -> signedDecimal s /\ (minInt <= v <= maxInt)%Z.
Proof.
  unfold strconv.Atoi. destruct s as [|c r]; [discriminate|].
  destruct (Ascii.eqb c "-") eqn:Em; [|destruct (Ascii.eqb c "+") eqn:Ep].
  - apply Ascii.eqb_eq in Em. subst c. intros H.
    apply (Atoi_digits true) in H as (H1 & H2 & H3). split; [|exact H3].
    exists (str "-"), r. auto.
  - apply Ascii.eqb_eq in Ep. subst c. intros H.
    apply (Atoi_digits false) in H as (H1 & H2 & H3). split; [|exact H3].
    exists (str "+"), r. auto 6.
  - intros H. apply (Atoi_digits false (c :: r)) in H as (H1 & H2 & H3). split; [|exact H3].
    exists [], (c :: r). auto.
Qed.

Lemma parsePRCommentBlock_Some (block : gostring) (c : review.ReviewComment) :
  review.parsePRCommentBlock block = Returned (Some c) ->
  review.Side c = str "RIGHT"
  /\ exists field, strconv.Atoi field = Some (review.Line c).
Proof.
  unfold review.parsePRCommentBlock.
  destruct (strings.Index block (str "$$")) as [i|]; [|discriminate].
  destruct (strings.LastIndex block (str "$$")) as [j|]; [|discriminate].
  destruct (j <=? i); [discriminate|].
  destruct (slice_to block i) as [header|]; [|discriminate]. cbn [bind].
  destruct (slice block (i + 2) j) as [content|]; [|discriminate]. cbn [bind].
  destruct (strings.SplitN (strings.TrimSpace header) (str ":") 3)
    as [|p0 [|p1 [|p2 ps]]]; try discriminate.
  destruct (strconv.Atoi (strings.TrimSpace p1)) as [n|] eqn:E; [|discriminate].
  intros [= <-]. simpl. split; [reflexivity|]. now exists (strings.TrimSpace p1).
Qed.

(** A fragment panics exactly when its first and its last delimiter
    overlap, as in a lone run of three dollar signs. *)
Lemma parsePRCommentBlock_Panicked (block : gostring) :
  review.parsePRCommentBlock block = Panicked <->
  exists i, strings.Index block (str "$$") = Some i
            /\ strings.LastIndex block (str "$$") = Some (S i).
Proof.
  unfold review.parsePRCommentBlock.
  destruct (strings.Index block (str "$$")) as [i|] eqn:Ei.
  2:{ split; [discriminate | intros (i & H & _); discriminate]. }
  destruct (strings.LastIndex block (str "$$")) as [j|] eqn:Ej.
  2:{ split; [discriminate | intros (k & _ & H); discriminate]. }
  pose proof (Index_bound _ _ _ Ei) as Hi. pose proof (LastIndex_bound _ _ _ Ej) as Hj.
  change (length (str "$$")) with 2 in Hi, Hj.
  destruct (Nat.leb_spec j i) as [Hle | Hlt].
  { split; [discriminate|]. intros (k & [= <-] & [= ->]). lia. }
  rewrite slice_to_ok by lia. cbn [bind].
  destruct (Nat.eq_dec j (S i)) as [-> | Hne].
  - rewrite slice_panics by lia. cbn [bind]. split; [|reflexivity].
    intros _. now exists i.
  - rewrite slice_ok by lia. cbn [bind]. split.
    + destruct (strings.SplitN _ _ _) as [|p0 [|p1 [|p2 ps]]]; try discriminate.
      destruct (strconv.Atoi _); discriminate.
    + intros (k & [= <-] & [= ->]). contradiction.
Qed.

(** The first colon of a string cuts it into a colon-free field and
    the rest. *)
Lemma Index_colon_Some (s : gostring) (i : nat) :
  strings.Index s [colon] = Some i ->
  exists a rest, s = a ++ colon :: rest /\ length a = i /\ ~ In colon a.
Proof.
  revert i. induction s as [|c s IH]; intros i; [discriminate|].
  rewrite Index_cons. cbn [strings.HasPrefix]. rewrite andb_true_r.
  destruct (Ascii.eqb c colon) eqn:E.
  - intros [= <-]. apply Ascii.eqb_eq in E. subst c.
    exists [], s. split; [reflexivity|]. split; [reflexivity | intros []].
  - destruct (strings.Index s [colon]) as [k|]; [|discriminate].
    intros [= <-]. destruct (IH k eq_refl) as (a & rest & -> & Ha & Hn).
    exists (c :: a), rest. split; [reflexivity|]. split; [simpl; lia|].
    intros [-> | Hin]; [|contradiction]. now rewrite Ascii.eqb_refl in E.
Qed.

Lemma genSplit_loop_length (k : nat) (s sep : gostring) :
  length (strings.genSplit_loop k s sep) <= S k.
Proof.
  revert s. induction k as [|k IH]; intros s; cbn [strings.genSplit_loop]; [simpl; lia|].
  destruct (strings.Index s sep); [|simpl; lia].
  cbn [length]. specialize (IH (skipn (n + length sep) s)). lia.
Qed.

(** Three parts of a header are two colon-free fields and a tail: the
    converse of [SplitN_three]. *)
Lemma SplitN_three_inv (s p0 p1 p2 : gostring) (ps : list gostring) :
  strings.SplitN s (str ":") 3 = p0 :: p1 :: p2 :: ps ->
  ps = [] /\ s = p0 ++ str ":" ++ p1 ++ str ":" ++ p2 /\ ~ In colon p0 /\ ~ In colon p1.
Proof.
  unfold strings.SplitN, strings.genSplit, len.
  change (str ":") with [colon]. cbn [Z.eqb Z.ltb Z.compare].
  destruct (Z.gtb_spec 3 (Z.of_nat (length s) + 1)) as [Hlt | Hge].
  { intros H. apply (f_equal (@length gostring)) in H.
    pose proof (genSplit_loop_length (Z.to_nat (Z.of_nat (length s) + 1 - 1)) s [colon]).
    cbn [length] in H. lia. }
  change (Z.to_nat (3 - 1)) with 2. cbn [strings.genSplit_loop length].
  destruct (strings.Index s [colon]) as [i|] eqn:Ei; [|discriminate].
  destruct (Index_colon_Some s i Ei) as (a & rest & -> & <- & Ha).
  rewrite firstn_field, skipn_field.
  destruct (strings.Index rest [colon]) as [j|] eqn:Ej; [|discriminate].
  destruct (Index_colon_Some rest j Ej) as (b & tail & -> & <- & Hb).
  rewrite firstn_field, skipn_field. intros [= <- <- <- <-].
  repeat split; assumption.
Qed.

(** A fragment that gives a comment is a header, a body between its
    first and its last delimiter, and a rest; the header, trimmed, is
    two colon-free fields and a tail, and the line of the comment is
    what [Atoi] reads from the second field, trimmed: the converse of
    C1. *)
Lemma parsePRCommentBlock_Some_inv (block : gostring) (c : review.ReviewComment) :
  review.parsePRCommentBlock block = Returned (Some c) ->
  exists h m t a b tail,
    block = delimited h m t
    /\ first_at (str "$$") (delimited h m t) (length h)
    /\ last_at (str "$$") (delimited h m t) (length h + 2 + length m)
    /\ strings.TrimSpace h = a ++ str ":" ++ b ++ str ":" ++ tail
    /\ ~ In colon a /\ ~ In colon b
    /\ strconv.Atoi (strings.TrimSpace b) = Some (review.Line c)
    /\ c = commentFor a (review.Line c) tail m.
Proof.
  intros H.
  assert (Hd : exists h m t,
             block = delimited h m t
             /\ first_at (str "$$") block (length h)
             /\ last_at (str "$$") block (length h + 2 + length m)).
  { unfold review.parsePRCommentBlock in H.
    destruct (strings.Index block (str "$$")) as [i|] eqn:Ei; [|discriminate].
    destruct (strings.LastIndex block (str "$$")) as [j|] eqn:Ej; [|discriminate].
    pose proof (Index_bound _ _ _ Ei) as Hi. pose proof (LastIndex_bound _ _ _ Ej) as Hj.
    change (length (str "$$")) with 2 in Hi, Hj.
    destruct (Nat.leb_spec j i) as [Hle | Hlt]; [discriminate|].
    rewrite slice_to_ok in H by lia. cbn [bind] in H.
    destruct (Nat.eq_dec j (S i)) as [-> | Hne].
    { rewrite slice_panics in H by lia. discriminate H. }
    apply Index_Some in Ei. apply LastIndex_Some in Ej.
    destruct Ei as [(pre & post & E1 & L1) Hfirst].
    destruct Ej as [(pre' & post' & E2 & L2) Hlast].
    assert (Hpre : pre' = pre ++ str "$$" ++ skipn (i + 2) pre').
    { rewrite <- (firstn_skipn (i + 2) pre') at 1.
      replace (firstn (i + 2) pre') with (firstn (i + 2) block).
      - rewrite E1. replace (i + 2) with (length (pre ++ str "$$"))
          by (rewrite length_app, L1; reflexivity).
        rewrite app_assoc, firstn_field. now rewrite <- app_assoc.
      - rewrite E2, firstn_app. replace (i + 2 - length pre') with 0 by lia.
        cbn [firstn]. now rewrite app_nil_r. }
    exists pre, (skipn (i + 2) pre'), post'. split; [|split].
    - unfold delimited. rewrite E2, Hpre at 1. now rewrite <- !app_assoc.
    - rewrite L1. split; [now exists pre, post | exact Hfirst].
    - rewrite L1, length_skipn, L2. replace (i + 2 + (j - (i + 2))) with j by lia.
      split; [now exists pre', post' | exact Hlast]. }
  destruct Hd as (h & m & t & -> & Hf & Hl).
  rewrite (parsePRCommentBlock_cut h m t Hf Hl) in H.
  destruct (strings.SplitN (strings.TrimSpace h) (str ":") 3)
    as [|p0 [|p1 [|p2 ps]]] eqn:Es; try discriminate.
  destruct (strconv.Atoi (strings.TrimSpace p1)) as [n|] eqn:En; [|discriminate].
  injection H as <-.
  apply SplitN_three_inv in Es as (_ & Eh & Ha & Hb).
  exists h, m, t, p0, p1, p2. cbn [commentFor review.Line].
  split; [reflexivity|]. split; [exact Hf|]. split; [exact Hl|]. split; [exact Eh|].
  split; [exact Ha|]. split; [exact Hb|]. split; [exact En | reflexivity].
Qed.

Lemma range_not_signedDecimal : ~ signedDecimal (str "75-82").
Proof.
  intros (sign & ds & E & Hs & Hne & Hd).
  assert (Hin : In "-"%char ds).
  { destruct Hs as [-> | [-> | ->]]; cbn [app str list_ascii_of_string] in E.
    - rewrite <- E. cbn. tauto.
    - discriminate E.
    - discriminate E. }
  rewrite Forall_forall in Hd. apply Hd in Hin. unfold isDigit in Hin. cbn in Hin. lia.
Qed.

(** C8, as the code has it.  Every comment of a returned result has the
    side RIGHT and comes from a fragment of the reply whose header,
    trimmed, is two colon-free fields and a tail; its line is the value
    [Atoi] reads from the second field, trimmed, which is a single
    signed decimal and lies in the range of [int].  A fragment whose
    second field is not a signed decimal, such as the range 75-82, is
    dropped.  The line may be negative or zero. *)
Theorem parsed_comment_side_and_line :
  (forall claudeText diff r c,
      review.parseClaudeResponse claudeText diff = Returned r ->
      In c (review.Comments r) ->
      review.Side c = str "RIGHT"
      /\ (minInt <= review.Line c <= maxInt)%Z
      /\ exists h m t a b tail,
          In (delimited h m t) (fragments claudeText)
          /\ first_at (str "$$") (delimited h m t) (length h)
          /\ last_at (str "$$") (delimited h m t) (length h + 2 + length m)
          /\ strings.TrimSpace h = a ++ str ":" ++ b ++ str ":" ++ tail
          /\ ~ In colon a /\ ~ In colon b
          /\ signedDecimal (strings.TrimSpace b)
          /\ strconv.Atoi (strings.TrimSpace b) = Some (review.Line c)
          /\ c = commentFor a (review.Line c) tail m)
  /\ (forall h m t a b tail,
         first_at (str "$$") (delimited h m t) (length h) ->
         last_at (str "$$") (delimited h m t) (length h + 2 + length m) ->
         strings.TrimSpace h = a ++ str ":" ++ b ++ str ":" ++ tail ->
         ~ In colon a -> ~ In colon b ->
         ~ signedDecimal (strings.TrimSpace b) ->
         review.parsePRCommentBlock (delimited h m t) = Returned None
         /\ forall claudeText diff r,
             review.parseClaudeResponse claudeText diff = Returned r ->
             fragments claudeText = [delimited h m t] ->
             review.Comments r = [])
  /\ (~ signedDecimal (str "75-82")
      /\ review.parseClaudeResponse
           (str "PR_COMMENT:main.go:75-82: note: $$Fix this$$") []
         = Returned {| review.Summary := review.branding; review.Comments := [] |})
  /\ review.parseClaudeResponse (str "PR_COMMENT:main.go:-3: note: $$Fix this$$") []
     = Returned {| review.Summary := review.branding;
                   review.Comments :=
                     [commentFor (str "main.go") (-3) (str "note:") (str "Fix this")] |}.
Proof.
  split; [|split; [|split]].
  - intros claudeText diff r c Hr Hc.
    rewrite (parseClaudeResponse_comments _ _ _ Hr) in Hc.
    apply in_flat_map in Hc as (block & Hblock & Hc). unfold commentsOf in Hc.
    destruct (review.parsePRCommentBlock block) as [[c'|]|] eqn:E; try contradiction.
    destruct Hc as [-> | []].
    destruct (parsePRCommentBlock_Some_inv _ _ E)
      as (h & m & t & a & b & tail & -> & Hf & Hl & Hh & Ha & Hb & Hn & Hcomment).
    pose proof (Atoi_Some _ _ Hn) as [Hdec Hrange].
    split; [rewrite Hcomment; reflexivity|]. split; [exact Hrange|].
    exists h, m, t, a, b, tail.
    split; [exact Hblock|]. split; [exact Hf|]. split; [exact Hl|]. split; [exact Hh|].
    split; [exact Ha|]. split; [exact Hb|]. split; [exact Hdec|]. split; assumption.
  - intros h m t a b tail Hf Hl Hh Ha Hb Hdec.
    assert (Hp : review.parsePRCommentBlock (delimited h m t) = Returned None).
    { rewrite (parsePRCommentBlock_cut h m t Hf Hl), Hh, (SplitN_three a b tail Ha Hb).
      destruct (strconv.Atoi (strings.TrimSpace b)) as [n|] eqn:En; [|reflexivity].
      exfalso. apply Hdec. now apply (Atoi_Some _ n). }
    split; [exact Hp|]. intros claudeText diff r Hr Hfr.
    rewrite (parseClaudeResponse_comments _ _ _ Hr), Hfr. cbn [flat_map].
    unfold commentsOf. now rewrite Hp.
  - split; [exact range_not_signedDecimal | vm_compute; reflexivity].
  - vm_compute. reflexivity.
Qed.

Lemma parsed_comment_side_and_line_witness :
  review.Side (commentFor (str "main.go") 45 (str "issue:") (str "Fix this")) = str "RIGHT"
  /\ (minInt <= review.Line (commentFor (str "main.go") 45 (str "issue:") (str "Fix this"))
      <= maxInt)%Z
  /\ exists h m t a b tail,
      In (delimited h m t) (fragments (str "PR_COMMENT:main.go:45: issue: $$Fix this$$"))
      /\ first_at (str "$$") (delimited h m t) (length h)
      /\ last_at (str "$$") (delimited h m t) (length h + 2 + length m)
      /\ strings.TrimSpace h = a ++ str ":" ++ b ++ str ":" ++ tail
      /\ ~ In colon a /\ ~ In colon b
      /\ signedDecimal (strings.TrimSpace b)
      /\ strconv.Atoi (strings.TrimSpace b)
         = Some (review.Line (commentFor (str "main.go") 45 (str "issue:") (str "Fix this")))
      /\ commentFor (str "main.go") 45 (str "issue:") (str "Fix this")
         = commentFor a
             (review.Line (commentFor (str "main.go") 45 (str "issue:") (str "Fix this")))
             tail m.
Proof.
  apply (proj1 parsed_comment_side_and_line
           (str "PR_COMMENT:main.go:45: issue: $$Fix this$$") []
           {| review.Summary := review.branding;
              review.Comments :=
                [commentFor (str "main.go") 45 (str "issue:") (str "Fix this")] |}
           (commentFor (str "main.go") 45 (str "issue:") (str "Fix this"))).
  - vm_compute. reflexivity.
  - simpl. left. reflexivity.
Defined.

(** C8 fails as stated: a line field of 0 is accepted, and the comment
    carries the line 0, which is not positive. *)
Lemma parsed_line_not_positive :
  review.parseClaudeResponse (str "PR_COMMENT:main.go:0: note: $$Fix this$$") []
  = Returned {| review.Summary := review.branding;
                review.Comments :=
                  [commentFor (str "main.go") 0 (str "note:") (str "Fix this")] |}
  /\ ~ (0 < review.Line (commentFor (str "main.go") 0 (str "note:") (str "Fix this")))%Z.
Proof.
  split; [vm_compute; reflexivity | simpl; lia].
Qed.

(** C10.  Whenever [parseClaudeResponse] returns, the summary is the
    branding header followed by the rest, so it is never empty; it fails
    to return only when a fragment panics.  Without any of the three
    markers it returns the branding header alone and no comments. *)
Theorem summary_starts_with_branding :
  (forall claudeText diff,
      match review.parseClaudeResponse claudeText diff with
      | Returned r =>
          (exists rest, review.Summary r = review.branding ++ rest)
          /\ review.Summary r <> []
      | Panicked =>
          Exists (fun p => review.parsePRCommentBlock p = Panicked) (fragments claudeText)
      end)
  /\ (forall claudeText diff,
         ~ Contains claudeText (str "SUMMARY:") ->
         ~ Contains claudeText (str "POEM:") ->
         ~ Contains claudeText (str "PR_COMMENT:") ->
         review.parseClaudeResponse claudeText diff
         = Returned {| review.Summary := review.branding; review.Comments := [] |}).
Proof.
  split.
  - intros claudeText diff.
    destruct (parseClaudeResponse_eq claudeText diff) as (summary & poem & _ & _ & ->).
    destruct (review.parseBlocks (fragments claudeText) []) as [cs|] eqn:E; cbn [bind].
    + cbn [review.Summary]. split; [eexists; reflexivity | discriminate].
    + eapply parseBlocks_Panicked. exact E.
  - intros claudeText diff Hs Hp Hc.
    destruct (parseClaudeResponse_eq claudeText diff) as (summary & poem & Es & Ep & ->).
    rewrite (extractSection_absent _ _ Hs) in Es. injection Es as <-.
    rewrite (extractSection_absent _ _ Hp) in Ep. injection Ep as <-.
    rewrite (fragments_none _ Hc). cbn [review.parseBlocks bind gostring_eqb negb].
    now rewrite app_nil_r.
Qed.

Lemma summary_starts_with_branding_witness :
  review.parseClaudeResponse (str "Error generating AI review") []
  = Returned {| review.Summary := review.branding; review.Comments := [] |}.
Proof.
  apply (proj2 summary_starts_with_branding (str "Error generating AI review") []);
    apply Index_None; vm_compute; reflexivity.
Defined.

(** ** Fragments that are dropped *)

Lemma Index_colon_free (a : gostring) : ~ In colon a -> strings.Index a [colon] = None.
Proof.
  intros Ha. rewrite <- (app_nil_r a) at 1.
  now rewrite (Index_app_nochar a [] [] colon Ha).
Qed.

Lemma genSplit_loop_colon_free (k : nat) (a : gostring) :
  ~ In colon a -> strings.genSplit_loop k a [colon] = [a].
Proof.
  intros Ha. destruct k; cbn [strings.genSplit_loop]; [reflexivity|].
  now rewrite (Index_colon_free a Ha).
Qed.

(** A header without a colon gives one part, a header with one colon
    gives two. *)
Lemma SplitN_fewer (a b : gostring) :
  ~ In colon a -> ~ In colon b ->
  strings.SplitN a (str ":") 3 = [a]
  /\ strings.SplitN (a ++ str ":" ++ b) (str ":") 3 = [a; b].
Proof.
  intros Ha Hb. unfold strings.SplitN, strings.genSplit, len.
  change (str ":") with [colon]. cbn [Z.eqb Z.ltb Z.compare app]. split.
  - destruct (3 >? Z.of_nat (length a) + 1)%Z; now apply genSplit_loop_colon_free.
  - set (s := a ++ colon :: b).
    assert (Hs : 1 <= length s) by (subst s; rewrite length_app; cbn [length]; lia).
    assert (Hk : exists k,
               Z.to_nat ((if (3 >? Z.of_nat (length s) + 1)%Z
                          then Z.of_nat (length s) + 1 else 3) - 1) = S k).
    { destruct (Z.gtb_spec 3 (Z.of_nat (length s) + 1)).
      - exists (length s - 1). lia.
      - exists 1. reflexivity. }
    destruct Hk as [k ->]. subst s. cbn [strings.genSplit_loop length].
    rewrite (Index_field a _ Ha), firstn_field, skipn_field.
    now rewrite (genSplit_loop_colon_free k b Hb).
Qed.

(** What the parser drops: a fragment without a delimiter or with a
    single one, a delimited fragment whose header has fewer than three
    parts, and one whose line field [Atoi] rejects. *)
Lemma parsePRCommentBlock_dropped :
  (forall block,
      ~ Contains block (str "$$") -> review.parsePRCommentBlock block = Returned None)
  /\ (forall block i,
         first_at (str "$$") block i -> last_at (str "$$") block i ->
         review.parsePRCommentBlock block = Returned None)
  /\ (forall h m t,
         first_at (str "$$") (delimited h m t) (length h) ->
         last_at (str "$$") (delimited h m t) (length h + 2 + length m) ->
         length (strings.SplitN (strings.TrimSpace h) (str ":") 3) < 3 ->
         review.parsePRCommentBlock (delimited h m t) = Returned None)
  /\ (forall h m t a b c,
         first_at (str "$$") (delimited h m t) (length h) ->
         last_at (str "$$") (delimited h m t) (length h + 2 + length m) ->
         strings.TrimSpace h = a ++ str ":" ++ b ++ str ":" ++ c ->
         ~ In colon a -> ~ In colon b ->
         strconv.Atoi (strings.TrimSpace b) = None ->
         review.parsePRCommentBlock (delimited h m t) = Returned None).
Proof.
  split; [|split; [|split]].
  - intros block H. apply Index_None in H. unfold review.parsePRCommentBlock.
    now rewrite H.
  - intros block i Hf Hl. apply Index_Some in Hf. apply LastIndex_Some in Hl.
    unfold review.parsePRCommentBlock. rewrite Hf, Hl, Nat.leb_refl. reflexivity.
  - intros h m t Hf Hl Hparts. rewrite (parsePRCommentBlock_cut h m t Hf Hl).
    destruct (strings.SplitN (strings.TrimSpace h) (str ":") 3) as [|p0 [|p1 [|p2 ps]]];
      try reflexivity.
    simpl in Hparts. lia.
  - intros h m t a b c Hf Hl Hh Ha Hb Hn. rewrite (parsePRCommentBlock_cut h m t Hf Hl), Hh.
    now rewrite (SplitN_three a b c Ha Hb), Hn.
Qed.

(** The parser panics exactly when the delimiters of some fragment
    overlap. *)
Lemma parseClaudeResponse_Panicked (claudeText diff : gostring) :
  review.parseClaudeResponse claudeText diff = Panicked <->
  Exists (fun block =>
            exists i, first_at (str "$$") block i /\ last_at (str "$$") block (S i))
    (fragments claudeText).
Proof.
  destruct (parseClaudeResponse_eq claudeText diff) as (summary & poem & _ & _ & ->).
  split.
  - destruct (review.parseBlocks (fragments claudeText) []) as [cs|] eqn:E; cbn [bind];
      [discriminate|].
    intros _. apply parseBlocks_Panicked in E. revert E. apply Exists_impl.
    intros block Hb. apply parsePRCommentBlock_Panicked in Hb as (i & Hi & Hl).
    exists i. split; [now apply Index_Some | now apply LastIndex_Some].
  - intros H. rewrite parseBlocks_panics; [reflexivity|].
    revert H. apply Exists_impl. intros block (i & Hi & Hl).
    apply parsePRCommentBlock_Panicked. exists i.
    split; [now apply Index_Some | now apply LastIndex_Some].
Qed.

(** C2 at the failing input.  The second fragment holds a single run of
    three dollar signs, that is one delimiter only: instead of dropping
    it and keeping the comment of the first fragment, the parser panics
    on the slice [block[startDelim+2:endDelim]]. *)
Theorem parse_overlapping_delimiters :
  review.parseClaudeResponse
    (str "PR_COMMENT:a.go:1: ok: $$fine$$ PR_COMMENT:b.go:2: note: $$$") []
  = Panicked
  /\ fragments (str "PR_COMMENT:a.go:1: ok: $$fine$$ PR_COMMENT:b.go:2: note: $$$")
     = [str "a.go:1: ok: $$fine$$ "; str "b.go:2: note: $$$"]
  /\ strings.Count (str "b.go:2: note: $$$") (str "$$") = 1
  /\ commentsOf (str "a.go:1: ok: $$fine$$ ")
     = [commentFor (str "a.go") 1 (str "ok:") (str "fine")].
Proof.
  repeat split; vm_compute; reflexivity.
Qed.

Lemma Index_Contains (s sub : gostring) (i : nat) :
  strings.Index s sub = Some i -> Contains s sub.
Proof. intros H. exists i. apply Index_Some in H. apply H. Qed.

(** ** The event filter *)

(** C5.  A draft is never reviewed, whatever the action; a pull request
    that is not a draft is reviewed exactly for the actions opened and
    ready_for_review, so not for synchronize nor for any other action. *)
Theorem shouldTriggerReview_policy :
  (forall action pr, bot.GetDraft pr = true -> bot.shouldTriggerReview action pr = false)
  /\ (forall action pr,
         bot.GetDraft pr = false ->
         (bot.shouldTriggerReview action pr = true
          <-> action = str "opened" \/ action = str "ready_for_review"))
  /\ (forall pr, bot.shouldTriggerReview (str "synchronize") pr = false).
Proof.
  split; [|split].
  - intros action pr H. unfold bot.shouldTriggerReview. now rewrite H.
  - intros action pr H. unfold bot.shouldTriggerReview. rewrite H.
    destruct (gostring_eqb action (str "opened")) eqn:E1.
    { apply gostring_eqb_eq in E1. tauto. }
    destruct (gostring_eqb action (str "ready_for_review")) eqn:E2.
    { apply gostring_eqb_eq in E2. tauto. }
    apply gostring_eqb_neq in E1, E2.
    destruct (gostring_eqb action (str "synchronize")); split;
      try discriminate; intros [?|?]; contradiction.
  - intros pr. unfold bot.shouldTriggerReview. destruct (bot.GetDraft pr); reflexivity.
Qed.

Lemma shouldTriggerReview_policy_witness :
  bot.shouldTriggerReview (str "opened")
    (Some {| bot.Draft := Some true; bot.Number := Some 7%Z; bot.Title := None;
             bot.Body := None; bot.ChangedFiles := None; bot.Additions := None;
             bot.Deletions := None |}) = false
  /\ (bot.shouldTriggerReview (str "closed") None = true
      <-> str "closed" = str "opened" \/ str "closed" = str "ready_for_review").
Proof.
  split.
  - apply (proj1 shouldTriggerReview_policy). reflexivity.
  - apply (proj1 (proj2 shouldTriggerReview_policy)). reflexivity.
Defined.

(** ** The size gate *)

Lemma wrap_in_range (z : Z) : (minInt <= z <= maxInt)%Z -> wrap z = z.
Proof.
  unfold wrap, minInt, maxInt. intros H.
  rewrite Z.mod_small by lia. lia.
Qed.

(** A format that starts with a hash sign gives a non-empty text. *)
Lemma Sprintf_hash (format : gostring) (args : list fmt.arg) :
  strings.HasPrefix format (str "#") = true -> fmt.Sprintf format args <> [].
Proof.
  destruct format as [|c rest]; [discriminate|]. cbn [strings.HasPrefix str list_ascii_of_string].
  rewrite andb_true_r. intros H. apply Ascii.eqb_eq in H. subst c.
  cbn [fmt.Sprintf]. change (Ascii.eqb "#" "%") with false. cbn iota. discriminate.
Qed.

(** [checkPRSize], with the three skip verdicts named. *)
Lemma checkPRSize_skips (pr : option bot.PullRequest) :
  bot.checkPRSize pr =
  if (bot.GetChangedFiles pr >? 25)%Z then
    skipVerdict (filesExceeded (bot.GetChangedFiles pr))
  else if (bot.GetAdditions pr >? 800)%Z then
    skipVerdict (additionsExceeded (bot.GetAdditions pr))
  else if (int_add (bot.GetAdditions pr) (bot.GetDeletions pr) >? 1200)%Z then
    skipVerdict (totalExceeded (int_add (bot.GetAdditions pr) (bot.GetDeletions pr))
                   (bot.GetAdditions pr) (bot.GetDeletions pr))
  else
    {| review.ShouldReview := true;
       review.WarningMessage := review.WarningMessage (bot.checkPRSize pr);
       review.SkipMessage := [] |}.
Proof.
  unfold bot.checkPRSize, skipVerdict, filesExceeded, additionsExceeded, totalExceeded.
  change config.MAX_FILES_FOR_REVIEW with 25%Z.
  change config.MAX_ADDITIONS_FOR_REVIEW with 800%Z.
  change config.MAX_TOTAL_CHANGES with 1200%Z.
  destruct (bot.GetChangedFiles pr >? 25)%Z; [reflexivity|].
  destruct (bot.GetAdditions pr >? 800)%Z; [reflexivity|].
  destruct (int_add (bot.GetAdditions pr) (bot.GetDeletions pr) >? 1200)%Z; reflexivity.
Qed.

(** C4.  [checkPRSize] gives one verdict for every pull request: either
    a skip with a message and no warning, or a go-ahead without a skip
    message.  The hard limits are tried in the order files over 25,
    additions over 800, additions plus deletions over 1200, and the
    first one crossed fixes the message whatever the later ones would
    say; the sum is the [int] sum, which is the exact sum whenever that
    fits an [int].  With 26 files and 10 additions the verdict is the
    skip for the file count. *)
Theorem checkPRSize_hard_limits :
  forall pr : option bot.PullRequest,
    ((review.ShouldReview (bot.checkPRSize pr) = false
      /\ review.WarningMessage (bot.checkPRSize pr) = []
      /\ review.SkipMessage (bot.checkPRSize pr) <> [])
     \/ (review.ShouldReview (bot.checkPRSize pr) = true
         /\ review.SkipMessage (bot.checkPRSize pr) = []))
    /\ ((bot.GetChangedFiles pr > 25)%Z ->
        bot.checkPRSize pr = skipVerdict (filesExceeded (bot.GetChangedFiles pr)))
    /\ ((bot.GetChangedFiles pr <= 25)%Z -> (bot.GetAdditions pr > 800)%Z ->
        bot.checkPRSize pr = skipVerdict (additionsExceeded (bot.GetAdditions pr)))
    /\ ((bot.GetChangedFiles pr <= 25)%Z -> (bot.GetAdditions pr <= 800)%Z ->
        (int_add (bot.GetAdditions pr) (bot.GetDeletions pr) > 1200)%Z ->
        bot.checkPRSize pr
        = skipVerdict (totalExceeded (int_add (bot.GetAdditions pr) (bot.GetDeletions pr))
                         (bot.GetAdditions pr) (bot.GetDeletions pr)))
    /\ ((bot.GetChangedFiles pr <= 25)%Z -> (bot.GetAdditions pr <= 800)%Z ->
        (int_add (bot.GetAdditions pr) (bot.GetDeletions pr) <= 1200)%Z ->
        review.ShouldReview (bot.checkPRSize pr) = true)
    /\ ((minInt <= bot.GetAdditions pr + bot.GetDeletions pr <= maxInt)%Z ->
        int_add (bot.GetAdditions pr) (bot.GetDeletions pr)
        = (bot.GetAdditions pr + bot.GetDeletions pr)%Z)
    /\ bot.checkPRSize (changeSet 26 10 0) = skipVerdict (filesExceeded 26)
    /\ Contains (filesExceeded 26)
         (str "This PR modifies **26 files**, which exceeds our limit of 25 files").
Proof.
  intros pr. rewrite checkPRSize_skips.
  split; [|split; [|split; [|split; [|split; [|split; [|split]]]]]].
  - destruct (Z.gtb_spec (bot.GetChangedFiles pr) 25);
      [left; repeat split; apply Sprintf_hash; reflexivity|].
    destruct (Z.gtb_spec (bot.GetAdditions pr) 800);
      [left; repeat split; apply Sprintf_hash; reflexivity|].
    destruct (Z.gtb_spec (int_add (bot.GetAdditions pr) (bot.GetDeletions pr)) 1200);
      [left; repeat split; apply Sprintf_hash; reflexivity|].
    right. split; reflexivity.
  - intros H. destruct (Z.gtb_spec (bot.GetChangedFiles pr) 25); [reflexivity | lia].
  - intros H1 H2. destruct (Z.gtb_spec (bot.GetChangedFiles pr) 25); [lia|].
    destruct (Z.gtb_spec (bot.GetAdditions pr) 800); [reflexivity | lia].
  - intros H1 H2 H3. destruct (Z.gtb_spec (bot.GetChangedFiles pr) 25); [lia|].
    destruct (Z.gtb_spec (bot.GetAdditions pr) 800); [lia|].
    destruct (Z.gtb_spec (int_add (bot.GetAdditions pr) (bot.GetDeletions pr)) 1200);
      [reflexivity | lia].
  - intros H1 H2 H3. destruct (Z.gtb_spec (bot.GetChangedFiles pr) 25); [lia|].
    destruct (Z.gtb_spec (bot.GetAdditions pr) 800); [lia|].
    destruct (Z.gtb_spec (int_add (bot.GetAdditions pr) (bot.GetDeletions pr)) 1200);
      [lia | reflexivity].
  - intros H. apply wrap_in_range. exact H.
  - vm_compute. reflexivity.
  - eapply Index_Contains. vm_compute. reflexivity.
Qed.

Lemma checkPRSize_hard_limits_witness :
  bot.checkPRSize (changeSet 30 900 5000) = skipVerdict (filesExceeded 30)
  /\ bot.checkPRSize (changeSet 3 900 5000) = skipVerdict (additionsExceeded 900)
  /\ bot.checkPRSize (changeSet 3 500 900) = skipVerdict (totalExceeded 1400 500 900)
  /\ review.ShouldReview (bot.checkPRSize (changeSet 3 500 700)) = true.
Proof.
  split; [|split; [|split]].
  - apply (proj1 (proj2 (checkPRSize_hard_limits (changeSet 30 900 5000)))).
    vm_compute. reflexivity.
  - apply (proj1 (proj2 (proj2 (checkPRSize_hard_limits (changeSet 3 900 5000)))));
      vm_compute; [discriminate | reflexivity].
  - apply (proj1 (proj2 (proj2 (proj2 (checkPRSize_hard_limits (changeSet 3 500 900))))));
      vm_compute; try discriminate; reflexivity.
  - apply (proj1 (proj2 (proj2 (proj2 (proj2 (checkPRSize_hard_limits (changeSet 3 500 700)))))));
      vm_compute; discriminate.
Defined.

(** ** Size warnings *)

Lemma Sprintf_filesWarning (files : Z) :
  fmt.Sprintf bot.warnFilesFormat [fmt.Int files; fmt.Int config.WARN_FILES_THRESHOLD]
  = filesWarning files.
Proof.
  unfold filesWarning. cbn -[strconv.Itoa].
  change (strconv.Itoa config.WARN_FILES_THRESHOLD) with (str "20"). reflexivity.
Qed.

Lemma Sprintf_additionsWarning (additions : Z) :
  fmt.Sprintf bot.warnAdditionsFormat
    [fmt.Int additions; fmt.Int config.WARN_ADDITIONS_THRESHOLD]
  = additionsWarning additions.
Proof.
  unfold additionsWarning. cbn -[strconv.Itoa].
  change (strconv.Itoa config.WARN_ADDITIONS_THRESHOLD) with (str "400"). reflexivity.
Qed.

Lemma Sprintf_warning_one (w : gostring) :
  fmt.Sprintf bot.warningFormat1 [fmt.Str (fmt.Sprintf (str "%s" ++ nl) [fmt.Str w])]
  = warningBlock (w ++ nl ++ nl).
Proof.
  unfold warningBlock. cbn. rewrite <- !app_assoc. reflexivity.
Qed.

Lemma Sprintf_warning_two (w0 w1 : gostring) :
  fmt.Sprintf bot.warningFormat2 [fmt.Str w0; fmt.Str w1]
  = warningBlock (w0 ++ nl ++ w1 ++ nl).
Proof.
  unfold warningBlock. rewrite <- !app_assoc. cbn. reflexivity.
Qed.

(** C6.  When no hard limit is crossed the review goes ahead, and the
    two warning thresholds are tried one after the other: more than 20
    files adds the files line, more than 400 additions adds the
    additions line, files first, inside one block with its heading;
    with no warning the text is empty.  With 10 files and 450 additions
    the review goes ahead with a warning that names the 450 lines. *)
Theorem checkPRSize_warnings :
  (forall pr : option bot.PullRequest,
      (bot.GetChangedFiles pr <= 25)%Z ->
      (bot.GetAdditions pr <= 800)%Z ->
      (int_add (bot.GetAdditions pr) (bot.GetDeletions pr) <= 1200)%Z ->
      review.ShouldReview (bot.checkPRSize pr) = true
      /\ ((bot.GetChangedFiles pr <= 20)%Z -> (bot.GetAdditions pr <= 400)%Z ->
          review.WarningMessage (bot.checkPRSize pr) = [])
      /\ ((bot.GetChangedFiles pr > 20)%Z -> (bot.GetAdditions pr <= 400)%Z ->
          review.WarningMessage (bot.checkPRSize pr)
          = warningBlock (filesWarning (bot.GetChangedFiles pr) ++ nl ++ nl))
      /\ ((bot.GetChangedFiles pr <= 20)%Z -> (bot.GetAdditions pr > 400)%Z ->
          review.WarningMessage (bot.checkPRSize pr)
          = warningBlock (additionsWarning (bot.GetAdditions pr) ++ nl ++ nl))
      /\ ((bot.GetChangedFiles pr > 20)%Z -> (bot.GetAdditions pr > 400)%Z ->
          review.WarningMessage (bot.checkPRSize pr)
          = warningBlock (filesWarning (bot.GetChangedFiles pr) ++ nl
                            ++ additionsWarning (bot.GetAdditions pr) ++ nl)))
  /\ review.ShouldReview (bot.checkPRSize (changeSet 10 450 0)) = true
  /\ review.WarningMessage (bot.checkPRSize (changeSet 10 450 0))
     = warningBlock (additionsWarning 450 ++ nl ++ nl)
  /\ review.WarningMessage (bot.checkPRSize (changeSet 10 450 0)) <> []
  /\ Contains (review.WarningMessage (bot.checkPRSize (changeSet 10 450 0)))
       (str "450 lines added").
Proof.
  split.
  - intros pr Hf Ha Ht. unfold bot.checkPRSize.
    rewrite Sprintf_filesWarning, Sprintf_additionsWarning.
    change config.MAX_FILES_FOR_REVIEW with 25%Z.
    change config.MAX_ADDITIONS_FOR_REVIEW with 800%Z.
    change config.MAX_TOTAL_CHANGES with 1200%Z.
    change config.WARN_FILES_THRESHOLD with 20%Z.
    change config.WARN_ADDITIONS_THRESHOLD with 400%Z.
    destruct (Z.gtb_spec (bot.GetChangedFiles pr) 25); [lia|].
    destruct (Z.gtb_spec (bot.GetAdditions pr) 800); [lia|].
    destruct (Z.gtb_spec (int_add (bot.GetAdditions pr) (bot.GetDeletions pr)) 1200); [lia|].
    cbn [review.ShouldReview review.WarningMessage app].
    split; [reflexivity|].
    destruct (Z.gtb_spec (bot.GetChangedFiles pr) 20);
      destruct (Z.gtb_spec (bot.GetAdditions pr) 400);
      repeat split; intros; try lia; cbn [app];
      first [ reflexivity | apply Sprintf_warning_one | apply Sprintf_warning_two ].
  - split; [vm_compute; reflexivity|]. split; [vm_compute; reflexivity|].
    split; [vm_compute; discriminate|].
    eapply Index_Contains. vm_compute. reflexivity.
Qed.

Lemma checkPRSize_warnings_witness :
  review.ShouldReview (bot.checkPRSize (changeSet 21 450 10)) = true
  /\ review.WarningMessage (bot.checkPRSize (changeSet 21 450 10))
     = warningBlock (filesWarning 21 ++ nl ++ additionsWarning 450 ++ nl).
Proof.
  assert (H : (bot.GetChangedFiles (changeSet 21 450 10) <= 25)%Z
              /\ (bot.GetAdditions (changeSet 21 450 10) <= 800)%Z
              /\ (int_add (bot.GetAdditions (changeSet 21 450 10))
                    (bot.GetDeletions (changeSet 21 450 10)) <= 1200)%Z)
    by (vm_compute; repeat split; discriminate).
  destruct H as (H1 & H2 & H3).
  destruct (proj1 checkPRSize_warnings (changeSet 21 450 10) H1 H2 H3)
    as (Hs & _ & _ & _ & Hw).
  split; [exact Hs|]. apply Hw; vm_compute; reflexivity.
Defined.

(** ** The repository configuration *)

Lemma firstRepo_first_such (p : config.RepositoryConfig -> bool)
    (repos : list config.RepositoryConfig) (r : config.RepositoryConfig) :
  first_such (fun x => p x = true) repos r -> config.firstRepo p repos = Some r.
Proof.
  intros (before & after & -> & Hr & Hb).
  induction before as [|y before IH]; simpl.
  - now rewrite Hr.
  - destruct (p y) eqn:E.
    + exfalso. apply (Hb y); [now left | exact E].
    + apply IH. intros z Hz. apply Hb. now right.
Qed.

Lemma firstRepo_None (p : config.RepositoryConfig -> bool)
    (repos : list config.RepositoryConfig) :
  (forall x, In x repos -> p x = false) -> config.firstRepo p repos = None.
Proof.
  induction repos as [|y repos IH]; intros H; simpl; [reflexivity|].
  rewrite (H y) by now left. apply IH. intros x Hx. apply H. now right.
Qed.

Lemma isNamed_true (repoName : gostring) (repo : config.RepositoryConfig) :
  config.isNamed repoName repo = true <-> config.Name repo = repoName.
Proof. apply gostring_eqb_eq. Qed.

Lemma isWildcard_true (repo : config.RepositoryConfig) :
  config.isWildcard repo = true <-> wildcardName (config.Name repo).
Proof.
  unfold config.isWildcard, wildcardName.
  rewrite orb_true_iff, !gostring_eqb_eq. reflexivity.
Qed.

Lemma first_such_ext {A : Type} (P Q : A -> Prop) (l : list A) (x : A) :
  (forall y, P y <-> Q y) -> first_such P l x -> first_such Q l x.
Proof.
  intros H (before & after & -> & Hx & Hb). exists before, after.
  split; [reflexivity|]. split; [now apply H|]. intros y Hy Hq. apply (Hb y Hy). now apply H.
Qed.

(** An organization that does not answer is passed over. *)
Lemma lookupOrganizations_skip (org : config.OrganizationConfig)
    (rest : list config.OrganizationConfig) (owner repoName : gostring) :
  ~ answers owner repoName org ->
  config.lookupOrganizations (org :: rest) owner repoName
  = config.lookupOrganizations rest owner repoName.
Proof.
  intros H. simpl. destruct (gostring_eqb (config.OrgName org) owner) eqn:E; [|reflexivity].
  apply gostring_eqb_eq in E.
  rewrite !firstRepo_None; [reflexivity | |].
  - intros x Hx. destruct (config.isWildcard x) eqn:Ew; [|reflexivity].
    exfalso. apply H. split; [exact E|]. exists x. split; [exact Hx|].
    right. now apply isWildcard_true.
  - intros x Hx. destruct (config.isNamed repoName x) eqn:En; [|reflexivity].
    exfalso. apply H. split; [exact E|]. exists x. split; [exact Hx|].
    left. now apply isNamed_true.
Qed.

Lemma lookupOrganizations_none (orgs : list config.OrganizationConfig)
    (owner repoName : gostring) :
  (forall org, In org orgs -> ~ answers owner repoName org) ->
  config.lookupOrganizations orgs owner repoName = None.
Proof.
  induction orgs as [|org orgs IH]; intros H; [reflexivity|].
  rewrite lookupOrganizations_skip by (apply H; now left).
  apply IH. intros o Ho. apply H. now right.
Qed.

Lemma firstRepo_In (p : config.RepositoryConfig -> bool)
    (repos : list config.RepositoryConfig) (x : config.RepositoryConfig) :
  In x repos -> p x = true -> config.firstRepo p repos <> None.
Proof.
  induction repos as [|y repos IH]; simpl; [contradiction|].
  intros [-> | Hx] Hp.
  - now rewrite Hp.
  - destruct (p y); [discriminate | now apply IH].
Qed.

Lemma lookupOrganizations_first (orgs : list config.OrganizationConfig)
    (owner repoName : gostring) (org : config.OrganizationConfig) :
  first_such (answers owner repoName) orgs org ->
  config.lookupOrganizations orgs owner repoName
  = match config.firstRepo (config.isNamed repoName) (config.Repositories org) with
    | Some repo => Some repo
    | None => config.firstRepo config.isWildcard (config.Repositories org)
    end.
Proof.
  intros (before & after & -> & Ho & Hb).
  induction before as [|o before IH].
  - simpl. destruct Ho as [Hname (repo & Hin & Hrepo)].
    apply gostring_eqb_eq in Hname. rewrite Hname.
    destruct (config.firstRepo (config.isNamed repoName) (config.Repositories org)) eqn:En;
      [reflexivity|].
    destruct (config.firstRepo config.isWildcard (config.Repositories org)) eqn:Ew;
      [reflexivity|].
    exfalso. destruct Hrepo as [Hn | Hw].
    + apply (firstRepo_In (config.isNamed repoName) _ repo Hin); [|exact En].
      now apply isNamed_true.
    + apply (firstRepo_In config.isWildcard _ repo Hin); [|exact Ew].
      now apply isWildcard_true.
  - simpl app. rewrite lookupOrganizations_skip by (apply Hb; now left).
    apply IH. intros y Hy. apply Hb. now right.
Qed.

(** C7, as the code has it.  The lookup answers from the first
    organization named [owner] that has an entry named [repoName] or a
    wildcard entry: there the first entry named [repoName] wins, also
    over a wildcard, and the first wildcard entry is returned only when
    no entry of that organization is named [repoName].  When no
    organization named [owner] has either, the result is nil; the
    orchestrator then takes the default configuration (precision
    medium, no custom prompt) and goes on to the size check and the
    review. *)
Theorem GetRepositoryConfig_resolution :
  forall (rc : config.ReviewConfig) (owner repoName : gostring),
    (forall org,
        first_such (answers owner repoName) (config.Organizations rc) org ->
        (forall repo,
            first_such (fun r => config.Name r = repoName) (config.Repositories org) repo ->
            config.GetRepositoryConfig rc owner repoName = Some repo)
        /\ ((forall r, In r (config.Repositories org) -> config.Name r <> repoName) ->
            forall repo,
              first_such (fun r => wildcardName (config.Name r))
                (config.Repositories org) repo ->
              config.GetRepositoryConfig rc owner repoName = Some repo))
    /\ ((forall org, In org (config.Organizations rc) -> ~ answers owner repoName org) ->
        config.GetRepositoryConfig rc owner repoName = None)
    /\ (config.GetRepositoryConfig rc owner repoName = None ->
        forall GetPRDiff callClaudeAPI pr,
          bot.repoConfigOrDefault rc owner repoName = defaultConfig repoName
          /\ (review.ShouldReview (bot.checkPRSize pr) = true ->
              forall diff,
                GetPRDiff owner repoName (bot.GetNumber pr) = Some diff ->
                bot.ProcessPullRequest rc GetPRDiff callClaudeAPI
                  {| bot.OwnerLogin := owner; bot.RepoName := repoName |} pr
                = (r <- review.parseClaudeResponse
                          (callClaudeAPI diff (bot.GetTitle pr) (bot.GetBody pr)
                             (defaultConfig repoName)) diff ;;
                   Returned
                     (bot.PostReview owner repoName (bot.GetNumber pr)
                        (withWarning (review.WarningMessage (bot.checkPRSize pr)) r))))).
Proof.
  intros rc owner repoName. unfold config.GetRepositoryConfig. split; [|split].
  - intros org Horg. rewrite (lookupOrganizations_first _ _ _ _ Horg). split.
    + intros repo Hrepo.
      rewrite (firstRepo_first_such (config.isNamed repoName) _ repo); [reflexivity|].
      eapply first_such_ext; [|exact Hrepo]. intros y. symmetry. apply isNamed_true.
    + intros Hnone repo Hrepo. rewrite firstRepo_None.
      * apply firstRepo_first_such. eapply first_such_ext; [|exact Hrepo].
        intros y. symmetry. apply isWildcard_true.
      * intros x Hx. destruct (config.isNamed repoName x) eqn:E; [|reflexivity].
        apply isNamed_true in E. exfalso. now apply (Hnone x Hx).
  - apply lookupOrganizations_none.
  - intros Hnil GetPRDiff callClaudeAPI pr.
    assert (Hd : bot.repoConfigOrDefault rc owner repoName = defaultConfig repoName).
    { unfold bot.repoConfigOrDefault, config.GetRepositoryConfig. now rewrite Hnil. }
    split; [exact Hd|]. intros Hs diff Hdiff.
    unfold bot.ProcessPullRequest. cbn [bot.OwnerLogin bot.RepoName].
    rewrite Hs, Hdiff, Hd. reflexivity.
Qed.

Lemma GetRepositoryConfig_resolution_witness :
  config.GetRepositoryConfig acmeOnly (str "acme") (str "svc") = Some svcEntry
  /\ config.GetRepositoryConfig acmeOnly (str "acme") (str "web") = Some starEntry
  /\ config.GetRepositoryConfig acmeOnly (str "initech") (str "svc") = None
  /\ bot.ProcessPullRequest acmeOnly
       (fun _ _ _ => Some (str "=== a.go ==="))
       (fun _ _ _ _ => str "SUMMARY: $$Fine.$$")
       {| bot.OwnerLogin := str "initech"; bot.RepoName := str "svc" |}
       (changeSet 2 30 4)
     = (r <- review.parseClaudeResponse (str "SUMMARY: $$Fine.$$") (str "=== a.go ===") ;;
        Returned (bot.PostReview (str "initech") (str "svc") 0
                    (withWarning (review.WarningMessage (bot.checkPRSize (changeSet 2 30 4)))
                       r))).
Proof.
  pose proof (GetRepositoryConfig_resolution acmeOnly (str "acme") (str "svc"))
    as (Hexact & _ & _).
  pose proof (GetRepositoryConfig_resolution acmeOnly (str "acme") (str "web"))
    as (Hwild & _ & _).
  pose proof (GetRepositoryConfig_resolution acmeOnly (str "initech") (str "svc"))
    as (_ & Hnone & Hdefault).
  assert (Hacme : forall name,
             name = str "svc" \/ name = str "web" ->
             first_such (answers (str "acme") name) (config.Organizations acmeOnly)
               {| config.OrgName := str "acme";
                  config.Repositories := [starEntry; svcEntry] |}).
  { intros name Hname. exists [], []. split; [reflexivity|]. split; [|intros y []].
    split; [reflexivity|]. exists starEntry. split; [left; reflexivity|].
    right. left. reflexivity. }
  assert (Hnil : config.GetRepositoryConfig acmeOnly (str "initech") (str "svc") = None).
  { apply Hnone. intros org [<- | []] [Hn _]. discriminate Hn. }
  split; [|split; [|split]].
  - destruct (Hexact _ (Hacme (str "svc") (or_introl eq_refl))) as [He _].
    apply He. exists [starEntry], []. split; [reflexivity|]. split; [reflexivity|].
    intros y [<- | []]. discriminate.
  - destruct (Hwild _ (Hacme (str "web") (or_intror eq_refl))) as [_ Hw].
    apply Hw.
    + intros r [<- | [<- | []]]; discriminate.
    + exists [], [svcEntry]. split; [reflexivity|]. split; [left; reflexivity|].
      intros y [].
  - exact Hnil.
  - exact (proj2 (Hdefault Hnil
                    (fun _ _ _ => Some (str "=== a.go ==="))
                    (fun _ _ _ _ => str "SUMMARY: $$Fine.$$")
                    (changeSet 2 30 4))
             eq_refl (str "=== a.go ===") eq_refl).
Defined.

(** C7 fails as stated when two organizations share the name: the entry
    named svc exists in an organization named acme, yet the wildcard of
    the earlier organization of that name is returned. *)
Lemma GetRepositoryConfig_duplicate_organization :
  In acmeServices (config.Organizations twoAcme)
  /\ config.OrgName acmeServices = str "acme"
  /\ In svcEntry (config.Repositories acmeServices)
  /\ config.Name svcEntry = str "svc"
  /\ config.GetRepositoryConfig twoAcme (str "acme") (str "svc") = Some starEntry
  /\ config.Name starEntry = str "*"
  /\ starEntry <> svcEntry.
Proof.
  split; [right; left; reflexivity|].
  split; [reflexivity|]. split; [left; reflexivity|]. split; [reflexivity|].
  split; [vm_compute; reflexivity|]. split; [reflexivity | discriminate].
Qed.

(** ** Prompt substitution *)

Lemma Index_split (s sub : gostring) (i : nat) :
  strings.Index s sub = Some i ->
  s = firstn i s ++ sub ++ skipn (i + length sub) s.
Proof.
  intros H. apply Index_Some in H as [(pre & post & -> & <-) _].
  rewrite firstn_field. f_equal.
  replace (length pre + length sub) with (length sub + length pre) by lia.
  rewrite skipn_add_app, skipn_length_app. reflexivity.
Qed.

Lemma ReplaceAll_None (s old new : gostring) :
  strings.Index s old = None -> strings.ReplaceAll s old new = s.
Proof.
  intros H. unfold strings.ReplaceAll, strings.Replace.
  rewrite (Count_None _ _ H). now destruct (gostring_eqb old new).
Qed.

Lemma ReplaceAll_Some (s old new : gostring) (j : nat) :
  old <> [] -> strings.Index s old = Some j ->
  strings.ReplaceAll s old new
  = firstn j s ++ new ++ strings.ReplaceAll (skipn (j + length old) s) old new.
Proof.
  intros Hold Hj. unfold strings.ReplaceAll, strings.Replace.
  destruct (gostring_eqb old new) eqn:E; cbn [orb Z.eqb Z.ltb Z.compare].
  - apply gostring_eqb_eq in E. subst new. now apply Index_split.
  - rewrite (Count_Some _ _ _ Hold Hj). cbn [Nat.eqb strings.Replace_loop].
    rewrite Hj. do 2 f_equal.
    destruct (strings.Count (skipn (j + length old) s) old); reflexivity.
Qed.

(** A prefix that holds no start of [old] is copied. *)
Lemma ReplaceAll_skip (l rest old new : gostring) :
  old <> [] ->
  strings.Index (l ++ rest) old = option_map (Nat.add (length l)) (strings.Index rest old) ->
  strings.ReplaceAll (l ++ rest) old new = l ++ strings.ReplaceAll rest old new.
Proof.
  intros Hold H. destruct (strings.Index rest old) as [j|] eqn:Ej; cbn [option_map] in H.
  - rewrite (ReplaceAll_Some _ _ _ _ Hold H), (ReplaceAll_Some _ _ _ _ Hold Ej).
    rewrite firstn_app, (firstn_all2 l) by lia.
    replace (length l + j - length l) with j by lia.
    replace (length l + j + length old) with ((j + length old) + length l) by lia.
    rewrite skipn_add_app. now rewrite <- app_assoc.
  - now rewrite (ReplaceAll_None _ _ _ H), (ReplaceAll_None _ _ _ Ej).
Qed.

Lemma token_not_nil (k : slot) : token k <> [].
Proof. destruct k; discriminate. Qed.

Lemma Index_token_other (k k' : slot) (rest : gostring) :
  slot_eqb k' k = false ->
  strings.Index (token k' ++ rest) (token k)
  = option_map (Nat.add (length (token k'))) (strings.Index rest (token k)).
Proof.
  intros H. destruct k, k'; try discriminate H;
    cbn -[strings.Index]; rewrite !Index_cons; cbn -[strings.Index];
    destruct (strings.Index rest _); reflexivity.
Qed.

Lemma slot_eqb_eq (a b : slot) : slot_eqb a b = true <-> a = b.
Proof. destruct a, b; simpl; split; intros H; try reflexivity; discriminate. Qed.

(** A prefix in which no occurrence of [sub] starts is skipped by
    [Index]. *)
Lemma Index_app_absent (text rest sub : gostring) :
  (forall i, i < length text -> ~ occurs_at sub (text ++ rest) i) ->
  strings.Index (text ++ rest) sub
  = option_map (Nat.add (length text)) (strings.Index rest sub).
Proof.
  induction text as [|c text IH]; intros H; cbn [app].
  - now destruct (strings.Index rest sub).
  - rewrite Index_cons.
    destruct (strings.HasPrefix (c :: text ++ rest) sub) eqn:E.
    { exfalso. apply (H 0); [simpl; lia | now apply occurs_at_0]. }
    rewrite IH.
    + now destruct (strings.Index rest sub).
    + intros i Hi Ho. apply (H (S i)); [simpl; lia | now apply occurs_at_S].
Qed.

Lemma Contains_suffix (pre b sub : gostring) : Contains b sub -> Contains (pre ++ b) sub.
Proof.
  intros (i & p & q & -> & _). exists (length (pre ++ p)), (pre ++ p), q.
  split; [|reflexivity]. now rewrite <- app_assoc.
Qed.

Lemma Contains_prefix (b post sub : gostring) : Contains b sub -> Contains (b ++ post) sub.
Proof.
  intros (i & p & q & -> & Hi). exists i, p, (q ++ post).
  split; [|exact Hi]. now rewrite <- !app_assoc.
Qed.

(** A prefix as long as [sub] decides by itself whether [sub] starts
    there. *)
Lemma HasPrefix_long (b rest sub : gostring) :
  length sub <= length b ->
  strings.HasPrefix (b ++ rest) sub = true -> strings.HasPrefix b sub = true.
Proof.
  intros Hlen H. apply HasPrefix_true in H as [r E]. apply HasPrefix_true.
  exists (skipn (length sub) b).
  rewrite <- (firstn_skipn (length sub) b) at 1. f_equal.
  apply (f_equal (firstn (length sub))) in E.
  rewrite firstn_field, firstn_app in E.
  replace (length sub - length b) with 0 in E by lia.
  cbn [firstn] in E. now rewrite app_nil_r in E.
Qed.

(** The shape of a token: two opening braces, then bytes that are not
    opening braces, a dot first. *)
Lemma token_shape (k : slot) :
  exists tail,
    token k = "{"%char :: "{"%char :: "."%char :: tail /\ ~ In "{"%char ("."%char :: tail).
Proof.
  destruct k; eexists; (split; [reflexivity|]); cbn; intuition discriminate.
Qed.

(** No token starts in the text before a token and ends in that token. *)
Lemma no_straddle (b rest : gostring) (k j : slot) :
  b <> [] -> length b < length (token k) ->
  strings.HasPrefix (b ++ token j ++ rest) (token k) = false.
Proof.
  intros Hne Hlen.
  destruct (strings.HasPrefix (b ++ token j ++ rest) (token k)) eqn:E; [|reflexivity].
  exfalso. apply HasPrefix_true in E as [r E].
  destruct (token_shape k) as (tk & Ek & Hk). destruct (token_shape j) as (tj & Ej & _).
  rewrite Ek in Hlen, E. rewrite Ej in E. clear Ek Ej.
  destruct b as [|c b]; [contradiction|]. cbn [app] in E. injection E as -> E.
  destruct b as [|c' b].
  - cbn [app] in E. injection E as _ E. discriminate E.
  - cbn [app] in E. injection E as -> E.
    cbn [length] in Hlen.
    assert (Hb : length b < length ("."%char :: tk)) by (cbn [length]; lia).
    change ("."%char :: tk ++ r) with (("."%char :: tk) ++ r) in E.
    apply (f_equal (fun l => nth (length b) l "a"%char)) in E.
    rewrite app_nth2, Nat.sub_diag in E by lia.
    rewrite (app_nth1 ("."%char :: tk) r "a"%char Hb) in E.
    simpl (nth 0 _ _) in E.
    apply Hk. rewrite E. now apply nth_In.
Qed.

(** In a text followed by the pieces of a template, no token starts in
    the text, provided none does once the template is filled. *)
Lemma no_token_in_text (data : review.PromptData) (qs : list piece) (text : gostring)
    (k : slot) :
  ~ Contains (text ++ fill data qs) (token k) ->
  forall i, i < length text -> ~ occurs_at (token k) (text ++ render qs) i.
Proof.
  revert text. induction qs as [|[t | j] qs IH]; intros text H i Hi Ho.
  - apply H. now exists i.
  - cbn [render fill] in *. rewrite app_assoc in Ho, H.
    apply (IH (text ++ t) H i); [rewrite length_app; lia | exact Ho].
  - cbn [render fill] in *. apply occurs_at_skipn in Ho as [_ Hp].
    rewrite skipn_app in Hp. replace (i - length text) with 0 in Hp by lia.
    cbn [skipn] in Hp.
    assert (Hb : length (skipn i text) = length text - i) by apply length_skipn.
    destruct (Nat.le_gt_cases (length (token k)) (length (skipn i text))) as [Hle | Hgt].
    + apply HasPrefix_long in Hp; [|exact Hle]. apply H. apply Contains_prefix.
      exists i. apply occurs_at_skipn. split; [lia | exact Hp].
    + rewrite no_straddle in Hp; [discriminate Hp | | exact Hgt].
      intros E. rewrite E in Hb. cbn [length] in Hb. lia.
Qed.

Lemma fill_substSlot (data : review.PromptData) (qs : list piece) (k : slot) :
  fill data (substSlot k (value data k) qs) = fill data qs.
Proof.
  induction qs as [|[t | j] qs IH]; [reflexivity | |]; cbn [substSlot fill].
  - now rewrite IH.
  - destruct (slot_eqb j k) eqn:E; cbn [fill]; rewrite IH; [|reflexivity].
    apply slot_eqb_eq in E. now subst j.
Qed.

(** Replacing a token in the text of a template replaces the
    placeholder in the template, provided the filled template holds no
    such token. *)
Lemma ReplaceAll_render (data : review.PromptData) (qs : list piece) (k : slot) :
  ~ Contains (fill data qs) (token k) ->
  strings.ReplaceAll (render qs) (token k) (value data k)
  = render (substSlot k (value data k) qs).
Proof.
  induction qs as [|[t | j] qs IH]; intros H.
  - cbn [render substSlot]. apply ReplaceAll_None. destruct k; reflexivity.
  - cbn [render substSlot fill] in *. rewrite ReplaceAll_skip.
    + f_equal. apply IH. intros Hc. apply H. now apply Contains_suffix.
    + apply token_not_nil.
    + apply Index_app_absent. now apply (no_token_in_text data).
  - cbn [render substSlot fill] in *.
    assert (Hqs : ~ Contains (fill data qs) (token k))
      by (intros Hc; apply H; now apply Contains_suffix).
    destruct (slot_eqb j k) eqn:E.
    + apply slot_eqb_eq in E. subst j.
      rewrite (ReplaceAll_Some _ _ _ 0 (token_not_nil k) (Index_here _ _)).
      cbn [firstn app Nat.add render]. rewrite skipn_length_app. f_equal. now apply IH.
    + cbn [render]. rewrite ReplaceAll_skip.
      * f_equal. now apply IH.
      * apply token_not_nil.
      * now apply Index_token_other.
Qed.

(** The five replacements, in the order of the source, fill every
    placeholder. *)
Lemma substSlot_all (data : review.PromptData) (ps : list piece) :
  render
    (substSlot SlotCustomPrompt (value data SlotCustomPrompt)
       (substSlot SlotDiff (value data SlotDiff)
          (substSlot SlotPrecision (value data SlotPrecision)
             (substSlot SlotBody (value data SlotBody)
                (substSlot SlotTitle (value data SlotTitle) ps)))))
  = fill data ps.
Proof.
  induction ps as [|[text | k] ps IH]; [reflexivity | |].
  - cbn [substSlot render fill]. now rewrite IH.
  - destruct k; cbn [substSlot slot_eqb render fill]; now rewrite IH.
Qed.

(** C9, as the code has it.  Take a template as a sequence of texts and
    placeholder tokens, and the text it gives when every placeholder is
    replaced by its value, once and all together.  When that text holds
    none of the five tokens, the substitution yields exactly that text,
    so its result contains none of the five tokens.  The values may hold
    any byte, braces included.  The condition is the weakest one: when
    the substitution yields the filled text and no token, the filled
    text holds no token. *)
Theorem substitutePromptVariables_fills :
  (forall (ps : list piece) (data : review.PromptData),
      (forall k, ~ Contains (fill data ps) (token k)) ->
      review.substitutePromptVariables (render ps) data = fill data ps
      /\ forall k, ~ Contains (review.substitutePromptVariables (render ps) data) (token k))
  /\ (forall (ps : list piece) (data : review.PromptData),
         review.substitutePromptVariables (render ps) data = fill data ps ->
         (forall k, ~ Contains (review.substitutePromptVariables (render ps) data) (token k)) ->
         forall k, ~ Contains (fill data ps) (token k)).
Proof.
  split.
  - intros ps data H.
    assert (E : review.substitutePromptVariables (render ps) data = fill data ps).
    { unfold review.substitutePromptVariables. cbv zeta.
      change (str "{{.Title}}") with (token SlotTitle).
      change (str "{{.Body}}") with (token SlotBody).
      change (str "{{.Precision}}") with (token SlotPrecision).
      change (str "{{.Diff}}") with (token SlotDiff).
      change (str "{{.CustomPrompt}}") with (token SlotCustomPrompt).
      change (review.PromptTitle data) with (value data SlotTitle).
      change (review.PromptBody data) with (value data SlotBody).
      change (review.PromptPrecision data) with (value data SlotPrecision).
      change (review.PromptDiff data) with (value data SlotDiff).
      change (review.PromptCustomPrompt data) with (value data SlotCustomPrompt).
      rewrite (ReplaceAll_render data ps SlotTitle) by apply H.
      rewrite (ReplaceAll_render data _ SlotBody)
        by (rewrite fill_substSlot; apply H).
      rewrite (ReplaceAll_render data _ SlotPrecision)
        by (rewrite !fill_substSlot; apply H).
      rewrite (ReplaceAll_render data _ SlotDiff)
        by (rewrite !fill_substSlot; apply H).
      rewrite (ReplaceAll_render data _ SlotCustomPrompt)
        by (rewrite !fill_substSlot; apply H).
      apply substSlot_all. }
    split; [exact E|]. intros k. rewrite E. apply H.
  - intros ps data E H k. rewrite <- E. apply H.
Qed.

Lemma substitutePromptVariables_fills_witness :
  review.substitutePromptVariables
    (render [Lit (str "Title: "); Slot SlotTitle; Lit (str " Body: "); Slot SlotBody;
             Slot SlotPrecision; Lit (str " Diff: "); Slot SlotDiff; Slot SlotCustomPrompt])
    {| review.PromptTitle := str "Fix {braces}"; review.PromptBody := str "It works";
       review.PromptPrecision := str "medium"; review.PromptDiff := str "+func main() {";
       review.PromptCustomPrompt := [] |}
  = str "Title: Fix {braces} Body: It worksmedium Diff: +func main() {".
Proof.
  refine (proj1 (proj1 substitutePromptVariables_fills _ _ _)).
  intros k. apply Index_None. destruct k; vm_compute; reflexivity.
Defined.

(** C9 fails as stated: a value may itself hold a token that was
    replaced earlier.  The body is the title token; it is put in place
    after the title was substituted, and stays. *)
Lemma substitutePromptVariables_keeps_token :
  review.substitutePromptVariables (str "{{.Body}}")
    {| review.PromptTitle := str "Fix"; review.PromptBody := str "{{.Title}}";
       review.PromptPrecision := str "medium"; review.PromptDiff := str "+ a";
       review.PromptCustomPrompt := str "Be kind." |}
  = str "{{.Title}}"
  /\ Contains (str "{{.Title}}") (str "{{.Title}}").
Proof.
  split; [vm_compute; reflexivity|]. eapply Index_Contains. vm_compute. reflexivity.
Qed.

(** Keeping tokens out of the values is not enough: the end of a value
    and the text after it may join into a token.  Here no value holds
    a token, and the result is the title token. *)
Lemma substitutePromptVariables_joins_token :
  (forall k, ~ Contains (str "{{.Ti") (token k))
  /\ review.substitutePromptVariables (str "{{.Body}}tle}}")
       {| review.PromptTitle := str "Fix"; review.PromptBody := str "{{.Ti";
          review.PromptPrecision := str "medium"; review.PromptDiff := str "+ a";
          review.PromptCustomPrompt := str "Be kind." |}
     = str "{{.Title}}".
Proof.
  split; [|vm_compute; reflexivity].
  intros k. apply Index_None. destruct k; vm_compute; reflexivity.
Qed.

(** * Further properties of the parser *)

Lemma Split_length (s sep : gostring) :
  sep <> [] -> length (strings.Split s sep) = S (strings.Count s sep).
Proof.
  intros Hsep. remember (length s) as n eqn:Hn. revert s Hn.
  induction n as [n IH] using lt_wf_ind. intros s Hn.
  destruct (strings.Index s sep) as [i|] eqn:Ei.
  - rewrite (Split_Some _ _ _ Hsep Ei), (Count_Some _ _ _ Hsep Ei). cbn [length]. f_equal.
    pose proof (Index_bound _ _ _ Ei) as Hb.
    assert (Hpos : 0 < length sep) by (destruct sep; [contradiction | simpl; lia]).
    apply (IH (length (skipn (i + length sep) s))); [|reflexivity].
    rewrite length_skipn. lia.
  - now rewrite (Split_None _ _ Ei), (Count_None _ _ Ei).
Qed.

Lemma fragments_length (claudeText : gostring) :
  length (fragments claudeText) = strings.Count claudeText (str "PR_COMMENT:").
Proof.
  unfold fragments. rewrite length_skipn, Split_length by discriminate. lia.
Qed.

Lemma commentsOf_length (l : list gostring) :
  length (flat_map commentsOf l) <= length l.
Proof.
  induction l as [|b l IH]; simpl; [lia|]. rewrite length_app.
  assert (length (commentsOf b) <= 1).
  { unfold commentsOf. destruct (review.parsePRCommentBlock b) as [[c|]|]; simpl; lia. }
  lia.
Qed.

Lemma overlapping_Panicked (block : gostring) :
  review.parsePRCommentBlock block = Panicked <-> overlapping block.
Proof.
  rewrite parsePRCommentBlock_Panicked. unfold overlapping.
  split; intros (i & Hi & Hl); exists i.
  - split; [now apply Index_Some | now apply LastIndex_Some].
  - split; [now apply Index_Some | now apply LastIndex_Some].
Qed.

(** X1.  When no fragment has overlapping delimiters the parser returns,
    the comments are those of the fragments in the order of the
    fragments (a dropped fragment gives none, a kept one gives one), and
    there are at most as many comments as PR_COMMENT: markers. *)
Theorem comments_follow_fragments :
  forall claudeText diff,
    Forall (fun block => ~ overlapping block) (fragments claudeText) ->
    exists r,
      review.parseClaudeResponse claudeText diff = Returned r
      /\ review.Comments r = flat_map commentsOf (fragments claudeText)
      /\ length (fragments claudeText) = strings.Count claudeText (str "PR_COMMENT:")
      /\ length (review.Comments r) <= strings.Count claudeText (str "PR_COMMENT:").
Proof.
  intros claudeText diff H.
  assert (Hok : Forall (fun p => review.parsePRCommentBlock p <> Panicked)
                  (fragments claudeText)).
  { revert H. apply Forall_impl. intros b Hb Hp. apply Hb. now apply overlapping_Panicked. }
  destruct (parseClaudeResponse_returns claudeText diff Hok) as [r Hr].
  exists r. pose proof (parseClaudeResponse_comments _ _ _ Hr) as Hc.
  split; [exact Hr|]. split; [exact Hc|]. split; [apply fragments_length|].
  rewrite Hc, <- fragments_length. apply commentsOf_length.
Qed.

Lemma comments_follow_fragments_witness :
  exists r,
    review.parseClaudeResponse
      (str "PR_COMMENT:a.go:1: ok: $$fine$$ PR_COMMENT:b.go:x: note: $$dropped$$") []
    = Returned r
    /\ review.Comments r
       = flat_map commentsOf
           (fragments
              (str "PR_COMMENT:a.go:1: ok: $$fine$$ PR_COMMENT:b.go:x: note: $$dropped$$"))
    /\ length
         (fragments
            (str "PR_COMMENT:a.go:1: ok: $$fine$$ PR_COMMENT:b.go:x: note: $$dropped$$"))
       = strings.Count
           (str "PR_COMMENT:a.go:1: ok: $$fine$$ PR_COMMENT:b.go:x: note: $$dropped$$")
           (str "PR_COMMENT:")
    /\ length (review.Comments r)
       <= strings.Count
            (str "PR_COMMENT:a.go:1: ok: $$fine$$ PR_COMMENT:b.go:x: note: $$dropped$$")
            (str "PR_COMMENT:").
Proof.
  apply comments_follow_fragments.
  repeat constructor; intros Ho; apply overlapping_Panicked in Ho;
    vm_compute in Ho; discriminate Ho.
Defined.

Lemma Split_In_substring (s sep b : gostring) :
  sep <> [] -> In b (strings.Split s sep) -> exists pre post, s = pre ++ b ++ post.
Proof.
  intros Hsep. remember (length s) as n eqn:Hn. revert s Hn.
  induction n as [n IH] using lt_wf_ind. intros s Hn Hb.
  destruct (strings.Index s sep) as [i|] eqn:Ei.
  - rewrite (Split_Some _ _ _ Hsep Ei) in Hb. destruct Hb as [<- | Hb].
    + exists [], (skipn i s). symmetry. apply firstn_skipn.
    + pose proof (Index_bound _ _ _ Ei) as Hbound.
      assert (Hpos : 0 < length sep) by (destruct sep; [contradiction | simpl; lia]).
      destruct (IH (length (skipn (i + length sep) s))
                  ltac:(rewrite length_skipn; lia) _ eq_refl Hb) as (pre & post & Hrest).
      exists (firstn (i + length sep) s ++ pre), post.
      rewrite <- app_assoc, <- Hrest. symmetry. apply firstn_skipn.
  - rewrite (Split_None _ _ Ei) in Hb. destruct Hb as [<- | []].
    exists [], []. now rewrite app_nil_r.
Qed.

Lemma Contains_inside (pre b post sub : gostring) :
  Contains b sub -> Contains (pre ++ b ++ post) sub.
Proof.
  intros (i & p & q & -> & _). exists (length (pre ++ p)), (pre ++ p), (q ++ post).
  split; [|reflexivity]. now rewrite <- !app_assoc.
Qed.

Lemma In_fragments (claudeText b : gostring) :
  In b (fragments claudeText) -> In b (strings.Split claudeText (str "PR_COMMENT:")).
Proof.
  unfold fragments. destruct (strings.Split claudeText (str "PR_COMMENT:")); simpl; auto.
Qed.

(** Overlapping delimiters are a run of three dollar signs. *)
Lemma overlapping_triple (block : gostring) :
  overlapping block -> Contains block (str "$$$").
Proof.
  intros (i & [Hi _] & [Hl _]). apply occurs_at_skipn in Hi as [Hle Hi].
  apply occurs_at_skipn in Hl as [_ Hl].
  replace (S i) with (1 + i) in Hl by lia. rewrite <- skipn_skipn in Hl.
  exists i. apply occurs_at_skipn. split; [exact Hle|].
  destruct (skipn i block) as [|c0 [|c1 [|c2 q]]];
    cbn [skipn strings.HasPrefix str list_ascii_of_string] in Hi, Hl |- *;
    try discriminate Hi; try (rewrite andb_false_r in Hi; discriminate Hi);
    try (rewrite andb_false_r in Hl; discriminate Hl).
  apply andb_true_iff in Hi as [H0 Hi]. apply andb_true_iff in Hi as [H1 _].
  apply andb_true_iff in Hl as [_ Hl]. apply andb_true_iff in Hl as [H2 _].
  now rewrite H0, H1, H2.
Qed.

(** X2.  The parser panics exactly when the first and the last delimiter
    of some fragment overlap; a reply without a run of three dollar
    signs is always parsed. *)
Theorem parse_panics_on_overlap_only :
  (forall claudeText diff,
      review.parseClaudeResponse claudeText diff = Panicked
      <-> Exists overlapping (fragments claudeText))
  /\ (forall claudeText diff,
         ~ Contains claudeText (str "$$$") ->
         exists r, review.parseClaudeResponse claudeText diff = Returned r).
Proof.
  split.
  - intros claudeText diff. apply parseClaudeResponse_Panicked.
  - intros claudeText diff H. apply parseClaudeResponse_returns.
    apply Forall_forall. intros b Hb Hp. apply H.
    apply overlapping_Panicked, overlapping_triple in Hp.
    apply In_fragments in Hb.
    apply Split_In_substring in Hb as (pre & post & ->); [|discriminate].
    now apply Contains_inside.
Qed.

Lemma parse_panics_on_overlap_only_witness :
  exists r,
    review.parseClaudeResponse (str "SUMMARY: $$costs $$ PR_COMMENT:a.go:1: x: $$") []
    = Returned r.
Proof.
  apply (proj2 parse_panics_on_overlap_only).
  apply Index_None. vm_compute. reflexivity.
Defined.

(** X3.  The text before the first PR_COMMENT: marker gives no comment:
    the fragments are the pieces of what follows that marker, so two
    replies that agree from the first marker on have the same comments
    (the diff argument plays no part). *)
Theorem fragments_ignore_preamble :
  forall pre rest,
    first_at (str "PR_COMMENT:") (pre ++ str "PR_COMMENT:" ++ rest) (length pre) ->
    fragments (pre ++ str "PR_COMMENT:" ++ rest) = strings.Split rest (str "PR_COMMENT:")
    /\ forall pre' diff diff' r r',
        first_at (str "PR_COMMENT:") (pre' ++ str "PR_COMMENT:" ++ rest) (length pre') ->
        review.parseClaudeResponse (pre ++ str "PR_COMMENT:" ++ rest) diff = Returned r ->
        review.parseClaudeResponse (pre' ++ str "PR_COMMENT:" ++ rest) diff' = Returned r' ->
        review.Comments r = review.Comments r'.
Proof.
  assert (Hfrag : forall pre rest,
             first_at (str "PR_COMMENT:") (pre ++ str "PR_COMMENT:" ++ rest) (length pre) ->
             fragments (pre ++ str "PR_COMMENT:" ++ rest)
             = strings.Split rest (str "PR_COMMENT:")).
  { intros pre rest H. apply Index_Some in H. unfold fragments.
    rewrite (Split_Some _ (str "PR_COMMENT:") (length pre)) by (discriminate || exact H).
    cbn [skipn].
    replace (length pre + length (str "PR_COMMENT:"))
      with (length (str "PR_COMMENT:") + length pre) by lia.
    now rewrite skipn_add_app, skipn_length_app. }
  intros pre rest H. split; [now apply Hfrag|].
  intros pre' diff diff' r r' H' Hr Hr'.
  rewrite (parseClaudeResponse_comments _ _ _ Hr), (parseClaudeResponse_comments _ _ _ Hr').
  now rewrite (Hfrag pre rest H), (Hfrag pre' rest H').
Qed.

Lemma fragments_ignore_preamble_witness :
  fragments (str "SUMMARY: $$s$$ " ++ str "PR_COMMENT:" ++ str "a.go:1: x: $$y$$")
  = strings.Split (str "a.go:1: x: $$y$$") (str "PR_COMMENT:").
Proof.
  apply (fragments_ignore_preamble (str "SUMMARY: $$s$$ ") (str "a.go:1: x: $$y$$")).
  apply Index_Some. vm_compute. reflexivity.
Defined.

(** ** Trimmed fields *)

Lemma TrimLeftSpace_spec (s : gostring) :
  (exists pre, s = pre ++ strings.TrimLeftSpace s)
  /\ forall c t, strings.TrimLeftSpace s = c :: t -> strings.asciiSpace c = false.
Proof.
  remember (length s) as n eqn:Hn. revert s Hn.
  induction n as [n IH] using lt_wf_ind. intros s Hn.
  destruct s as [|c1 s1]; [split; [now exists [] | discriminate]|].
  cbn [strings.TrimLeftSpace].
  destruct (strings.asciiSpace c1) eqn:E1.
  { destruct (IH (length s1) ltac:(subst n; simpl; lia) s1 eq_refl) as [[pre Hpre] Hhead].
    split; [|exact Hhead]. exists (c1 :: pre). simpl. now rewrite <- Hpre. }
  destruct s1 as [|c2 s2].
  { split; [now exists [] | now intros c t [= <- <-]]. }
  destruct (strings.space2 (nat_of_ascii c1) (nat_of_ascii c2)).
  { destruct (IH (length s2) ltac:(subst n; simpl; lia) s2 eq_refl) as [[pre Hpre] Hhead].
    split; [|exact Hhead]. exists (c1 :: c2 :: pre). simpl. now rewrite <- Hpre. }
  destruct s2 as [|c3 s3].
  { split; [now exists [] | now intros c t [= <- <-]]. }
  destruct (strings.space3 (nat_of_ascii c1) (nat_of_ascii c2) (nat_of_ascii c3)).
  { destruct (IH (length s3) ltac:(subst n; simpl; lia) s3 eq_refl) as [[pre Hpre] Hhead].
    split; [|exact Hhead]. exists (c1 :: c2 :: c3 :: pre). simpl. now rewrite <- Hpre. }
  split; [now exists [] | now intros c t [= <- <-]].
Qed.

Lemma TrimLeftSpace_rev_spec (r : gostring) :
  (exists pre, r = pre ++ strings.TrimLeftSpace_rev r)
  /\ forall c t, strings.TrimLeftSpace_rev r = c :: t -> strings.asciiSpace c = false.
Proof.
  remember (length r) as n eqn:Hn. revert r Hn.
  induction n as [n IH] using lt_wf_ind. intros r Hn.
  destruct r as [|c1 r1]; [split; [now exists [] | discriminate]|].
  cbn [strings.TrimLeftSpace_rev].
  destruct (strings.asciiSpace c1) eqn:E1.
  { destruct (IH (length r1) ltac:(subst n; simpl; lia) r1 eq_refl) as [[pre Hpre] Hhead].
    split; [|exact Hhead]. exists (c1 :: pre). simpl. now rewrite <- Hpre. }
  destruct r1 as [|c2 r2].
  { split; [now exists [] | now intros c t [= <- <-]]. }
  destruct (strings.space2 (nat_of_ascii c2) (nat_of_ascii c1)).
  { destruct (IH (length r2) ltac:(subst n; simpl; lia) r2 eq_refl) as [[pre Hpre] Hhead].
    split; [|exact Hhead]. exists (c1 :: c2 :: pre). simpl. now rewrite <- Hpre. }
  destruct r2 as [|c3 r3].
  { split; [now exists [] | now intros c t [= <- <-]]. }
  destruct (strings.space3 (nat_of_ascii c3) (nat_of_ascii c2) (nat_of_ascii c1)).
  { destruct (IH (length r3) ltac:(subst n; simpl; lia) r3 eq_refl) as [[pre Hpre] Hhead].
    split; [|exact Hhead]. exists (c1 :: c2 :: c3 :: pre). simpl. now rewrite <- Hpre. }
  split; [now exists [] | now intros c t [= <- <-]].
Qed.

(** [TrimSpace] keeps a middle part of the string, with no ASCII white
    space at either end. *)
Lemma TrimSpace_spec (s : gostring) :
  (exists pre post, s = pre ++ strings.TrimSpace s ++ post)
  /\ trimmedEnds (strings.TrimSpace s).
Proof.
  unfold strings.TrimSpace, strings.TrimRightSpace.
  destruct (TrimLeftSpace_spec s) as [[pre Hpre] Hhead].
  set (x := strings.TrimLeftSpace s) in *.
  destruct (TrimLeftSpace_rev_spec (rev x)) as [[post Hpost] Hlast].
  set (y := strings.TrimLeftSpace_rev (rev x)) in *.
  assert (Hx : x = rev y ++ rev post).
  { rewrite <- rev_app_distr, <- Hpost. now rewrite rev_involutive. }
  split.
  - exists pre, (rev post). now rewrite <- Hx.
  - split.
    + intros c t Hc. rewrite Hc in Hx. apply (Hhead c (t ++ rev post)). exact Hx.
    + intros c t Hc. apply (Hlast c (rev t)).
      rewrite <- (rev_involutive y), Hc, rev_app_distr. reflexivity.
Qed.

Lemma trimmedEnds_nil : trimmedEnds [].
Proof.
  split; intros c t H; [discriminate H|]. destruct t; simpl in H; discriminate H.
Qed.

(** X4.  What the parser hands on is trimmed: the path and the category
    tail of every comment, its content, and every extracted section
    neither start nor end with an ASCII white-space byte; the body is
    the tail, an empty line and the content. *)
Theorem parsed_fields_are_trimmed :
  (forall block c,
      review.parsePRCommentBlock block = Returned (Some c) ->
      trimmedEnds (review.Path c)
      /\ exists tail content,
          review.Body c = tail ++ nl ++ nl ++ content
          /\ trimmedEnds tail /\ trimmedEnds content)
  /\ (forall text hdr section,
         review.extractSection text hdr = Returned section -> trimmedEnds section).
Proof.
  split.
  - intros block c. unfold review.parsePRCommentBlock.
    destruct (strings.Index block (str "$$")) as [i|]; [|discriminate].
    destruct (strings.LastIndex block (str "$$")) as [j|]; [|discriminate].
    destruct (j <=? i); [discriminate|].
    destruct (slice_to block i) as [header|]; [|discriminate]. cbn [bind].
    destruct (slice block (i + 2) j) as [content|]; [|discriminate]. cbn [bind].
    destruct (strings.SplitN (strings.TrimSpace header) (str ":") 3)
      as [|p0 [|p1 [|p2 ps]]]; try discriminate.
    destruct (strconv.Atoi (strings.TrimSpace p1)) as [n|]; [|discriminate].
    intros [= <-]. cbn [review.Path review.Body].
    split; [apply TrimSpace_spec|].
    exists (strings.TrimSpace p2), (strings.TrimSpace content).
    split; [apply Sprintf_two|]. split; apply TrimSpace_spec.
  - intros text hdr section. rewrite extractSection_eq. intros [= <-].
    repeat match goal with
           | |- trimmedEnds (match ?x with _ => _ end) => destruct x
           end;
      first [apply trimmedEnds_nil | apply TrimSpace_spec].
Qed.

Lemma parsed_fields_are_trimmed_witness :
  trimmedEnds (str "main.go")
  /\ exists tail content,
      str "issue:" ++ nl ++ nl ++ str "Fix this" = tail ++ nl ++ nl ++ content
      /\ trimmedEnds tail /\ trimmedEnds content.
Proof.
  apply (proj1 parsed_fields_are_trimmed
           (str "  main.go :45: issue: $$ Fix this  $$")
           (commentFor (str "main.go") 45 (str "issue:") (str "Fix this"))).
  vm_compute. reflexivity.
Defined.

(** ** The summary and the poem *)

Lemma TrimLeftSpace_blank (ws : gostring) :
  Forall (fun c => strings.asciiSpace c = true) ws -> strings.TrimLeftSpace ws = [].
Proof.
  induction 1 as [|c ws Hc _ IH]; [reflexivity|].
  cbn [strings.TrimLeftSpace]. now rewrite Hc.
Qed.

Lemma TrimSpace_blank (ws : gostring) :
  Forall (fun c => strings.asciiSpace c = true) ws -> strings.TrimSpace ws = [].
Proof.
  intros H. unfold strings.TrimSpace. now rewrite (TrimLeftSpace_blank ws H).
Qed.

Lemma blank_no_dollar (ws : gostring) :
  Forall (fun c => strings.asciiSpace c = true) ws -> ~ In "$"%char ws.
Proof.
  intros H Hin. rewrite Forall_forall in H. specialize (H _ Hin). discriminate H.
Qed.

(** X5.  The summary of a returned result is the branding, the SUMMARY
    section and, only when the POEM section is not empty, the poem
    heading and the poem.  A POEM block that holds nothing but ASCII
    white space counts as empty. *)
Theorem summary_and_poem :
  (forall claudeText diff r,
      review.parseClaudeResponse claudeText diff = Returned r ->
      exists summary poem,
        review.extractSection claudeText (str "SUMMARY:") = Returned summary
        /\ review.extractSection claudeText (str "POEM:") = Returned poem
        /\ (poem = [] -> review.Summary r = review.branding ++ summary)
        /\ (poem <> [] ->
            review.Summary r = review.branding ++ summary ++ review.poemHeading ++ poem))
  /\ (forall pre gap ws post,
         first_at (str "POEM:") (pre ++ gap ++ str "$$" ++ ws ++ str "$$" ++ post)
           (length pre) ->
         first_at (str "$$") (gap ++ str "$$" ++ ws ++ str "$$" ++ post) (length gap) ->
         Forall (fun c => strings.asciiSpace c = true) ws ->
         review.extractSection (pre ++ gap ++ str "$$" ++ ws ++ str "$$" ++ post) (str "POEM:")
         = Returned []).
Proof.
  split.
  - intros claudeText diff r Hr.
    destruct (parseClaudeResponse_eq claudeText diff) as (summary & poem & Hs & Hp & E).
    rewrite E in Hr. exists summary, poem. split; [exact Hs|]. split; [exact Hp|].
    destruct (review.parseBlocks (fragments claudeText) []) as [cs|]; [|discriminate Hr].
    cbn [bind] in Hr. injection Hr as <-. cbn [review.Summary]. split.
    + intros ->. reflexivity.
    + intros Hne. apply gostring_eqb_neq in Hne. now rewrite Hne.
  - intros pre gap ws post H1 H2 Hws.
    rewrite extractSection_content; [now rewrite (TrimSpace_blank ws Hws) | exact H1 | exact H2 |].
    apply Index_Some.
    rewrite (Index_app_nochar ws _ ["$"%char] "$"%char (blank_no_dollar ws Hws)).
    change ["$"%char; "$"%char] with (str "$$"). rewrite Index_here. cbn [option_map].
    now rewrite Nat.add_0_r.
Qed.

Lemma summary_and_poem_witness :
  review.extractSection (str "SUMMARY: $$ok$$ " ++ str "POEM: " ++ str "$$" ++ str "  "
                           ++ str "$$" ++ str " bye")
    (str "POEM:")
  = Returned [].
Proof.
  apply (proj2 summary_and_poem (str "SUMMARY: $$ok$$ ") (str "POEM: ") (str "  ") (str " bye")).
  - apply Index_Some. vm_compute. reflexivity.
  - apply Index_Some. vm_compute. reflexivity.
  - repeat constructor.
Defined.

(** * The orchestrator *)

Lemma checkPRSize_skip_iff (pr : option bot.PullRequest) :
  review.ShouldReview (bot.checkPRSize pr) = false
  <-> ((bot.GetChangedFiles pr > 25)%Z \/ (bot.GetAdditions pr > 800)%Z
       \/ (int_add (bot.GetAdditions pr) (bot.GetDeletions pr) > 1200)%Z).
Proof.
  rewrite checkPRSize_skips.
  destruct (Z.gtb_spec (bot.GetChangedFiles pr) 25);
    [split; [intros _; lia | reflexivity]|].
  destruct (Z.gtb_spec (bot.GetAdditions pr) 800);
    [split; [intros _; lia | reflexivity]|].
  destruct (Z.gtb_spec (int_add (bot.GetAdditions pr) (bot.GetDeletions pr)) 1200);
    [split; [intros _; lia | reflexivity]|].
  split; [discriminate | intros [? | [? | ?]]; lia].
Qed.

(** X6.  A pull request over a hard limit gets one plain comment with a
    non-empty skip message and nothing else: the outcome is the same
    whatever the configuration, the diff service and the model are, so
    none of them is consulted, and nothing can panic. *)
Theorem oversized_pr_is_skipped :
  forall (pr : option bot.PullRequest) (repo : bot.Repository),
    ((bot.GetChangedFiles pr > 25)%Z \/ (bot.GetAdditions pr > 800)%Z
     \/ (int_add (bot.GetAdditions pr) (bot.GetDeletions pr) > 1200)%Z) ->
    exists message,
      message <> []
      /\ message = review.SkipMessage (bot.checkPRSize pr)
      /\ forall rc GetPRDiff callClaudeAPI,
          bot.ProcessPullRequest rc GetPRDiff callClaudeAPI repo pr
          = Returned (bot.PostComment (bot.OwnerLogin repo) (bot.RepoName repo)
                        (bot.GetNumber pr) message).
Proof.
  intros pr repo H. exists (review.SkipMessage (bot.checkPRSize pr)).
  assert (Hs : review.ShouldReview (bot.checkPRSize pr) = false)
    by now apply checkPRSize_skip_iff.
  split; [|split; [reflexivity|]].
  - revert Hs. rewrite checkPRSize_skips.
    destruct (bot.GetChangedFiles pr >? 25)%Z; [intros _; now apply Sprintf_hash|].
    destruct (bot.GetAdditions pr >? 800)%Z; [intros _; now apply Sprintf_hash|].
    destruct (int_add (bot.GetAdditions pr) (bot.GetDeletions pr) >? 1200)%Z;
      [intros _; now apply Sprintf_hash | discriminate].
  - intros rc GetPRDiff callClaudeAPI. unfold bot.ProcessPullRequest. now rewrite Hs.
Qed.

Lemma oversized_pr_is_skipped_witness :
  exists message,
    message <> []
    /\ message = review.SkipMessage (bot.checkPRSize (changeSet 3 900 10))
    /\ forall rc GetPRDiff callClaudeAPI,
        bot.ProcessPullRequest rc GetPRDiff callClaudeAPI
          {| bot.OwnerLogin := str "acme"; bot.RepoName := str "svc" |} (changeSet 3 900 10)
        = Returned (bot.PostComment (str "acme") (str "svc") 0 message).
Proof.
  apply (oversized_pr_is_skipped (changeSet 3 900 10)
           {| bot.OwnerLogin := str "acme"; bot.RepoName := str "svc" |}).
  right. left. reflexivity.
Defined.

Lemma Summary_branding (claudeText diff : gostring) (r : review.ReviewResult) :
  review.parseClaudeResponse claudeText diff = Returned r ->
  exists rest, review.Summary r = review.branding ++ rest.
Proof.
  destruct (parseClaudeResponse_eq claudeText diff) as (summary & poem & _ & _ & ->).
  destruct (review.parseBlocks (fragments claudeText) []) as [cs|]; [|discriminate].
  cbn [bind]. intros [= <-]. cbn [review.Summary]. eexists. reflexivity.
Qed.

(** X7.  When the size gate lets the pull request through, the diff is
    available and the reply parses, exactly one review is posted: its
    comments are the parsed comments, unchanged, and its summary is the
    size warning (possibly empty) followed by the parsed summary, hence
    by the branding. *)
Theorem review_is_posted_with_warning :
  forall rc GetPRDiff callClaudeAPI repo pr diff r,
    review.ShouldReview (bot.checkPRSize pr) = true ->
    GetPRDiff (bot.OwnerLogin repo) (bot.RepoName repo) (bot.GetNumber pr) = Some diff ->
    review.parseClaudeResponse
      (callClaudeAPI diff (bot.GetTitle pr) (bot.GetBody pr)
         (bot.repoConfigOrDefault rc (bot.OwnerLogin repo) (bot.RepoName repo))) diff
    = Returned r ->
    exists result,
      bot.ProcessPullRequest rc GetPRDiff callClaudeAPI repo pr
      = Returned (bot.PostReview (bot.OwnerLogin repo) (bot.RepoName repo)
                    (bot.GetNumber pr) result)
      /\ review.Summary result
         = review.WarningMessage (bot.checkPRSize pr) ++ review.Summary r
      /\ review.Comments result = review.Comments r
      /\ exists rest,
          review.Summary result
          = review.WarningMessage (bot.checkPRSize pr) ++ review.branding ++ rest.
Proof.
  intros rc GetPRDiff callClaudeAPI repo pr diff r Hs Hd Hr.
  exists (withWarning (review.WarningMessage (bot.checkPRSize pr)) r).
  assert (Hsum : review.Summary (withWarning (review.WarningMessage (bot.checkPRSize pr)) r)
                 = review.WarningMessage (bot.checkPRSize pr) ++ review.Summary r).
  { unfold withWarning.
    destruct (gostring_eqb (review.WarningMessage (bot.checkPRSize pr)) []) eqn:E;
      [|reflexivity].
    apply gostring_eqb_eq in E. now rewrite E. }
  split; [|split; [exact Hsum|split]].
  - unfold bot.ProcessPullRequest, review.GenerateReview. rewrite Hs, Hd. cbn [negb].
    rewrite Hr. reflexivity.
  - unfold withWarning.
    now destruct (gostring_eqb (review.WarningMessage (bot.checkPRSize pr)) []).
  - destruct (Summary_branding _ _ _ Hr) as [rest Hrest].
    exists rest. now rewrite Hsum, Hrest.
Qed.

Lemma review_is_posted_with_warning_witness :
  exists result,
    bot.ProcessPullRequest acmeOnly
      (fun _ _ _ => Some (str "=== a.go ==="))
      (fun _ _ _ _ => str "SUMMARY: $$Fine.$$ PR_COMMENT:a.go:3: nit: $$Rename.$$")
      {| bot.OwnerLogin := str "acme"; bot.RepoName := str "svc" |} (changeSet 22 30 4)
    = Returned (bot.PostReview (str "acme") (str "svc") 0 result)
    /\ review.Summary result
       = review.WarningMessage (bot.checkPRSize (changeSet 22 30 4))
           ++ review.branding ++ str "Fine."
    /\ review.Comments result
       = [commentFor (str "a.go") 3 (str "nit:") (str "Rename.")]
    /\ exists rest,
        review.Summary result
        = review.WarningMessage (bot.checkPRSize (changeSet 22 30 4))
            ++ review.branding ++ rest.
Proof.
  exact (review_is_posted_with_warning acmeOnly
           (fun _ _ _ => Some (str "=== a.go ==="))
           (fun _ _ _ _ => str "SUMMARY: $$Fine.$$ PR_COMMENT:a.go:3: nit: $$Rename.$$")
           {| bot.OwnerLogin := str "acme"; bot.RepoName := str "svc" |} (changeSet 22 30 4)
           (str "=== a.go ===")
           {| review.Summary := review.branding ++ str "Fine.";
              review.Comments := [commentFor (str "a.go") 3 (str "nit:") (str "Rename.")] |}
           eq_refl eq_refl eq_refl).
Defined.

(** X8.  When the size gate lets the pull request through but the diff
    cannot be fetched, nothing is posted, whatever the model would say.
    When the reply holds a fragment whose delimiters overlap, the unit
    of work panics: no review and no comment is posted. *)
Theorem nothing_posted_on_failure :
  forall rc GetPRDiff repo pr,
    review.ShouldReview (bot.checkPRSize pr) = true ->
    (GetPRDiff (bot.OwnerLogin repo) (bot.RepoName repo) (bot.GetNumber pr) = None ->
     forall callClaudeAPI,
       bot.ProcessPullRequest rc GetPRDiff callClaudeAPI repo pr = Returned bot.NothingPosted)
    /\ (forall callClaudeAPI diff,
           GetPRDiff (bot.OwnerLogin repo) (bot.RepoName repo) (bot.GetNumber pr)
           = Some diff ->
           Exists overlapping
             (fragments
                (callClaudeAPI diff (bot.GetTitle pr) (bot.GetBody pr)
                   (bot.repoConfigOrDefault rc (bot.OwnerLogin repo) (bot.RepoName repo)))) ->
           bot.ProcessPullRequest rc GetPRDiff callClaudeAPI repo pr = Panicked).
Proof.
  intros rc GetPRDiff repo pr Hs. split.
  - intros Hd callClaudeAPI. unfold bot.ProcessPullRequest. now rewrite Hs, Hd.
  - intros callClaudeAPI diff Hd Ho.
    unfold bot.ProcessPullRequest, review.GenerateReview. rewrite Hs, Hd. cbn [negb].
    apply (parseClaudeResponse_Panicked _ diff) in Ho. now rewrite Ho.
Qed.

Lemma nothing_posted_on_failure_witness :
  bot.ProcessPullRequest acmeOnly (fun _ _ _ => None)
    (fun _ _ _ _ => str "SUMMARY: $$Fine.$$")
    {| bot.OwnerLogin := str "acme"; bot.RepoName := str "svc" |} (changeSet 2 30 4)
  = Returned bot.NothingPosted
  /\ bot.ProcessPullRequest acmeOnly (fun _ _ _ => Some (str "=== a.go ==="))
       (fun _ _ _ _ => str "PR_COMMENT:a.go:1: note: costs $$$")
       {| bot.OwnerLogin := str "acme"; bot.RepoName := str "svc" |} (changeSet 2 30 4)
     = Panicked.
Proof.
  split.
  - apply (proj1 (nothing_posted_on_failure acmeOnly (fun _ _ _ => None)
                    {| bot.OwnerLogin := str "acme"; bot.RepoName := str "svc" |}
                    (changeSet 2 30 4) eq_refl)).
    reflexivity.
  - apply (proj2 (nothing_posted_on_failure acmeOnly (fun _ _ _ => Some (str "=== a.go ==="))
                    {| bot.OwnerLogin := str "acme"; bot.RepoName := str "svc" |}
                    (changeSet 2 30 4) eq_refl)
             (fun _ _ _ _ => str "PR_COMMENT:a.go:1: note: costs $$$") (str "=== a.go ===")).
    + reflexivity.
    + apply (parseClaudeResponse_Panicked _ []). vm_compute. reflexivity.
Defined.

(** * The diff sent to the model *)

Lemma Sprintf_frame (filename : gostring) :
  fmt.Sprintf (str "=== %s ===" ++ nl) [fmt.Str filename]
  = str "=== " ++ filename ++ str " ===" ++ nl.
Proof. reflexivity. Qed.

Lemma diffOfFiles_acc (mapLower : gostring -> gostring) (files : list review.CommitFile)
    (acc : gostring) :
  review.diffOfFiles mapLower files acc
  = acc ++ concat (map framed (filter (included mapLower) files)).
Proof.
  revert acc. induction files as [|file files IH]; intros acc.
  - simpl. now rewrite app_nil_r.
  - cbn [review.diffOfFiles filter]. unfold included at 1.
    destruct (gostring_eqb (review.Patch file) []); cbn [negb andb orb]; [apply IH|].
    destruct (Z.gtb_spec (review.Changes file) 500) as [Hgt | Hle].
    + destruct (Z.leb_spec (review.Changes file) 500); [lia|]. cbn [andb]. apply IH.
    + destruct (Z.leb_spec (review.Changes file) 500); [|lia]. cbn [andb].
      destruct (review.isBinaryFile mapLower (review.Filename file)); cbn [negb];
        [apply IH|].
      rewrite IH, Sprintf_frame. cbn [map concat]. unfold framed.
      now rewrite <- !app_assoc.
Qed.

(** X9.  The diff is the concatenation, in the order of the listing, of
    one frame per included file: the line === name ===, the patch and
    an empty line.  A file with an empty patch, with more than 500
    changes or with a binary extension contributes nothing, so the diff
    of two listings put together is the two diffs put together.  An
    error of the listing is passed on, wrapped. *)
Theorem diff_is_frames_of_included_files :
  forall mapLower,
    (forall files,
        review.GetPRDiff mapLower (inl files)
        = inl (concat (map framed (filter (included mapLower) files))))
    /\ (forall files files',
           review.diffOfFiles mapLower (files ++ files') []
           = review.diffOfFiles mapLower files [] ++ review.diffOfFiles mapLower files' [])
    /\ (forall err,
           review.GetPRDiff mapLower (inr err) = inr (str "failed to get PR files: " ++ err)).
Proof.
  intros mapLower. split; [|split].
  - intros files. unfold review.GetPRDiff. now rewrite diffOfFiles_acc.
  - intros files files'. rewrite !diffOfFiles_acc. cbn [app].
    now rewrite filter_app, map_app, concat_app.
  - intros err. unfold review.GetPRDiff. cbn. now rewrite app_nil_r.
Qed.

Lemma framed_not_nil (file : review.CommitFile) : framed file <> [].
Proof. unfold framed. discriminate. Qed.

Lemma Contains_concat (l : list gostring) (x : gostring) :
  In x l -> Contains (concat l) x.
Proof.
  intros H. apply in_split in H as (l1 & l2 & ->).
  rewrite concat_app. cbn [concat].
  exists (length (concat l1)), (concat l1), (concat l2). split; reflexivity.
Qed.

(** X10.  The diff is empty exactly when no listed file is included, and
    the frame of every included file occurs in it. *)
Theorem diff_empty_iff_nothing_included :
  forall mapLower files,
    (review.diffOfFiles mapLower files [] = []
     <-> forall file, In file files -> included mapLower file = false)
    /\ (forall file,
           In file files -> included mapLower file = true ->
           Contains (review.diffOfFiles mapLower files []) (framed file)).
Proof.
  intros mapLower files. rewrite diffOfFiles_acc. cbn [app]. split.
  - induction files as [|f files IH]; cbn [filter].
    + split; [intros _ file [] | reflexivity].
    + destruct (included mapLower f) eqn:E.
      * cbn [map concat]. split.
        -- intros H. apply app_eq_nil in H as [H _]. now apply framed_not_nil in H.
        -- intros H. specialize (H f (or_introl eq_refl)). congruence.
      * rewrite IH. split.
        -- intros H file [<- | Hin]; [exact E | now apply H].
        -- intros H file Hin. apply H. now right.
  - intros file Hin Hinc. apply Contains_concat. apply in_map.
    apply filter_In. now split.
Qed.

Lemma diff_empty_iff_nothing_included_witness :
  Contains
    (review.diffOfFiles (fun s => s)
       [ {| review.Filename := str "logo.PNG"; review.Patch := str "+x"; review.Changes := 1 |};
         {| review.Filename := str "main.go"; review.Patch := str "+a"; review.Changes := 2 |} ]
       [])
    (framed {| review.Filename := str "main.go"; review.Patch := str "+a";
               review.Changes := 2 |}).
Proof.
  apply (proj2 (diff_empty_iff_nothing_included (fun s => s) _)).
  - right. left. reflexivity.
  - vm_compute. reflexivity.
Defined.

(** ** Binary files *)

Lemma ToLower_ascii (mapLower : gostring -> gostring) (s : gostring) :
  asciiOnly s -> strings.ToLower mapLower s = map strings.lowerASCII s.
Proof.
  intros H. unfold strings.ToLower.
  replace (forallb (fun c => nat_of_ascii c <? 128) s) with true; [reflexivity|].
  symmetry. apply forallb_forall. intros c Hc.
  apply Nat.ltb_lt. unfold asciiOnly in H. rewrite Forall_forall in H. now apply H.
Qed.

Lemma HasSuffix_true (s suffix : gostring) :
  strings.HasSuffix s suffix = true <-> exists pre, s = pre ++ suffix.
Proof.
  unfold strings.HasSuffix. rewrite andb_true_iff, Nat.leb_le, gostring_eqb_eq. split.
  - intros [_ H]. exists (firstn (length s - length suffix) s).
    symmetry. etransitivity; [|apply (firstn_skipn (length s - length suffix))].
    now rewrite H.
  - intros [pre ->]. rewrite length_app. split; [lia|].
    replace (length pre + length suffix - length suffix) with (length pre) by lia.
    apply skipn_length_app.
Qed.

Lemma lowerASCII_dot (c : ascii) : strings.lowerASCII c = "."%char -> c = "."%char.
Proof.
  unfold strings.lowerASCII.
  destruct ((65 <=? nat_of_ascii c) && (nat_of_ascii c <=? 90)) eqn:E; [|auto].
  apply andb_true_iff in E as [H1 H2]. apply Nat.leb_le in H1, H2.
  intros H. apply (f_equal nat_of_ascii) in H.
  rewrite nat_ascii_embedding in H by lia. cbn in H. lia.
Qed.

Lemma binaryExtensions_shape :
  Forall (fun ext => (exists t, ext = "."%char :: t) /\ map strings.lowerASCII ext = ext)
    review.binaryExtensions.
Proof.
  repeat constructor; eexists; reflexivity.
Qed.

(** X11.  For a file name of ASCII bytes the test for a binary file does
    not look at letter case (nor at the mapping for other strings): two
    names that are equal up to case get the same answer.  A name that
    ends, in any letter case, with a listed extension is binary; a name
    without a dot is not. *)
Theorem binary_extension_detection :
  forall mapLower,
    (forall mapLower' f g,
        asciiOnly f -> asciiOnly g ->
        map strings.lowerASCII f = map strings.lowerASCII g ->
        review.isBinaryFile mapLower f = review.isBinaryFile mapLower' g)
    /\ (forall base ending ext,
           In ext review.binaryExtensions ->
           asciiOnly base -> asciiOnly ending ->
           map strings.lowerASCII ending = ext ->
           review.isBinaryFile mapLower (base ++ ending) = true)
    /\ (forall f,
           asciiOnly f -> ~ In "."%char f -> review.isBinaryFile mapLower f = false).
Proof.
  intros mapLower. split; [|split].
  - intros mapLower' f g Hf Hg E. unfold review.isBinaryFile.
    now rewrite (ToLower_ascii _ f Hf), (ToLower_ascii _ g Hg), E.
  - intros base ending ext Hext Hb He E. unfold review.isBinaryFile.
    rewrite ToLower_ascii by (apply Forall_app; now split).
    rewrite map_app, E. apply existsb_exists. exists ext. split; [exact Hext|].
    apply HasSuffix_true. now exists (map strings.lowerASCII base).
  - intros f Hf Hdot. unfold review.isBinaryFile. rewrite (ToLower_ascii _ f Hf).
    destruct (existsb _ review.binaryExtensions) eqn:E; [|reflexivity].
    exfalso. apply existsb_exists in E as (ext & Hext & Hsuf).
    apply HasSuffix_true in Hsuf as [pre Hpre].
    pose proof binaryExtensions_shape as Hshape. rewrite Forall_forall in Hshape.
    destruct (Hshape ext Hext) as [[t ->] _].
    assert (Hin : In "."%char (map strings.lowerASCII f)).
    { rewrite Hpre. apply in_or_app. right. now left. }
    apply in_map_iff in Hin as (c & Hc & Hcin).
    apply lowerASCII_dot in Hc. subst c. contradiction.
Qed.

Lemma binary_extension_detection_witness :
  review.isBinaryFile (fun s => s) (str "assets/Logo.PNG") = true
  /\ review.isBinaryFile (fun s => s) (str "Makefile") = false
  /\ review.isBinaryFile (fun s => s) (str "a.JPG") = review.isBinaryFile (fun _ => []) (str "A.jpg").
Proof.
  destruct (binary_extension_detection (fun s => s)) as (Hcase & Hext & Hdot).
  split; [|split].
  - apply (Hext (str "assets/Logo") (str ".PNG") (str ".png")).
    + vm_compute. tauto.
    + repeat constructor.
    + repeat constructor.
    + reflexivity.
  - apply Hdot; [repeat constructor | vm_compute; intuition discriminate].
  - apply Hcase; [repeat constructor | repeat constructor | reflexivity].
Defined.

(** ** The review request *)

Lemma Comments_side (claudeText diff : gostring) (r : review.ReviewResult) :
  review.parseClaudeResponse claudeText diff = Returned r ->
  Forall (fun c => review.Side c = str "RIGHT") (review.Comments r).
Proof.
  intros Hr. rewrite (parseClaudeResponse_comments _ _ _ Hr).
  apply Forall_forall. intros c Hc.
  apply in_flat_map in Hc as (block & _ & Hc). unfold commentsOf in Hc.
  destruct (review.parsePRCommentBlock block) as [[c'|]|] eqn:E; try contradiction.
  destruct Hc as [-> | []]. now apply parsePRCommentBlock_Some in E.
Qed.

(** X12.  The request built for a parsed reply, with or without a size
    warning in front, is a plain comment review: its event is COMMENT
    (never an approval or a request for changes), its body starts with
    the warning and the branding, and it has one draft comment per
    parsed comment, in the same order, with the same path, line and
    body, each on the side RIGHT. *)
Theorem review_request_is_comment_only :
  forall claudeText diff r warning,
    review.parseClaudeResponse claudeText diff = Returned r ->
    review.Event (review.reviewRequest (withWarning warning r)) = str "COMMENT"
    /\ (exists rest,
           review.RequestBody (review.reviewRequest (withWarning warning r))
           = warning ++ review.branding ++ rest)
    /\ map (fun d => (review.DraftPath d, review.DraftLine d, review.DraftBody d))
         (review.RequestComments (review.reviewRequest (withWarning warning r)))
       = map (fun c => (review.Path c, review.Line c, review.Body c)) (review.Comments r)
    /\ Forall (fun d => review.DraftSide d = str "RIGHT")
         (review.RequestComments (review.reviewRequest (withWarning warning r))).
Proof.
  intros claudeText diff r warning Hr.
  assert (Hc : review.Comments (withWarning warning r) = review.Comments r).
  { unfold withWarning. now destruct (gostring_eqb warning []). }
  assert (Hs : review.Summary (withWarning warning r) = warning ++ review.Summary r).
  { unfold withWarning. destruct (gostring_eqb warning []) eqn:E; [|reflexivity].
    apply gostring_eqb_eq in E. now rewrite E. }
  unfold review.reviewRequest. cbn [review.Event review.RequestBody review.RequestComments].
  rewrite Hc, Hs. split; [reflexivity|]. split; [|split].
  - destruct (Summary_branding _ _ _ Hr) as [rest ->]. now exists rest.
  - rewrite map_map. reflexivity.
  - apply Forall_map. cbn [review.DraftSide]. eapply Comments_side. exact Hr.
Qed.

Lemma review_request_is_comment_only_witness :
  review.Event
    (review.reviewRequest
       (withWarning (str "Large. ")
          {| review.Summary := review.branding ++ str "Fine.";
             review.Comments := [commentFor (str "a.go") 3 (str "nit:") (str "Rename.")] |}))
  = str "COMMENT"
  /\ review.RequestBody
       (review.reviewRequest
          (withWarning (str "Large. ")
             {| review.Summary := review.branding ++ str "Fine.";
                review.Comments := [commentFor (str "a.go") 3 (str "nit:") (str "Rename.")] |}))
     = str "Large. " ++ review.branding ++ str "Fine.".
Proof.
  destruct (review_request_is_comment_only
              (str "SUMMARY: $$Fine.$$ PR_COMMENT:a.go:3: nit: $$Rename.$$") []
              {| review.Summary := review.branding ++ str "Fine.";
                 review.Comments := [commentFor (str "a.go") 3 (str "nit:") (str "Rename.")] |}
              (str "Large. ") eq_refl) as (He & _ & _ & _).
  split; [exact He | reflexivity].
Defined.

(** * The environment file *)

Lemma asciiSpace_printable (c : ascii) :
  33 <= nat_of_ascii c <= 126 -> strings.asciiSpace c = false.
Proof.
  intros H. unfold strings.asciiSpace.
  destruct (Nat.leb_spec (nat_of_ascii c) 13); [lia|].
  destruct (Nat.eqb_spec (nat_of_ascii c) 32); [lia|].
  now rewrite andb_false_r.
Qed.

Lemma space2_first (b1 b2 : nat) : b1 < 128 -> strings.space2 b1 b2 = false.
Proof.
  intros H. unfold strings.space2. destruct (Nat.eqb_spec b1 194); [lia | reflexivity].
Qed.

Lemma space3_first (b1 b2 b3 : nat) : b1 < 128 -> strings.space3 b1 b2 b3 = false.
Proof.
  intros H. unfold strings.space3.
  destruct (Nat.eqb_spec b1 225); [lia|]. destruct (Nat.eqb_spec b1 226); [lia|].
  destruct (Nat.eqb_spec b1 227); [lia | reflexivity].
Qed.

Lemma space2_last (b1 b2 : nat) : b2 < 128 -> strings.space2 b1 b2 = false.
Proof.
  intros H. unfold strings.space2.
  destruct (Nat.eqb_spec b2 133); [lia|]. destruct (Nat.eqb_spec b2 160); [lia|].
  apply andb_false_r.
Qed.

Lemma space3_last (b1 b2 b3 : nat) : b3 < 128 -> strings.space3 b1 b2 b3 = false.
Proof.
  intros H. unfold strings.space3.
  destruct (Nat.eqb_spec b3 128); [lia|]. destruct (Nat.leb_spec 128 b3); [lia|].
  destruct (Nat.eqb_spec b3 168); [lia|]. destruct (Nat.eqb_spec b3 169); [lia|].
  destruct (Nat.eqb_spec b3 175); [lia|]. destruct (Nat.eqb_spec b3 159); [lia|].
  cbn [andb orb]. now rewrite !andb_false_r.
Qed.

Lemma TrimLeftSpace_printable (c : ascii) (t : gostring) :
  33 <= nat_of_ascii c <= 126 -> strings.TrimLeftSpace (c :: t) = c :: t.
Proof.
  intros H. cbn [strings.TrimLeftSpace]. rewrite (asciiSpace_printable c H).
  destruct t as [|c2 t]; [reflexivity|]. rewrite space2_first by lia.
  destruct t as [|c3 t]; [reflexivity|]. now rewrite space3_first by lia.
Qed.

Lemma TrimLeftSpace_rev_printable (c : ascii) (t : gostring) :
  33 <= nat_of_ascii c <= 126 -> strings.TrimLeftSpace_rev (c :: t) = c :: t.
Proof.
  intros H. cbn [strings.TrimLeftSpace_rev]. rewrite (asciiSpace_printable c H).
  destruct t as [|c2 t]; [reflexivity|]. rewrite space2_last by lia.
  destruct t as [|c3 t]; [reflexivity|]. now rewrite space3_last by lia.
Qed.

(** A string between two printable ASCII bytes is left as it is. *)
Lemma TrimSpace_fixed (c d : ascii) (t t' : gostring) :
  33 <= nat_of_ascii c <= 126 -> 33 <= nat_of_ascii d <= 126 ->
  c :: t = t' ++ [d] -> strings.TrimSpace (c :: t) = c :: t.
Proof.
  intros Hc Hd E. unfold strings.TrimSpace, strings.TrimRightSpace.
  rewrite (TrimLeftSpace_printable c t Hc), E, rev_app_distr. cbn [rev app].
  rewrite (TrimLeftSpace_rev_printable d (rev t') Hd).
  cbn [rev]. now rewrite rev_involutive.
Qed.

Lemma TrimSpace_subset (s : gostring) (c : ascii) :
  In c (strings.TrimSpace s) -> In c s.
Proof.
  destruct (TrimSpace_spec s) as [(pre & post & E) _]. intros H.
  rewrite E. apply in_or_app. right. apply in_or_app. now left.
Qed.

Lemma SplitN_no_equals (line : gostring) :
  ~ In equals line -> strings.SplitN line (str "=") 2 = [line].
Proof.
  intros H. unfold strings.SplitN, strings.genSplit. cbn [Z.eqb Z.ltb Z.compare].
  assert (Hi : strings.Index line (str "=") = None).
  { change (str "=") with [equals]. rewrite <- (app_nil_r line) at 1.
    now rewrite (Index_app_nochar line [] [] equals H). }
  destruct (Z.to_nat _) as [|k]; cbn [strings.genSplit_loop]; [reflexivity|].
  now rewrite Hi.
Qed.

Lemma SplitN_assignment (key rest : gostring) :
  ~ In equals key ->
  strings.SplitN (key ++ str "=" ++ rest) (str "=") 2 = [key; rest].
Proof.
  intros H. unfold strings.SplitN, strings.genSplit, len. cbn [Z.eqb Z.ltb Z.compare].
  set (s := key ++ str "=" ++ rest).
  assert (Hs : 1 <= length s) by (subst s; rewrite length_app; cbn; lia).
  destruct (Z.gtb_spec 2 (Z.of_nat (length s) + 1)); [lia|].
  change (Z.to_nat (2 - 1)) with 1. subst s. cbn [strings.genSplit_loop].
  change (str "=") with [equals]. rewrite (Index_app_nochar key _ [] equals H).
  change ([equals] ++ rest) with (equals :: rest). rewrite Index_cons.
  cbn [strings.HasPrefix]. rewrite Ascii.eqb_refl.
  cbn [andb option_map]. rewrite Nat.add_0_r, firstn_field.
  change (length (equals :: [])) with 1. now rewrite skipn_field.
Qed.

Lemma loadEnvLines_returns (lines : list gostring) (env : os.environ) :
  exists env', config.loadEnvLines lines env = Returned env'.
Proof.
  revert env. induction lines as [|line rest IH]; intros env; [now exists env|].
  cbn [config.loadEnvLines].
  destruct (gostring_eqb (strings.TrimSpace line) []
            || strings.HasPrefix (strings.TrimSpace line) (str "#")); [apply IH|].
  destruct (strings.SplitN (strings.TrimSpace line) (str "=") 2) as [|p0 [|p1 [|p2 ps]]];
    try apply IH.
  set (value := strings.TrimSpace p1).
  destruct (2 <=? length value) eqn:G; cbn [andb].
  - apply Nat.leb_le in G.
    destruct ((config.byteAt value 0 =? 34)
              && (config.byteAt value (length value - 1) =? 34)
              || (config.byteAt value 0 =? 39)
                 && (config.byteAt value (length value - 1) =? 39)).
    + rewrite slice_ok by lia. cbn [bind]. destruct (os.Setenv _ _ _); apply IH.
    + cbn [bind]. destruct (os.Setenv _ _ _); apply IH.
  - cbn [bind]. destruct (os.Setenv _ _ _); apply IH.
Qed.

Lemma loadEnvLines_app (a b : list gostring) (env : os.environ) :
  config.loadEnvLines (a ++ b) env
  = (env' <- config.loadEnvLines a env ;; config.loadEnvLines b env').
Proof.
  revert env. induction a as [|line rest IH]; intros env; [reflexivity|].
  cbn [app config.loadEnvLines].
  destruct (gostring_eqb (strings.TrimSpace line) []
            || strings.HasPrefix (strings.TrimSpace line) (str "#")); [apply IH|].
  destruct (strings.SplitN (strings.TrimSpace line) (str "=") 2) as [|p0 [|p1 [|p2 ps]]];
    try apply IH.
  match goal with
  | |- bind ?m _ = _ => destruct m as [value|]; [|reflexivity]
  end.
  cbn [bind]. destruct (os.Setenv _ _ _); apply IH.
Qed.

(** One line that binds [key] to [value]. *)
Lemma loadEnvLines_binding (line : gostring) (rest : list gostring) (env env' : os.environ)
    (key raw value : gostring) :
  strings.TrimSpace line = key ++ str "=" ++ raw ->
  strings.HasPrefix (strings.TrimSpace line) (str "#") = false ->
  ~ In equals key ->
  strings.TrimSpace key = key ->
  (if (2 <=? length (strings.TrimSpace raw))
      && (((config.byteAt (strings.TrimSpace raw) 0 =? 34)
           && (config.byteAt (strings.TrimSpace raw)
                 (length (strings.TrimSpace raw) - 1) =? 34))
          || ((config.byteAt (strings.TrimSpace raw) 0 =? 39)
              && (config.byteAt (strings.TrimSpace raw)
                    (length (strings.TrimSpace raw) - 1) =? 39)))
   then slice (strings.TrimSpace raw) 1 (length (strings.TrimSpace raw) - 1)
   else Returned (strings.TrimSpace raw)) = Returned value ->
  os.Setenv env key value = Some env' ->
  config.loadEnvLines (line :: rest) env = config.loadEnvLines rest env'.
Proof.
  intros Hline Hhash Hkey Htrim Hvalue Hset. cbn [config.loadEnvLines].
  rewrite Hhash, Hline.
  replace (gostring_eqb (key ++ str "=" ++ raw) []) with false
    by (destruct key; reflexivity).
  cbn [orb]. rewrite (SplitN_assignment key raw Hkey), Htrim, Hvalue. cbn [bind].
  now rewrite Hset.
Qed.

(** ** The scanner *)

Lemma not_lf (c : ascii) : c <> lf -> (nat_of_ascii c =? 10) = false.
Proof.
  intros H. apply Nat.eqb_neq. intros E. apply H.
  rewrite <- (ascii_nat_embedding c), E. reflexivity.
Qed.

Lemma len_rev (l : gostring) : len (rev l) = len l.
Proof. unfold len. now rewrite length_rev. Qed.

(** The bytes before a line feed are collected. *)
Lemma scanLines_noLF (l data line : gostring) :
  noLF l -> bufio.scanLines (l ++ data) line = bufio.scanLines data (rev l ++ line).
Proof.
  revert line. induction l as [|c l IH]; intros line H; [reflexivity|].
  cbn [app bufio.scanLines]. rewrite not_lf by (intros ->; apply H; now left).
  rewrite IH by (intros Hin; apply H; now right).
  cbn [rev]. now rewrite <- app_assoc.
Qed.

(** Once the buffer is full the scanner gives nothing more. *)
Lemma scanLines_full (data line : gostring) :
  (bufio.MaxScanTokenSize <= len line)%Z -> bufio.scanLines data line = [].
Proof.
  revert line. induction data as [|c data IH]; intros line H; cbn [bufio.scanLines].
  - destruct line as [|d line]; [reflexivity|].
    destruct (Z.ltb_spec (len (d :: line)) bufio.MaxScanTokenSize); [lia | reflexivity].
  - destruct (nat_of_ascii c =? 10).
    + destruct (Z.ltb_spec (len line) bufio.MaxScanTokenSize); [lia | reflexivity].
    + apply IH. unfold len in *. cbn [length]. lia.
Qed.

Lemma Lines_short (l rest : gostring) :
  scannable l -> bufio.Lines (l ++ nl ++ rest) = bufio.dropCR l :: bufio.Lines rest.
Proof.
  intros [Hl Hs]. unfold bufio.Lines. rewrite scanLines_noLF by exact Hl.
  unfold nl. cbn [app bufio.scanLines].
  change (nat_of_ascii (ascii_of_nat 10) =? 10) with true. cbv iota.
  rewrite app_nil_r, len_rev.
  destruct (Z.ltb_spec (len l) bufio.MaxScanTokenSize); [|lia].
  now rewrite rev_involutive.
Qed.

Lemma Lines_long (l rest : gostring) :
  noLF l -> (bufio.MaxScanTokenSize <= len l)%Z -> bufio.Lines (l ++ rest) = [].
Proof.
  intros Hl Hs. unfold bufio.Lines. rewrite scanLines_noLF by exact Hl.
  apply scanLines_full. now rewrite app_nil_r, len_rev.
Qed.

Lemma Lines_last (l : gostring) :
  scannable l -> l <> [] -> bufio.Lines l = [bufio.dropCR l].
Proof.
  intros [Hl Hs] Hne. unfold bufio.Lines. rewrite <- (app_nil_r l) at 1.
  rewrite scanLines_noLF by exact Hl. rewrite app_nil_r. cbn [bufio.scanLines].
  destruct (rev l) as [|d r] eqn:E.
  - exfalso. apply Hne. apply (f_equal (@rev ascii)) in E.
    now rewrite rev_involutive in E.
  - rewrite <- E, len_rev.
    destruct (Z.ltb_spec (len l) bufio.MaxScanTokenSize); [|lia].
    now rewrite rev_involutive.
Qed.

Lemma Lines_unlines (lines : list gostring) (rest : gostring) :
  Forall scannable lines ->
  bufio.Lines (unlines lines ++ rest) = map bufio.dropCR lines ++ bufio.Lines rest.
Proof.
  induction 1 as [|l lines Hl _ IH]; [reflexivity|].
  change (unlines (l :: lines)) with ((l ++ nl) ++ unlines lines).
  rewrite <- !app_assoc, Lines_short by exact Hl. cbn [map app]. now rewrite IH.
Qed.

Lemma Lines_unlines_nil (lines : list gostring) :
  Forall scannable lines -> bufio.Lines (unlines lines) = map bufio.dropCR lines.
Proof.
  intros H. rewrite <- (app_nil_r (unlines lines)), (Lines_unlines lines [] H).
  apply app_nil_r.
Qed.

Lemma dropCR_keeps (t : gostring) (d : ascii) :
  nat_of_ascii d <> 13 -> bufio.dropCR (t ++ [d]) = t ++ [d].
Proof.
  intros H. unfold bufio.dropCR. rewrite rev_app_distr. cbn [rev app].
  now apply Nat.eqb_neq in H as ->.
Qed.

Lemma dropCR_cases (s : gostring) :
  bufio.dropCR s = s \/ s = bufio.dropCR s ++ [cr].
Proof.
  unfold bufio.dropCR. destruct (rev s) as [|c r] eqn:E; [now left|].
  destruct (Nat.eqb_spec (nat_of_ascii c) 13) as [H | H]; [|now left]. right.
  apply (f_equal (@rev ascii)) in E. rewrite rev_involutive in E. cbn [rev] in E.
  rewrite E. f_equal. f_equal. rewrite <- (ascii_nat_embedding c), H. reflexivity.
Qed.

Lemma In_dropCR (s : gostring) (c : ascii) : In c (bufio.dropCR s) -> In c s.
Proof.
  destruct (dropCR_cases s) as [-> | E]; [tauto|]. intros H. rewrite E.
  apply in_or_app. now left.
Qed.

(** A carriage return at the end is white space: it goes with the
    trimming, so a line read from a file with CR LF line ends is
    treated like the line without it. *)
Lemma TrimLeftSpace_cr (t : gostring) :
  strings.TrimLeftSpace (t ++ [cr])
  = match strings.TrimLeftSpace t with
    | [] => []
    | c :: x => (c :: x) ++ [cr]
    end.
Proof.
  remember (length t) as n eqn:Hn. revert t Hn.
  induction n as [n IH] using lt_wf_ind. intros t Hn.
  destruct t as [|c1 s1]; [reflexivity|].
  cbn [app strings.TrimLeftSpace].
  destruct (strings.asciiSpace c1) eqn:E1.
  { apply (IH (length s1)); [subst n; simpl; lia | reflexivity]. }
  destruct s1 as [|c2 s2].
  { cbn [app]. rewrite space2_last by (change (nat_of_ascii cr) with 13; lia).
    reflexivity. }
  cbn [app].
  destruct (strings.space2 (nat_of_ascii c1) (nat_of_ascii c2)).
  { apply (IH (length s2)); [subst n; simpl; lia | reflexivity]. }
  destruct s2 as [|c3 s3].
  { cbn [app]. rewrite space3_last by (change (nat_of_ascii cr) with 13; lia).
    reflexivity. }
  cbn [app].
  destruct (strings.space3 (nat_of_ascii c1) (nat_of_ascii c2) (nat_of_ascii c3)).
  { apply (IH (length s3)); [subst n; simpl; lia | reflexivity]. }
  reflexivity.
Qed.

Lemma TrimSpace_cr (t : gostring) : strings.TrimSpace (t ++ [cr]) = strings.TrimSpace t.
Proof.
  unfold strings.TrimSpace, strings.TrimRightSpace. rewrite TrimLeftSpace_cr.
  destruct (strings.TrimLeftSpace t) as [|c x]; [reflexivity|].
  rewrite rev_app_distr. reflexivity.
Qed.

Lemma TrimSpace_dropCR (s : gostring) :
  strings.TrimSpace (bufio.dropCR s) = strings.TrimSpace s.
Proof.
  destruct (dropCR_cases s) as [-> | E]; [reflexivity|].
  rewrite E at 2. symmetry. apply TrimSpace_cr.
Qed.

(** ** Reading the file *)

Lemma loadEnvFile_total (file : option gostring) (env : os.environ) :
  exists env', config.loadEnvFile file env = Returned env'.
Proof. destruct file as [data|]; [apply loadEnvLines_returns | now exists env]. Qed.

Lemma loadEnvFile_unlines (lines : list gostring) (env : os.environ) :
  Forall scannable lines ->
  config.loadEnvFile (Some (unlines lines)) env
  = config.loadEnvLines (map bufio.dropCR lines) env.
Proof. intros H. cbn [config.loadEnvFile]. cbv zeta. now rewrite Lines_unlines_nil. Qed.

(** X13.  Reading the environment file never panics, not even on a value
    that is a lone quote, and a file that cannot be opened leaves the
    environment as it is.  Lines shorter than 65536 bytes are read one
    after the other: reading them and what follows is reading them and
    then what follows.  A line of 65536 bytes or more ends the reading
    without a word: that line and everything after it count for
    nothing. *)
Theorem loadEnvFile_returns :
  (forall file env, exists env', config.loadEnvFile file env = Returned env')
  /\ (forall env, config.loadEnvFile None env = Returned env)
  /\ (forall lines rest env,
         Forall scannable lines ->
         config.loadEnvFile (Some (unlines lines ++ rest)) env
         = (env' <- config.loadEnvFile (Some (unlines lines)) env ;;
            config.loadEnvFile (Some rest) env'))
  /\ (forall lines long rest env,
         Forall scannable lines ->
         noLF long ->
         (bufio.MaxScanTokenSize <= len long)%Z ->
         config.loadEnvFile (Some (unlines lines ++ long ++ rest)) env
         = config.loadEnvFile (Some (unlines lines)) env).
Proof.
  split; [exact loadEnvFile_total|]. split; [reflexivity|]. split.
  - intros lines rest env H. rewrite (loadEnvFile_unlines lines env H).
    cbn [config.loadEnvFile]. cbv zeta.
    now rewrite (Lines_unlines lines rest H), loadEnvLines_app.
  - intros lines long rest env H Hl Hs. rewrite (loadEnvFile_unlines lines env H).
    cbn [config.loadEnvFile]. cbv zeta.
    now rewrite (Lines_unlines lines _ H), (Lines_long long rest Hl Hs), app_nil_r.
Qed.

Lemma loadEnvFile_returns_witness :
  config.loadEnvFile
    (Some (unlines [str "A=1"] ++ repeat "x"%char (Z.to_nat 65536) ++ nl ++ str "B=2")) []
  = config.loadEnvFile (Some (unlines [str "A=1"])) [].
Proof.
  apply (proj2 (proj2 (proj2 loadEnvFile_returns)) [str "A=1"]
           (repeat "x"%char (Z.to_nat 65536)) (nl ++ str "B=2") []).
  - repeat constructor. vm_compute. intuition discriminate.
  - intros H. apply repeat_spec in H. discriminate H.
  - unfold len. rewrite repeat_length. vm_compute. discriminate.
Defined.

(** ** Lines that change nothing *)

Lemma ignored_line (line : gostring) (rest : list gostring) (env : os.environ) :
  (strings.TrimSpace line = []
   \/ strings.HasPrefix (strings.TrimSpace line) (str "#") = true
   \/ ~ In equals line) ->
  config.loadEnvLines (line :: rest) env = config.loadEnvLines rest env.
Proof.
  intros H. cbn [config.loadEnvLines].
  destruct (gostring_eqb (strings.TrimSpace line) []) eqn:E1; [reflexivity|].
  destruct (strings.HasPrefix (strings.TrimSpace line) (str "#")) eqn:E2; [reflexivity|].
  cbn [orb]. destruct H as [H | [H | H]].
  - rewrite H in E1. discriminate E1.
  - discriminate H.
  - rewrite SplitN_no_equals; [reflexivity|].
    intros Hin. apply H. now apply TrimSpace_subset.
Qed.

Lemma loadEnvLines_cons (line : gostring) (rest : list gostring) (env : os.environ) :
  config.loadEnvLines (line :: rest) env
  = (env' <- config.loadEnvLines [line] env ;; config.loadEnvLines rest env').
Proof. apply (loadEnvLines_app [line] rest env). Qed.

(** A line that the second loop passes over can be taken out of the
    file, wherever it stands. *)
Lemma skipped_line (before : list gostring) (line after : gostring) (env : os.environ) :
  Forall noLF before ->
  scannable line ->
  (forall rest env',
      config.loadEnvLines (bufio.dropCR line :: rest) env' = config.loadEnvLines rest env') ->
  config.loadEnvFile (Some (unlines before ++ line ++ nl ++ after)) env
  = config.loadEnvFile (Some (unlines before ++ after)) env.
Proof.
  intros Hb Hl Hskip. cbn [config.loadEnvFile]. cbv zeta. revert env.
  induction Hb as [|b before Hb _ IH]; intros env.
  - cbn [unlines map concat app]. rewrite Lines_short by exact Hl. apply Hskip.
  - change (unlines (b :: before)) with ((b ++ nl) ++ unlines before).
    rewrite <- !app_assoc.
    destruct (Z.lt_ge_cases (len b) bufio.MaxScanTokenSize) as [Hs | Hs].
    + rewrite !Lines_short by (split; assumption).
      rewrite (loadEnvLines_cons _ (bufio.Lines (unlines before ++ line ++ nl ++ after))).
      rewrite (loadEnvLines_cons _ (bufio.Lines (unlines before ++ after))).
      destruct (config.loadEnvLines [bufio.dropCR b] env) as [env'|]; [|reflexivity].
      cbn [bind]. apply IH.
    + now rewrite !Lines_long.
Qed.

(** X14.  A line shorter than 65536 bytes that is blank after trimming,
    or whose first non-blank byte is a hash sign, or that holds no
    equals sign, changes nothing: the file with the line and the file
    without it give the same environment, wherever the line stands. *)
Theorem loadEnvFile_ignores :
  forall before line after env,
    Forall noLF before ->
    scannable line ->
    (strings.TrimSpace line = []
     \/ strings.HasPrefix (strings.TrimSpace line) (str "#") = true
     \/ ~ In equals line) ->
    config.loadEnvFile (Some (unlines before ++ line ++ nl ++ after)) env
    = config.loadEnvFile (Some (unlines before ++ after)) env.
Proof.
  intros before line after env Hb Hl H. apply (skipped_line before line after env Hb Hl).
  intros rest env'. apply ignored_line. rewrite TrimSpace_dropCR.
  destruct H as [H | [H | H]]; [now left | now right; left |].
  right. right. intros Hin. apply H. now apply In_dropCR.
Qed.

Lemma loadEnvFile_ignores_witness :
  config.loadEnvFile
    (Some (unlines [str "A=1"] ++ str "  # GITHUB_TOKEN=abc" ++ nl ++ str "B=2")) []
  = config.loadEnvFile (Some (unlines [str "A=1"] ++ str "B=2")) [].
Proof.
  apply (loadEnvFile_ignores [str "A=1"] (str "  # GITHUB_TOKEN=abc") (str "B=2") []).
  - repeat constructor. vm_compute. intuition discriminate.
  - split; [vm_compute; intuition discriminate | reflexivity].
  - right. left. reflexivity.
Defined.

Lemma nameByte_bounds (c : ascii) :
  nameByte c = true ->
  33 <= nat_of_ascii c <= 126 /\ nat_of_ascii c <> 61 /\ nat_of_ascii c <> 35.
Proof.
  unfold nameByte.
  rewrite !orb_true_iff, !andb_true_iff, !Nat.leb_le, Nat.eqb_eq. lia.
Qed.

Lemma valueByte_bounds (c : ascii) :
  valueByte c = true ->
  33 <= nat_of_ascii c <= 126 /\ nat_of_ascii c <> 34 /\ nat_of_ascii c <> 39.
Proof.
  unfold valueByte.
  rewrite !andb_true_iff, !negb_true_iff, !Nat.leb_le, !Nat.eqb_neq. lia.
Qed.

Lemma hasByte_false (n : nat) (s : gostring) :
  Forall (fun c => nat_of_ascii c <> n) s -> os.hasByte n s = false.
Proof.
  intros H. unfold os.hasByte. induction H as [|c s Hc _ IH]; [reflexivity|].
  cbn [existsb]. rewrite IH. now apply Nat.eqb_neq in Hc as ->.
Qed.

Lemma not_In_byte (n : nat) (d : ascii) (s : gostring) :
  nat_of_ascii d = n -> Forall (fun c => nat_of_ascii c <> n) s -> ~ In d s.
Proof.
  intros Hd H Hin. rewrite Forall_forall in H. now apply (H d Hin).
Qed.

(** What a name gives: it is kept by [TrimSpace], holds no equals sign,
    does not start a comment, and [Setenv] accepts it. *)
Lemma envName_facts (key : gostring) :
  envName key ->
  strings.TrimSpace key = key
  /\ ~ In equals key
  /\ (forall rest, strings.HasPrefix (key ++ rest) (str "#") = false)
  /\ (exists c t, key = c :: t /\ 33 <= nat_of_ascii c <= 126)
  /\ (forall env value,
         noNUL value -> os.Setenv env key value = Some ((key, value) :: env)).
Proof.
  intros [Hne Hall].
  assert (Hb : Forall (fun c => 33 <= nat_of_ascii c <= 126 /\ nat_of_ascii c <> 61
                                /\ nat_of_ascii c <> 35) key).
  { revert Hall. apply Forall_impl. intros c. apply nameByte_bounds. }
  destruct key as [|c t]; [contradiction|].
  destruct (exists_last Hne) as [t' [d E]].
  assert (Hc : 33 <= nat_of_ascii c <= 126 /\ nat_of_ascii c <> 61 /\ nat_of_ascii c <> 35)
    by now inversion Hb.
  assert (Hd : 33 <= nat_of_ascii d <= 126).
  { rewrite Forall_forall in Hb. apply (Hb d). rewrite E. apply in_or_app. right. now left. }
  split; [|split; [|split; [|split]]].
  - now apply (TrimSpace_fixed c d t t').
  - apply (not_In_byte 61); [reflexivity|]. revert Hb. apply Forall_impl. tauto.
  - intros rest. cbn [app strings.HasPrefix str list_ascii_of_string].
    replace (Ascii.eqb c "#") with false; [reflexivity|].
    symmetry. apply Ascii.eqb_neq. intros ->. cbn in Hc. lia.
  - exists c, t. split; [reflexivity | tauto].
  - intros env value Hv. unfold os.Setenv. cbn [length Nat.eqb orb].
    rewrite !hasByte_false; [reflexivity | exact Hv | |].
    + revert Hb. apply Forall_impl. lia.
    + revert Hb. apply Forall_impl. lia.
Qed.

Lemma Getenv_head (env : os.environ) (key value other : gostring) :
  os.Getenv ((key, value) :: env) key = value
  /\ (other <> key -> os.Getenv ((key, value) :: env) other = os.Getenv env other).
Proof.
  cbn [os.Getenv]. rewrite gostring_eqb_refl. split; [reflexivity|].
  intros H. replace (gostring_eqb key other) with false; [reflexivity|].
  symmetry. apply gostring_eqb_neq. congruence.
Qed.

(** The environment after a file that ends with an assignment line. *)
Lemma assignment_line (lines : list gostring) (env env1 : os.environ) (key value : gostring) :
  config.loadEnvLines lines env = Returned env1 ->
  envName key ->
  Forall (fun c => valueByte c = true) value ->
  config.loadEnvLines (lines ++ [key ++ str "=" ++ value]) env
  = Returned ((key, value) :: env1).
Proof.
  intros Hlines Hkey Hvalue.
  destruct (envName_facts key Hkey) as (Htrim & Heq & Hhash & (c & t & -> & Hc) & Hset).
  assert (Hb : Forall (fun c => 33 <= nat_of_ascii c <= 126 /\ nat_of_ascii c <> 34
                                /\ nat_of_ascii c <> 39) value).
  { revert Hvalue. apply Forall_impl. intros x. apply valueByte_bounds. }
  assert (Hnul : noNUL value) by (revert Hb; apply Forall_impl; lia).
  rewrite loadEnvLines_app, Hlines. cbn [bind].
  assert (Hline : strings.TrimSpace ((c :: t) ++ str "=" ++ value)
                  = (c :: t) ++ str "=" ++ value).
  { assert (Hne : t ++ str "=" ++ value <> []) by (destruct t; discriminate).
    destruct (exists_last Hne) as [t' [d E]].
    cbn [app]. apply (TrimSpace_fixed c d _ (c :: t') Hc); [|cbn [app]; now rewrite E].
    assert (Hin : In d (t ++ str "=" ++ value))
      by (rewrite E; apply in_or_app; right; now left).
    apply in_app_or in Hin as [Hin | Hin].
    - destruct Hkey as [_ Hall]. rewrite Forall_forall in Hall.
      apply nameByte_bounds. apply Hall. now right.
    - destruct Hin as [<- | Hin]; [cbn; lia|].
      rewrite Forall_forall in Hb. now apply Hb. }
  apply (loadEnvLines_binding _ [] env1 _ (c :: t) value value).
  - exact Hline.
  - rewrite Hline. apply Hhash.
  - exact Heq.
  - exact Htrim.
  - assert (Hv : strings.TrimSpace value = value).
    { destruct value as [|v0 vt]; [reflexivity|].
      destruct (@exists_last _ (v0 :: vt) ltac:(discriminate)) as [t' [d E]].
      rewrite Forall_forall in Hb.
      apply (TrimSpace_fixed v0 d vt t'); [apply Hb; now left | | exact E].
      apply Hb. rewrite E. apply in_or_app. right. now left. }
    rewrite Hv. destruct value as [|v0 vt]; [reflexivity|].
    assert (H0 : nat_of_ascii v0 <> 34 /\ nat_of_ascii v0 <> 39).
    { rewrite Forall_forall in Hb. destruct (Hb v0 (or_introl eq_refl)). tauto. }
    unfold config.byteAt at 1 3. cbn [nth].
    destruct (Nat.eqb_spec (nat_of_ascii v0) 34); [lia|].
    destruct (Nat.eqb_spec (nat_of_ascii v0) 39); [lia|].
    cbn [andb orb]. now rewrite andb_false_r.
  - now apply Hset.
Qed.

(** ** The last line of the file *)

Lemma Lines_last_line (lines : list gostring) (t : gostring) (d : ascii) (eol : gostring) :
  Forall scannable lines ->
  scannable (t ++ [d]) ->
  nat_of_ascii d <> 13 ->
  lineEnd eol ->
  bufio.Lines (unlines lines ++ (t ++ [d]) ++ eol) = map bufio.dropCR lines ++ [t ++ [d]].
Proof.
  intros Hl Hs Hd He. rewrite (Lines_unlines lines _ Hl). f_equal.
  destruct He as [-> | ->].
  - rewrite app_nil_r, Lines_last; [now rewrite dropCR_keeps | exact Hs |].
    destruct t; discriminate.
  - rewrite <- (app_nil_r nl), (Lines_short _ [] Hs), dropCR_keeps by exact Hd.
    reflexivity.
Qed.

(** Reading a file whose last line is [line], given as its bytes but
    the last and its last byte, is the second loop over the earlier
    lines and that line. *)
Lemma loadEnvFile_last_line (lines : list gostring) (t : gostring) (d : ascii)
    (eol : gostring) (env : os.environ) :
  Forall scannable lines ->
  scannable (t ++ [d]) ->
  nat_of_ascii d <> 13 ->
  lineEnd eol ->
  config.loadEnvFile (Some (unlines lines ++ (t ++ [d]) ++ eol)) env
  = config.loadEnvLines (map bufio.dropCR lines ++ [t ++ [d]]) env.
Proof.
  intros Hl Hs Hd He. cbn [config.loadEnvFile]. cbv zeta.
  now rewrite (Lines_last_line lines t d eol Hl Hs Hd He).
Qed.

Lemma printable_line (line : gostring) :
  Forall (fun c => 33 <= nat_of_ascii c <= 126) line ->
  (len line < bufio.MaxScanTokenSize)%Z ->
  line <> [] ->
  exists t d, line = t ++ [d] /\ scannable (t ++ [d]) /\ nat_of_ascii d <> 13.
Proof.
  intros Hb Hs Hne. destruct (exists_last Hne) as [t [d E]]. exists t, d.
  split; [exact E|]. rewrite <- E. split; [split; [|exact Hs]|].
  - intros Hin. rewrite Forall_forall in Hb. apply Hb in Hin.
    change (nat_of_ascii lf) with 10 in Hin. lia.
  - rewrite Forall_forall in Hb. assert (Hd : In d line).
    { rewrite E. apply in_or_app. right. now left. }
    apply Hb in Hd. lia.
Qed.

Lemma assignment_bytes (key value : gostring) :
  envName key ->
  Forall (fun c => valueByte c = true) value ->
  Forall (fun c => 33 <= nat_of_ascii c <= 126) (key ++ str "=" ++ value).
Proof.
  intros [_ Hk] Hv. apply Forall_app. split; [|apply Forall_app; split].
  - revert Hk. apply Forall_impl. intros c Hc. now apply nameByte_bounds in Hc.
  - repeat constructor; cbn; lia.
  - revert Hv. apply Forall_impl. intros c Hc. now apply valueByte_bounds in Hc.
Qed.

(** The environment after a file whose last line is an assignment. *)
Lemma assignment_file (lines : list gostring) (env env1 : os.environ)
    (key value eol : gostring) :
  Forall scannable lines ->
  config.loadEnvFile (Some (unlines lines)) env = Returned env1 ->
  envName key ->
  Forall (fun c => valueByte c = true) value ->
  (len (key ++ str "=" ++ value) < bufio.MaxScanTokenSize)%Z ->
  lineEnd eol ->
  config.loadEnvFile (Some (unlines lines ++ (key ++ str "=" ++ value) ++ eol)) env
  = Returned ((key, value) :: env1).
Proof.
  intros Hl H1 Hkey Hvalue Hs He. rewrite (loadEnvFile_unlines lines env Hl) in H1.
  destruct (printable_line _ (assignment_bytes key value Hkey Hvalue) Hs)
    as (t & d & E & Hscan & Hd).
  { destruct Hkey as [Hne _]. destruct key; [contradiction | discriminate]. }
  rewrite E, (loadEnvFile_last_line lines t d eol env Hl Hscan Hd He), <- E.
  now apply assignment_line.
Qed.

(** X15.  An assignment line name=value, with a name of letters, digits
    and underscores and a value of printable ASCII bytes other than
    blanks and quotes (it may hold equals signs, and it may be empty),
    binds the name to the value when it is the last line of a file whose
    lines are all shorter than 65536 bytes, with or without a line feed
    after it: the variable then has this value, whatever the earlier
    lines and the environment of the process said, and the other
    variables are as the earlier lines left them. *)
Theorem loadEnvFile_assignment :
  forall lines env env1 key value eol,
    Forall scannable lines ->
    config.loadEnvFile (Some (unlines lines)) env = Returned env1 ->
    envName key ->
    Forall (fun c => valueByte c = true) value ->
    (len (key ++ str "=" ++ value) < bufio.MaxScanTokenSize)%Z ->
    lineEnd eol ->
    exists env2,
      config.loadEnvFile (Some (unlines lines ++ (key ++ str "=" ++ value) ++ eol)) env
      = Returned env2
      /\ os.Getenv env2 key = value
      /\ forall other, other <> key -> os.Getenv env2 other = os.Getenv env1 other.
Proof.
  intros lines env env1 key value eol Hl H1 Hkey Hvalue Hs He.
  exists ((key, value) :: env1).
  split; [now apply assignment_file|].
  split; [apply (Getenv_head env1 _ _ []) | intros other; apply Getenv_head].
Qed.

Lemma loadEnvFile_assignment_witness :
  exists env2,
    config.loadEnvFile
      (Some (unlines [str "PORT=8080"] ++ (str "PORT" ++ str "=" ++ str "9090") ++ nl))
      [(str "PORT", str "80")]
    = Returned env2
    /\ os.Getenv env2 (str "PORT") = str "9090"
    /\ forall other,
        other <> str "PORT" ->
        os.Getenv env2 other
        = os.Getenv [(str "PORT", str "8080"); (str "PORT", str "80")] other.
Proof.
  apply (loadEnvFile_assignment [str "PORT=8080"] [(str "PORT", str "80")]
           [(str "PORT", str "8080"); (str "PORT", str "80")] (str "PORT") (str "9090") nl).
  - repeat constructor. vm_compute. intuition discriminate.
  - vm_compute. reflexivity.
  - split; [discriminate | repeat constructor].
  - repeat constructor.
  - reflexivity.
  - now right.
Defined.

Lemma quoteByte_printable (q : ascii) : quoteByte q -> 33 <= nat_of_ascii q <= 126.
Proof. unfold quoteByte. lia. Qed.

Lemma byteAt_last (s : gostring) (q : ascii) :
  config.byteAt (s ++ [q]) (length (s ++ [q]) - 1) = nat_of_ascii q.
Proof.
  unfold config.byteAt. rewrite length_app. cbn [length].
  replace (length s + 1 - 1) with (length s) by lia.
  now rewrite app_nth2, Nat.sub_diag by lia.
Qed.

(** The environment after the lines and an assignment of a quoted
    value. *)
Lemma quoted_line (lines : list gostring) (env env1 : os.environ) (key : gostring)
    (q : ascii) (value : gostring) :
  config.loadEnvLines lines env = Returned env1 ->
  envName key ->
  quoteByte q ->
  noNUL value ->
  config.loadEnvLines (lines ++ [key ++ str "=" ++ [q] ++ value ++ [q]]) env
  = Returned ((key, value) :: env1).
Proof.
  intros Hlines Hkey Hq Hvalue.
  destruct (envName_facts key Hkey) as (Htrim & Heq & Hhash & (c & t & -> & Hc) & Hset).
  pose proof (quoteByte_printable q Hq) as Hp.
  rewrite loadEnvLines_app, Hlines. cbn [bind].
  assert (Hraw : strings.TrimSpace ([q] ++ value ++ [q]) = [q] ++ value ++ [q]).
  { cbn [app]. now apply (TrimSpace_fixed q q _ (q :: value) Hp Hp). }
  assert (Hline : strings.TrimSpace ((c :: t) ++ str "=" ++ [q] ++ value ++ [q])
                  = (c :: t) ++ str "=" ++ [q] ++ value ++ [q]).
  { cbn [app]. apply (TrimSpace_fixed c q _ (c :: t ++ str "=" ++ q :: value) Hc Hp).
    cbn [app]. f_equal. rewrite <- !app_assoc. reflexivity. }
  apply (loadEnvLines_binding _ [] env1 _ (c :: t) ([q] ++ value ++ [q]) value).
  - exact Hline.
  - rewrite Hline. apply Hhash.
  - exact Heq.
  - exact Htrim.
  - rewrite Hraw.
    change ([q] ++ value ++ [q]) with ((q :: value) ++ [q]).
    rewrite byteAt_last. unfold config.byteAt. cbn [nth app].
    assert (Hlen : length (q :: value ++ [q]) = S (S (length value)))
      by (cbn [length]; rewrite length_app; cbn [length]; lia).
    rewrite Hlen. cbn [Nat.leb andb].
    replace ((nat_of_ascii q =? 34) && (nat_of_ascii q =? 34)
             || (nat_of_ascii q =? 39) && (nat_of_ascii q =? 39)) with true.
    + rewrite slice_ok by lia. f_equal.
      replace (S (S (length value)) - 1 - 1) with (length value) by lia.
      cbn [skipn]. now rewrite firstn_field.
    + destruct Hq as [-> | ->]; reflexivity.
  - now apply Hset.
Qed.


(** X16.  A value written between two double quotes, or between two
    single quotes, is bound without them and as it is written: blanks at
    its ends, quotes and equals signs inside it are kept; only the outer
    pair of quotes is removed.  This holds for the last line of a file
    whose lines are all shorter than 65536 bytes, that line included, and
    for a value without a NUL byte. *)
Theorem loadEnvFile_quoted :
  forall lines env env1 key q value eol,
    Forall scannable lines ->
    config.loadEnvFile (Some (unlines lines)) env = Returned env1 ->
    envName key ->
    quoteByte q ->
    noNUL value ->
    noLF value ->
    (len (key ++ str "=" ++ [q] ++ value ++ [q]) < bufio.MaxScanTokenSize)%Z ->
    lineEnd eol ->
    exists env2,
      config.loadEnvFile
        (Some (unlines lines ++ (key ++ str "=" ++ [q] ++ value ++ [q]) ++ eol)) env
      = Returned env2
      /\ os.Getenv env2 key = value
      /\ forall other, other <> key -> os.Getenv env2 other = os.Getenv env1 other.
Proof.
  intros lines env env1 key q value eol Hl H1 Hkey Hq Hnul Hlf Hs He.
  exists ((key, value) :: env1).
  split; [|split; [apply (Getenv_head env1 _ _ []) | intros other; apply Getenv_head]].
  rewrite (loadEnvFile_unlines lines env Hl) in H1.
  assert (E : key ++ str "=" ++ [q] ++ value ++ [q]
              = (key ++ str "=" ++ [q] ++ value) ++ [q])
    by now rewrite <- !app_assoc.
  assert (Hd : nat_of_ascii q <> 13) by (destruct Hq as [Hq | Hq]; rewrite Hq; lia).
  assert (Hscan : scannable ((key ++ str "=" ++ [q] ++ value) ++ [q])).
  { rewrite <- E. split; [|exact Hs]. intros Hin.
    assert (Hq' : q <> lf).
    { intros ->. change (nat_of_ascii lf) with 10 in Hd.
      destruct Hq as [Hq | Hq]; change (nat_of_ascii lf) with 10 in Hq; lia. }
    rewrite !in_app_iff in Hin. destruct Hin as [Hin | [Hin | [Hin | [Hin | Hin]]]].
    - destruct Hkey as [_ Hk]. rewrite Forall_forall in Hk. apply Hk in Hin.
      apply nameByte_bounds in Hin. change (nat_of_ascii lf) with 10 in Hin. lia.
    - destruct Hin as [Hin | []]. discriminate Hin.
    - destruct Hin as [Hin | []]. now apply Hq'.
    - now apply Hlf.
    - destruct Hin as [Hin | []]. now apply Hq'. }
  rewrite E, (loadEnvFile_last_line lines _ q eol env Hl Hscan Hd He), <- E.
  now apply quoted_line.
Qed.

Lemma loadEnvFile_quoted_witness :
  exists env2,
    config.loadEnvFile
      (Some (unlines []
               ++ (str "GREETING" ++ str "=" ++ [ascii_of_nat 39] ++ str " say = 'hi' "
                     ++ [ascii_of_nat 39]) ++ []))
      []
    = Returned env2
    /\ os.Getenv env2 (str "GREETING") = str " say = 'hi' "
    /\ forall other,
        other <> str "GREETING" -> os.Getenv env2 other = os.Getenv [] other.
Proof.
  apply (loadEnvFile_quoted [] [] [] (str "GREETING") (ascii_of_nat 39)
           (str " say = 'hi' ") []).
  - constructor.
  - reflexivity.
  - split; [discriminate | repeat constructor].
  - right. reflexivity.
  - repeat constructor; discriminate.
  - vm_compute. intuition discriminate.
  - reflexivity.
  - now left.
Defined.

(** * Loading the configuration *)

Lemma getEnv_not_empty (env : os.environ) (key defaultValue : gostring) :
  defaultValue <> [] -> config.getEnv env key defaultValue <> [].
Proof.
  intros H. unfold config.getEnv.
  destruct (gostring_eqb (os.Getenv env key) []) eqn:E; cbn [negb]; [exact H|].
  now apply gostring_eqb_neq.
Qed.

(** X17.  [Load] always returns.  A configuration it returns has a
    GitHub token, an Anthropic token and a port that are not empty, and
    the review configuration is the one the file decoded to; the
    webhook secret may be empty.  An error is one of four messages: a
    missing GitHub token or a missing Anthropic token, reported whatever
    the configuration file holds, or a configuration file that does not
    open or does not parse, with the file's name and the cause. *)
Theorem Load_result :
  forall envFile file env,
    exists r,
      config.Load envFile file env = Returned r
      /\ match r with
         | inl (cfg, rc) =>
             file = config.Decoded rc
             /\ config.GitHubToken cfg <> []
             /\ config.AnthropicToken cfg <> []
             /\ config.Port cfg <> []
         | inr err =>
             (err = str "GITHUB_TOKEN environment variable is required"
              /\ forall file', config.Load envFile file' env = Returned (inr err))
             \/ (err = str "ANTHROPIC_API_KEY environment variable is required"
                 /\ forall file', config.Load envFile file' env = Returned (inr err))
             \/ (exists cause,
                    file = config.OpenFailed cause
                    /\ err = str "failed to load review configuration: "
                             ++ str "failed to open config file review-config.json: "
                             ++ cause)
             \/ (exists cause,
                    file = config.DecodeFailed cause
                    /\ err = str "failed to load review configuration: "
                             ++ str "failed to parse config file review-config.json: "
                             ++ cause)
         end.
Proof.
  intros envFile file env.
  destruct (loadEnvFile_total envFile env) as [env1 H1].
  unfold config.Load. rewrite H1. cbn [bind config.GitHubToken config.AnthropicToken].
  destruct (gostring_eqb (os.Getenv env1 (str "GITHUB_TOKEN")) []) eqn:Eg.
  { eexists. split; [reflexivity|]. left. split; [reflexivity|].
    intros file'. reflexivity. }
  destruct (gostring_eqb (os.Getenv env1 (str "ANTHROPIC_API_KEY")) []) eqn:Ea.
  { eexists. split; [reflexivity|]. right. left. split; [reflexivity|].
    intros file'. reflexivity. }
  destruct file as [cause | cause | rc].
  - eexists. split; [reflexivity|]. right. right. left. exists cause. split; [reflexivity|].
    cbn. rewrite ?app_nil_r. reflexivity.
  - eexists. split; [reflexivity|]. right. right. right. exists cause. split; [reflexivity|].
    cbn. rewrite ?app_nil_r. reflexivity.
  - eexists. split; [reflexivity|]. cbn [config.GitHubToken config.AnthropicToken config.Port].
    split; [reflexivity|]. split; [now apply gostring_eqb_neq|].
    split; [now apply gostring_eqb_neq|]. apply getEnv_not_empty. discriminate.
Qed.

(** X18.  The environment file takes precedence over the environment of
    the process: a GitHub token assigned in the last line of the file
    is the token of the configuration, whatever the process had, when
    the lines of the file are all shorter than 65536 bytes; the other
    settings are read from what the earlier lines left, and the port is
    8080 when PORT is unset or empty. *)
Theorem Load_token_from_env_file :
  forall lines env env1 token eol rc,
    Forall scannable lines ->
    config.loadEnvFile (Some (unlines lines)) env = Returned env1 ->
    token <> [] ->
    Forall (fun c => valueByte c = true) token ->
    (len (str "GITHUB_TOKEN" ++ str "=" ++ token) < bufio.MaxScanTokenSize)%Z ->
    lineEnd eol ->
    os.Getenv env1 (str "ANTHROPIC_API_KEY") <> [] ->
    exists cfg,
      config.Load (Some (unlines lines ++ (str "GITHUB_TOKEN" ++ str "=" ++ token) ++ eol))
        (config.Decoded rc) env
      = Returned (inl (cfg, rc))
      /\ config.GitHubToken cfg = token
      /\ config.AnthropicToken cfg = os.Getenv env1 (str "ANTHROPIC_API_KEY")
      /\ config.WebhookSecret cfg = os.Getenv env1 (str "WEBHOOK_SECRET")
      /\ (os.Getenv env1 (str "PORT") = [] -> config.Port cfg = str "8080")
      /\ (os.Getenv env1 (str "PORT") <> [] -> config.Port cfg = os.Getenv env1 (str "PORT")).
Proof.
  intros lines env env1 token eol rc Hl Hlines Htoken Hvalue Hs He Hkey.
  assert (Hname : envName (str "GITHUB_TOKEN"))
    by (split; [discriminate | repeat constructor]).
  pose proof (assignment_file lines env env1 _ token eol Hl Hlines Hname Hvalue Hs He) as H.
  unfold config.Load. rewrite H. cbn [bind].
  cbn [config.GitHubToken config.AnthropicToken].
  change (os.Getenv _ (str "GITHUB_TOKEN")) with token.
  change (os.Getenv _ (str "ANTHROPIC_API_KEY"))
    with (os.Getenv env1 (str "ANTHROPIC_API_KEY")).
  change (os.Getenv _ (str "WEBHOOK_SECRET")) with (os.Getenv env1 (str "WEBHOOK_SECRET")).
  assert (Hp : forall d, config.getEnv ((str "GITHUB_TOKEN", token) :: env1) (str "PORT") d
                         = config.getEnv env1 (str "PORT") d) by reflexivity.
  rewrite Hp.
  apply gostring_eqb_neq in Htoken as ->. apply gostring_eqb_neq in Hkey as Hk. rewrite Hk.
  cbn [config.loadReviewConfig]. eexists. split; [reflexivity|].
  cbn [config.GitHubToken config.AnthropicToken config.WebhookSecret config.Port].
  repeat split.
  - intros E. unfold config.getEnv. rewrite E. reflexivity.
  - intros E. unfold config.getEnv. apply gostring_eqb_neq in E as ->. reflexivity.
Qed.

Lemma Load_token_from_env_file_witness :
  exists cfg,
    config.Load
      (Some (unlines [str "ANTHROPIC_API_KEY=sk-1"]
               ++ (str "GITHUB_TOKEN" ++ str "=" ++ str "ghp_2") ++ nl))
      (config.Decoded acmeOnly) [(str "GITHUB_TOKEN", str "old")]
    = Returned (inl (cfg, acmeOnly))
    /\ config.GitHubToken cfg = str "ghp_2"
    /\ config.AnthropicToken cfg
       = os.Getenv [(str "ANTHROPIC_API_KEY", str "sk-1"); (str "GITHUB_TOKEN", str "old")]
           (str "ANTHROPIC_API_KEY")
    /\ config.WebhookSecret cfg
       = os.Getenv [(str "ANTHROPIC_API_KEY", str "sk-1"); (str "GITHUB_TOKEN", str "old")]
           (str "WEBHOOK_SECRET")
    /\ (os.Getenv [(str "ANTHROPIC_API_KEY", str "sk-1"); (str "GITHUB_TOKEN", str "old")]
          (str "PORT") = [] -> config.Port cfg = str "8080")
    /\ (os.Getenv [(str "ANTHROPIC_API_KEY", str "sk-1"); (str "GITHUB_TOKEN", str "old")]
          (str "PORT") <> [] ->
        config.Port cfg
        = os.Getenv [(str "ANTHROPIC_API_KEY", str "sk-1"); (str "GITHUB_TOKEN", str "old")]
            (str "PORT")).
Proof.
  apply (Load_token_from_env_file [str "ANTHROPIC_API_KEY=sk-1"]
           [(str "GITHUB_TOKEN", str "old")]
           [(str "ANTHROPIC_API_KEY", str "sk-1"); (str "GITHUB_TOKEN", str "old")]
           (str "ghp_2") nl acmeOnly).
  - repeat constructor. vm_compute. intuition discriminate.
  - vm_compute. reflexivity.
  - discriminate.
  - repeat constructor.
  - reflexivity.
  - now right.
  - discriminate.
Defined.

(** * The prompt *)

(** X19.  The precision guidelines: the text for minor precision is
    given for the level minor and for no other, the text for strict
    precision for the level strict and for no other, and every other
    level, medium or not a level at all (an empty string, a level
    written with a capital), gets the text for medium precision. *)
Theorem GetPrecisionGuidelines_levels :
  forall precision,
    (config.GetPrecisionGuidelines precision = config.minorGuidelines
     <-> precision = config.PrecisionMinor)
    /\ (config.GetPrecisionGuidelines precision = config.strictGuidelines
        <-> precision = config.PrecisionStrict)
    /\ (config.GetPrecisionGuidelines precision = config.mediumGuidelines
        <-> precision <> config.PrecisionMinor /\ precision <> config.PrecisionStrict).
Proof.
  intros precision.
  assert (H1 : config.minorGuidelines <> config.strictGuidelines)
    by (apply gostring_eqb_neq; vm_compute; reflexivity).
  assert (H2 : config.minorGuidelines <> config.mediumGuidelines)
    by (apply gostring_eqb_neq; vm_compute; reflexivity).
  assert (H3 : config.strictGuidelines <> config.mediumGuidelines)
    by (apply gostring_eqb_neq; vm_compute; reflexivity).
  assert (H4 : config.PrecisionMinor <> config.PrecisionStrict) by discriminate.
  unfold config.GetPrecisionGuidelines.
  destruct (gostring_eqb precision config.PrecisionMinor) eqn:Em.
  { apply gostring_eqb_eq in Em. subst precision.
    repeat split; try congruence; intros []; congruence. }
  apply gostring_eqb_neq in Em.
  destruct (gostring_eqb precision config.PrecisionStrict) eqn:Es.
  { apply gostring_eqb_eq in Es. subst precision.
    repeat split; try congruence; intros []; congruence. }
  apply gostring_eqb_neq in Es.
  repeat split; try congruence; intros E; exfalso; congruence.
Qed.

Lemma Sprintf_literal (lit rest : gostring) (args : list fmt.arg) :
  ~ In "%"%char lit -> fmt.Sprintf (lit ++ rest) args = lit ++ fmt.Sprintf rest args.
Proof.
  induction lit as [|c lit IH]; intros H; [reflexivity|].
  cbn [app fmt.Sprintf].
  replace (Ascii.eqb c "%") with false.
  - f_equal. apply IH. intros Hin. apply H. now right.
  - symmetry. apply Ascii.eqb_neq. intros ->. apply H. now left.
Qed.

Lemma Sprintf_verb_s (rest s : gostring) (args : list fmt.arg) :
  fmt.Sprintf (str "%s" ++ rest) (fmt.Str s :: args) = s ++ fmt.Sprintf rest args.
Proof. reflexivity. Qed.

Lemma Sprintf_five (p0 p1 p2 p3 p4 p5 a b c d e : gostring) :
  Forall (fun p => ~ In "%"%char p) [p0; p1; p2; p3; p4; p5] ->
  fmt.Sprintf (p0 ++ str "%s" ++ p1 ++ str "%s" ++ p2 ++ str "%s" ++ p3 ++ str "%s"
                  ++ p4 ++ str "%s" ++ p5)
    [fmt.Str a; fmt.Str b; fmt.Str c; fmt.Str d; fmt.Str e]
  = p0 ++ a ++ p1 ++ b ++ p2 ++ c ++ p3 ++ d ++ p4 ++ e ++ p5.
Proof.
  intros H.
  assert (H0 : ~ In "%"%char p0) by (rewrite Forall_forall in H; apply H; cbn; tauto).
  assert (H1 : ~ In "%"%char p1) by (rewrite Forall_forall in H; apply H; cbn; tauto).
  assert (H2 : ~ In "%"%char p2) by (rewrite Forall_forall in H; apply H; cbn; tauto).
  assert (H3 : ~ In "%"%char p3) by (rewrite Forall_forall in H; apply H; cbn; tauto).
  assert (H4 : ~ In "%"%char p4) by (rewrite Forall_forall in H; apply H; cbn; tauto).
  assert (H5 : ~ In "%"%char p5) by (rewrite Forall_forall in H; apply H; cbn; tauto).
  rewrite (Sprintf_literal p0 _ _ H0), Sprintf_verb_s.
  rewrite (Sprintf_literal p1 _ _ H1), Sprintf_verb_s.
  rewrite (Sprintf_literal p2 _ _ H2), Sprintf_verb_s.
  rewrite (Sprintf_literal p3 _ _ H3), Sprintf_verb_s.
  rewrite (Sprintf_literal p4 _ _ H4), Sprintf_verb_s.
  rewrite <- (app_nil_r p5) at 1. rewrite (Sprintf_literal p5 _ _ H5).
  cbn [fmt.Sprintf]. now rewrite app_nil_r.
Qed.

Lemma no_percent (p : gostring) :
  existsb (Ascii.eqb "%"%char) p = false -> ~ In "%"%char p.
Proof.
  intros H Hin.
  assert (E : existsb (Ascii.eqb "%"%char) p = true)
    by (apply existsb_exists; exists "%"%char; split; [exact Hin | apply Ascii.eqb_refl]).
  congruence.
Qed.

(** X20.  The built-in prompt is six fixed texts with the title, the
    description, the precision guidelines, the diff and the custom
    instructions between them, in this order and each as it is: a value
    that holds a verb or a placeholder is not expanded again. *)
Theorem getFallbackPrompt_layout :
  length fallbackPieces = 6
  /\ forall data,
      review.getFallbackPrompt data
      = nth 0 fallbackPieces [] ++ review.PromptTitle data
        ++ nth 1 fallbackPieces [] ++ review.PromptBody data
        ++ nth 2 fallbackPieces [] ++ review.PromptPrecision data
        ++ nth 3 fallbackPieces [] ++ review.PromptDiff data
        ++ nth 4 fallbackPieces [] ++ review.PromptCustomPrompt data
        ++ nth 5 fallbackPieces [].
Proof.
  split; [vm_compute; reflexivity|]. intros data. unfold review.getFallbackPrompt.
  assert (Hf : review.fallbackPromptFormat
               = nth 0 fallbackPieces [] ++ str "%s" ++ nth 1 fallbackPieces [] ++ str "%s"
                 ++ nth 2 fallbackPieces [] ++ str "%s" ++ nth 3 fallbackPieces [] ++ str "%s"
                 ++ nth 4 fallbackPieces [] ++ str "%s" ++ nth 5 fallbackPieces [])
    by (vm_compute; reflexivity).
  rewrite Hf. apply Sprintf_five.
  repeat constructor; apply no_percent; vm_compute; reflexivity.
Qed.

Lemma parse_no_answer (ai : review.AIClient) (promptFile : option gostring)
    (send : review.ClaudeRequest -> review.apiReply)
    (diff title body : gostring) (repoConfig : config.RepositoryConfig) :
  (forall request, noAnswer (send request)) ->
  review.parseClaudeResponse
    (review.callClaudeAPI ai promptFile send diff title body repoConfig) diff
  = Returned bareReview.
Proof.
  intros H. unfold review.callClaudeAPI. cbv zeta.
  match goal with
  | |- context [send ?r] => specialize (H r); destruct (send r) as [|code content]
  end.
  - vm_compute. reflexivity.
  - cbn [noAnswer] in H. destruct (Z.eqb_spec code 200) as [->|Hc]; cbn [negb].
    + destruct H as [H | [-> | ->]]; [contradiction | |]; vm_compute; reflexivity.
    + vm_compute. reflexivity.
Qed.

(** X21.  When the call to the model gives no text, whatever the cause
    (the request fails, the status is not 200, the body does not decode
    or holds no content block), the review is the branding heading alone,
    without a comment: the fixed error text holds no section and no
    comment block. *)
Theorem no_answer_gives_bare_review :
  forall ai promptFile send diff title body repoConfig,
    (forall request, noAnswer (send request)) ->
    review.GenerateReview (review.callClaudeAPI ai promptFile send)
      diff title body repoConfig
    = Returned bareReview.
Proof.
  intros ai promptFile send diff title body repoConfig H.
  unfold review.GenerateReview. cbv zeta. now apply parse_no_answer.
Qed.

Lemma no_answer_gives_bare_review_witness :
  review.GenerateReview
    (review.callClaudeAPI {| review.apiKey := str "k"; review.model := str "m" |} None
       (fun _ => review.Answered 529 (Some [str "SUMMARY:$$overloaded$$"])))
    (str "+ a") (str "Fix") [] (defaultConfig (str "svc"))
  = Returned bareReview.
Proof.
  apply no_answer_gives_bare_review. intros request. left. discriminate.
Defined.

(** X22.  A prompt file that holds none of the five placeholders is the
    prompt, byte for byte: the title, the description, the guidelines,
    the diff and the custom instructions do not reach the model, and the
    built-in prompt is not used, not even for an empty file. *)
Theorem prompt_file_without_placeholders :
  forall template data,
    (forall k, ~ Contains template (token k)) ->
    review.loadPromptTemplate (Some template) data = template.
Proof.
  intros template data H. cbn [review.loadPromptTemplate].
  unfold review.substitutePromptVariables. cbv zeta.
  rewrite (ReplaceAll_None template (str "{{.Title}}"))
    by (apply Index_None; exact (H SlotTitle)).
  rewrite (ReplaceAll_None template (str "{{.Body}}"))
    by (apply Index_None; exact (H SlotBody)).
  rewrite (ReplaceAll_None template (str "{{.Precision}}"))
    by (apply Index_None; exact (H SlotPrecision)).
  rewrite (ReplaceAll_None template (str "{{.Diff}}"))
    by (apply Index_None; exact (H SlotDiff)).
  apply ReplaceAll_None. apply Index_None. exact (H SlotCustomPrompt).
Qed.

Lemma prompt_file_without_placeholders_witness :
  review.loadPromptTemplate (Some (str "Review {{ .Diff }} kindly."))
    {| review.PromptTitle := str "Fix"; review.PromptBody := [];
       review.PromptPrecision := str "medium"; review.PromptDiff := str "+ a";
       review.PromptCustomPrompt := [] |}
  = str "Review {{ .Diff }} kindly.".
Proof.
  apply prompt_file_without_placeholders.
  intros k. apply Index_None. destruct k; vm_compute; reflexivity.
Defined.

(** * The webhook *)

Lemma shouldTriggerReview_true (action : gostring) (pr : option bot.PullRequest) :
  bot.shouldTriggerReview action pr = true
  <-> bot.GetDraft pr = false /\ (action = str "opened" \/ action = str "ready_for_review").
Proof.
  unfold bot.shouldTriggerReview. destruct (bot.GetDraft pr).
  { split; [discriminate | intros [H _]; discriminate H]. }
  destruct (gostring_eqb action (str "opened")) eqn:E1.
  { apply gostring_eqb_eq in E1. tauto. }
  destruct (gostring_eqb action (str "ready_for_review")) eqn:E2.
  { apply gostring_eqb_eq in E2. tauto. }
  apply gostring_eqb_neq in E1, E2.
  destruct (gostring_eqb action (str "synchronize")); split;
    try discriminate; intros [_ [?|?]]; contradiction.
Qed.

(** X23.  The webhook answers 405 to every method but POST, 400 to a
    POST whose body does not decode, and 200 with an empty body to every
    other POST, reviewed or not.  It starts a review exactly for a POST
    whose payload has the action opened or ready_for_review and a pull
    request that is not a draft; the review is for the repository and
    the pull request of the payload, also when the payload has no pull
    request at all. *)
Theorem handleWebhook_dispatch :
  forall method decoded,
    let r := bot.handleWebhook method decoded in
    (bot.StatusCode r = 405%Z <-> method <> str "POST")
    /\ (bot.StatusCode r = 400%Z <-> method = str "POST" /\ decoded = None)
    /\ (bot.StatusCode r = 200%Z <-> method = str "POST" /\ decoded <> None)
    /\ (bot.StatusCode r = 200%Z -> bot.ResponseBody r = [])
    /\ (forall repo pr,
           bot.Dispatched r = Some (repo, pr)
           <-> method = str "POST"
               /\ exists action,
                    decoded = Some {| bot.Action := action;
                                      bot.PayloadPullRequest := pr;
                                      bot.PayloadRepository := repo |}
                    /\ bot.GetDraft pr = false
                    /\ (action = str "opened" \/ action = str "ready_for_review")).
Proof.
  intros method decoded r. subst r. unfold bot.handleWebhook.
  destruct (gostring_eqb method (str "POST")) eqn:Em; cbn [negb].
  2:{ apply gostring_eqb_neq in Em. cbn [bot.StatusCode bot.ResponseBody bot.Dispatched].
      split; [tauto|]. split; [split; [discriminate | tauto]|].
      split; [split; [discriminate | tauto]|]. split; [discriminate|].
      intros repo pr. split; [discriminate | tauto]. }
  apply gostring_eqb_eq in Em. subst method.
  destruct decoded as [[action pr0 repo0]|];
    cbn [bot.Action bot.PayloadPullRequest bot.PayloadRepository].
  2:{ cbn [bot.StatusCode bot.ResponseBody bot.Dispatched].
      split; [split; [discriminate | intros H; now contradiction H]|].
      split; [tauto|]. split; [split; [discriminate | intros [_ H]; now contradiction H]|].
      split; [discriminate|].
      intros repo pr. split; [discriminate | intros (_ & a & H & _); discriminate H]. }
  assert (Hs : forall b : bool,
             bot.StatusCode
               (if b then {| bot.StatusCode := 200; bot.ResponseBody := [];
                             bot.Dispatched := None |}
                else {| bot.StatusCode := 200; bot.ResponseBody := [];
                        bot.Dispatched := Some (repo0, pr0) |}) = 200%Z
             /\ bot.ResponseBody
                  (if b then {| bot.StatusCode := 200; bot.ResponseBody := [];
                                bot.Dispatched := None |}
                   else {| bot.StatusCode := 200; bot.ResponseBody := [];
                           bot.Dispatched := Some (repo0, pr0) |}) = [])
    by (intros []; split; reflexivity).
  destruct (Hs (negb (bot.shouldTriggerReview action pr0))) as [-> ->]. clear Hs.
  split; [split; [discriminate | intros H; now contradiction H]|].
  split; [split; [discriminate | intros [_ H]; discriminate H]|].
  split; [split; [intros _; split; [reflexivity | discriminate] | reflexivity]|].
  split; [reflexivity|].
  intros repo pr.
  destruct (bot.shouldTriggerReview action pr0) eqn:Et; cbn [negb bot.Dispatched].
  - apply shouldTriggerReview_true in Et as [Hd Ha]. split.
    + intros [= <- <-]. split; [reflexivity|]. now exists action.
    + intros (_ & a & [= <- <- <-] & _). reflexivity.
  - split; [discriminate|].
    intros (_ & a & [= <- <- <-] & Hd & Ha).
    assert (bot.shouldTriggerReview action pr0 = true)
      by now apply shouldTriggerReview_true.
    congruence.
Qed.

(** * The model is not available *)

(** X24.  When the size gate lets the pull request through and the diff
    is available, a call to the model that gives no text does not stop
    the review: a review is posted all the same, with no comment and
    with a summary that is the size warning, if any, and the branding
    heading, nothing else. *)
Theorem review_is_posted_without_answer :
  forall rc GetPRDiff ai promptFile send repo pr diff,
    review.ShouldReview (bot.checkPRSize pr) = true ->
    GetPRDiff (bot.OwnerLogin repo) (bot.RepoName repo) (bot.GetNumber pr) = Some diff ->
    (forall request, noAnswer (send request)) ->
    bot.ProcessPullRequest rc GetPRDiff (review.callClaudeAPI ai promptFile send) repo pr
    = Returned (bot.PostReview (bot.OwnerLogin repo) (bot.RepoName repo) (bot.GetNumber pr)
                  {| review.Summary :=
                       review.WarningMessage (bot.checkPRSize pr) ++ review.branding;
                     review.Comments := [] |}).
Proof.
  intros rc GetPRDiff ai promptFile send repo pr diff Hs Hd Hsend.
  unfold bot.ProcessPullRequest, review.GenerateReview. cbv zeta.
  rewrite Hs, Hd. cbn [negb]. rewrite (parse_no_answer _ _ _ _ _ _ _ Hsend). cbn [bind].
  destruct (gostring_eqb (review.WarningMessage (bot.checkPRSize pr)) []) eqn:E;
    cbn [negb]; [|reflexivity].
  apply gostring_eqb_eq in E. rewrite E. reflexivity.
Qed.

Lemma review_is_posted_without_answer_witness :
  bot.ProcessPullRequest acmeOnly (fun _ _ _ => Some (str "=== a.go ==="))
    (review.callClaudeAPI {| review.apiKey := str "k"; review.model := str "m" |} None
       (fun _ => review.Failed))
    {| bot.OwnerLogin := str "acme"; bot.RepoName := str "svc" |}
    (changeSet 21 10 10)
  = Returned (bot.PostReview (str "acme") (str "svc") (bot.GetNumber (changeSet 21 10 10))
                {| review.Summary :=
                     review.WarningMessage (bot.checkPRSize (changeSet 21 10 10))
                       ++ review.branding;
                   review.Comments := [] |}).
Proof.
  apply (review_is_posted_without_answer acmeOnly (fun _ _ _ => Some (str "=== a.go ==="))
           {| review.apiKey := str "k"; review.model := str "m" |} None
           (fun _ => review.Failed)
           {| bot.OwnerLogin := str "acme"; bot.RepoName := str "svc" |}
           (changeSet 21 10 10) (str "=== a.go ===")).
  - vm_compute. reflexivity.
  - reflexivity.
  - intros request. exact I.
Defined.

(** * Lines the environment file drops *)

Lemma empty_name_line (line raw : gostring) (rest : list gostring) (env : os.environ) :
  strings.TrimSpace line = str "=" ++ raw ->
  config.loadEnvLines (line :: rest) env = config.loadEnvLines rest env.
Proof.
  intros H. cbn [config.loadEnvLines]. rewrite H.
  change (gostring_eqb (str "=" ++ raw) [] || strings.HasPrefix (str "=" ++ raw) (str "#"))
    with false.
  cbv iota. change (str "=" ++ raw) with ([] ++ str "=" ++ raw).
  rewrite (SplitN_assignment [] raw) by (intros []).
  change (strings.TrimSpace []) with (@nil ascii).
  set (value := strings.TrimSpace raw).
  assert (Hv : exists v,
             (if (2 <=? length value)
                 && (((config.byteAt value 0 =? 34)
                      && (config.byteAt value (length value - 1) =? 34))
                     || ((config.byteAt value 0 =? 39)
                         && (config.byteAt value (length value - 1) =? 39)))
              then slice value 1 (length value - 1)
              else Returned value) = Returned v).
  { destruct (2 <=? length value) eqn:G; cbn [andb]; [|now exists value].
    apply Nat.leb_le in G.
    destruct ((config.byteAt value 0 =? 34)
              && (config.byteAt value (length value - 1) =? 34)
              || (config.byteAt value 0 =? 39)
                 && (config.byteAt value (length value - 1) =? 39)); [|now exists value].
    rewrite slice_ok by lia. eexists. reflexivity. }
  destruct Hv as [v ->]. cbn [bind]. reflexivity.
Qed.

(** X25.  An assignment without a name, a line shorter than 65536 bytes
    whose first non-blank byte is the equals sign, changes nothing: the
    system call refuses the empty name, the error is dropped without a
    word, and the file with the line gives the same environment as the
    file without it. *)
Theorem loadEnvFile_empty_name :
  forall before line raw after env,
    Forall noLF before ->
    scannable line ->
    strings.TrimSpace line = str "=" ++ raw ->
    config.loadEnvFile (Some (unlines before ++ line ++ nl ++ after)) env
    = config.loadEnvFile (Some (unlines before ++ after)) env.
Proof.
  intros before line raw after env Hb Hl H.
  apply (skipped_line before line after env Hb Hl).
  intros rest env'. apply (empty_name_line _ raw). now rewrite TrimSpace_dropCR.
Qed.

Lemma loadEnvFile_empty_name_witness :
  config.loadEnvFile (Some (unlines [str "A=1"] ++ str "  =secret" ++ nl ++ str "B=2")) []
  = config.loadEnvFile (Some (unlines [str "A=1"] ++ str "B=2")) [].
Proof.
  apply (loadEnvFile_empty_name [str "A=1"] (str "  =secret") (str "secret") (str "B=2") []).
  - repeat constructor. vm_compute. intuition discriminate.
  - split; [vm_compute; intuition discriminate | reflexivity].
  - reflexivity.
Defined.
